(** * The hints kitten: a shallow embedding of [kittens/hints/main.py]

    The development follows the source file top to bottom: the Python
    values the code manipulates (strings indexed by integers, exceptions,
    dictionaries), the hint codec, the overlay renderer, the [Hints]
    handler, the match extractor with its post-processors, and finally
    [run_loop] and [run]. *)

From Stdlib Require Import ZArith Ascii String List Bool Lia DecimalString.
From stdpp Require Import base gmap sets list strings.

Open Scope Z_scope.

(** ** Python values *)

(** A Python [str] is a sequence of characters addressed by integers. *)
Abbreviation str := (list ascii).

Definition py (s : string) : str := list_ascii_of_string s.

(** Exceptions the modelled code can raise. [SystemExit] is the only one
    that an [except Exception] clause lets through. *)
Inductive exn : Type :=
| KeyError
| IndexError
| ZeroDivisionError
| EOFError
| ValueError
| re_error
| SystemExit (code : Z).

Definition is_Exception (e : exn) : bool :=
  match e with
  | SystemExit _ => false
  | _ => true
  end.

(** The outcome of running a piece of Python: a value, an exception, or
    no outcome at all ([Diverge]: the loop does not finish). *)
Inductive result (A : Type) : Type :=
| Ok (a : A)
| Raise (e : exn)
| Diverge.

Arguments Ok {A} a.
Arguments Raise {A} e.
Arguments Diverge {A}.

Global Instance result_bind : MBind result := fun A B k r =>
  match r with
  | Ok a => k a
  | Raise e => Raise e
  | Diverge => Diverge
  end.

Global Instance result_ret : MRet result := fun A a => Ok a.

Module Py.

Definition len {A} (s : list A) : Z := Z.of_nat (length s).

(** [s[i]]: a negative index counts from the end, an index out of range
    raises [IndexError]. *)
Definition getitem {A} (s : list A) (i : Z) : result A :=
  let j := if i <? 0 then i + len s else i in
  if (j <? 0) || (len s <=? j) then Raise IndexError
  else match s !! Z.to_nat j with
       | Some c => Ok c
       | None => Raise IndexError
       end.

(** Slice bounds are clamped to [0 .. len s], after a negative bound has
    been shifted by [len s]. *)
Definition clamp (n i : Z) : Z :=
  let j := if i <? 0 then i + n else i in
  Z.max 0 (Z.min n j).

(** [s[lo:hi]] *)
Definition slice {A} (s : list A) (lo hi : Z) : list A :=
  let a := clamp (len s) lo in
  let b := clamp (len s) hi in
  take (Z.to_nat (b - a)) (drop (Z.to_nat a) s).

(** [s[lo:]] *)
Definition slice_from {A} (s : list A) (lo : Z) : list A :=
  drop (Z.to_nat (clamp (len s) lo)) s.

(** [s[:hi]] *)
Definition slice_to {A} (s : list A) (hi : Z) : list A :=
  take (Z.to_nat (clamp (len s) hi)) s.

Definition eqc (a b : ascii) : bool := bool_decide (a = b).

Definition eqs (a b : str) : bool := bool_decide (a = b).

(** [c in s] for a one-character [c]. *)
Definition contains (s : str) (c : ascii) : bool := bool_decide (c ∈ s).

(** [s.startswith(p)] *)
Fixpoint startswith (s p : str) : bool :=
  match p, s with
  | [], _ => true
  | _ :: _, [] => false
  | a :: p', b :: s' => eqc a b && startswith s' p'
  end.

(** Position of the first occurrence of [c] in [s], counted from [i]. *)
Fixpoint find_from (c : ascii) (s : str) (i : Z) : Z :=
  match s with
  | [] => -1
  | a :: s' => if eqc a c then i else find_from c s' (i + 1)
  end.

(** [s.find(c, start)] for a one-character [c]: the lowest index at or
    after [start] holding [c], or [-1]. *)
Definition find (s : str) (c : ascii) (start : Z) : Z :=
  let a := clamp (len s) start in
  find_from c (drop (Z.to_nat a) s) a.

(** Position of the last occurrence of [c] in [s], counted from [i];
    [best] is the answer so far. *)
Fixpoint rfind_from (c : ascii) (s : str) (i best : Z) : Z :=
  match s with
  | [] => best
  | a :: s' => rfind_from c s' (i + 1) (if eqc a c then i else best)
  end.

(** [s.rfind(c)] for a one-character [c]. *)
Definition rfind (s : str) (c : ascii) : Z := rfind_from c s 0 (-1).

(** [s.replace(c, r)] for a one-character [c]. *)
Definition replace (s : str) (c : ascii) (r : str) : str :=
  concat (map (fun a => if eqc a c then r else [a]) s).

(** The characters [str.isspace] accepts, among the 256 modelled. *)
Definition isspace (c : ascii) : bool :=
  let n := Z.of_nat (nat_of_ascii c) in
  ((9 <=? n) && (n <=? 13)) || ((28 <=? n) && (n <=? 32))
  || (n =? 133) || (n =? 160).

(** [s.rstrip()] *)
Fixpoint rstrip (s : str) : str :=
  match s with
  | [] => []
  | c :: s' =>
      match rstrip s' with
      | [] => if isspace c then [] else [c]
      | t => c :: t
      end
  end.

(** [s.rstrip(c)] for a one-character [c]. *)
Fixpoint rstrip_char (s : str) (c : ascii) : str :=
  match s with
  | [] => []
  | a :: s' =>
      match rstrip_char s' c with
      | [] => if eqc a c then [] else [a]
      | t => a :: t
      end
  end.

(** [s.split(sep)] for a one-character [sep]. *)
Fixpoint split (s : str) (sep : ascii) : list str :=
  match s with
  | [] => [[]]
  | a :: s' =>
      if eqc a sep then [] :: split s' sep
      else match split s' sep with
           | [] => [[a]]
           | w :: ws => (a :: w) :: ws
           end
  end.

(** [sep.join(l)] *)
Fixpoint join (sep : str) (l : list str) : str :=
  match l with
  | [] => []
  | [x] => x
  | x :: l' => x ++ sep ++ join sep l'
  end.

(** [c * n] for a character [c]: empty when [n <= 0]. *)
Definition times (c : ascii) (n : Z) : str := replicate (Z.to_nat n) c.

(** [s.ljust(width, fill)] *)
Definition ljust (s : str) (width : Z) (fill : ascii) : str :=
  s ++ times fill (width - len s).

(** [template.format(arg)] for a template with one [{}] field. *)
Fixpoint format1 (template arg : str) : str :=
  match template with
  | a :: (b :: rest) as template' =>
      if eqc a "{" && eqc b "}" then arg ++ rest
      else a :: format1 template' arg
  | _ => template
  end.

(** [str(n)] for an integer. *)
Definition str_of_int (n : Z) : str :=
  list_ascii_of_string (NilZero.string_of_int (Z.to_int n)).

End Py.

(** ** Marks *)

(** [class Mark]. [end] is a reserved word here, hence [end_]. *)
Module Mark.
Record t : Type := mk {
  index : Z;
  start : Z;
  end_ : Z;
  text : str;
  groupdict : list (str * option str)
}.
End Mark.

Abbreviation Mark := Mark.t.

Global Instance Mark_eq_dec : EqDecision Mark.
Proof. solve_decision. Defined.

(** ** Hint codec *)

(** The [while not res or num > 0] loop of [encode_hint]. One unit of
    [fuel] is spent per test of the loop condition; [d] is
    [len(alphabet)], read once before the loop. *)
Fixpoint encode_loop (fuel : nat) (num d : Z) (alphabet res : str) : result str :=
  match fuel with
  | O => Diverge
  | S fuel' =>
      if Py.eqs res [] || (num >? 0) then
        if d =? 0 then Raise ZeroDivisionError
        else
          let (num', i) := (num / d, num mod d) in
          c ← Py.getitem alphabet i;
          encode_loop fuel' num' d alphabet (c :: res)
      else Ok res
  end.

(** [encode_hint(num, alphabet)]. For [num >= 0] and an alphabet of two
    symbols or more the fuel given here is never exhausted
    (see [encode_loop_fuel]); [Diverge] stands for the runs of the source
    that never leave the loop. *)
Definition encode_hint (num : Z) (alphabet : str) : result str :=
  encode_loop (Z.to_nat num + 2) num (Py.len alphabet) alphabet [].

(** [enumerate(l)], counting from [i]. *)
Fixpoint enumerate_from {A} (i : Z) (l : list A) : list (Z * A) :=
  match l with
  | [] => []
  | x :: l' => (i, x) :: enumerate_from (i + 1) l'
  end.

(** [{c: i for i, c in enumerate(alphabet)}]: a later occurrence of a
    character overwrites an earlier one. *)
Definition alphabet_index_map (alphabet : str) : gmap ascii Z :=
  foldl (fun m '(i, c) => <[c := i]> m) ∅ (enumerate_from 0 alphabet).

(** The [for char in x] loop of [decode_hint]; [index_map[char]] raises
    [KeyError] for a character that is not a key. *)
Fixpoint decode_loop (index_map : gmap ascii Z) (base : Z) (x : str) (i : Z)
  : result Z :=
  match x with
  | [] => Ok i
  | char :: x' =>
      match index_map !! char with
      | Some v => decode_loop index_map base x' (i * base + v)
      | None => Raise KeyError
      end
  end.

Definition decode_hint (x alphabet : str) : result Z :=
  decode_loop (alphabet_index_map alphabet) (Py.len alphabet) x 0.

Definition DEFAULT_HINT_ALPHABET : str := py "0123456789abcdefghijklmnopqrstuvwxyz".

(** ** External collaborators *)

(** The [re] module: a compiled pattern and the matches it yields. Group
    [g] of a match spans [spans[g]]; a group that took no part in the
    match spans [(-1, -1)]. *)
Module re.
Record Match : Type := mkMatch {
  spans : list (Z * Z);
  groupdict : list (str * option str)
}.

Record Pattern : Type := mkPattern {
  groups : Z;
  groupindex : list (str * Z);
  finditer : str -> list Match
}.

(** [m.span(g)] raises [IndexError] for a group the pattern lacks. *)
Definition span (m : Match) (g : Z) : result (Z * Z) :=
  if g <? 0 then Raise IndexError
  else match spans m !! Z.to_nat g with
       | Some p => Ok p
       | None => Raise IndexError
       end.
End re.

(** The parsed command line ([HintsCLIOptions]), one field per option of
    [OPTIONS]. An option left unset is the empty string, except
    [word_characters], which the code tests against [None]. *)
Module HintsCLIOptions.
Record t : Type := mk {
  program : list str;
  type : str;
  regex : str;
  linenum_action : str;
  url_prefixes : str;
  word_characters : option str;
  minimum_match_length : Z;
  multiple : bool;
  multiple_joiner : str;
  add_trailing_space : str;
  hints_offset : Z;
  alphabet : str;
  ascending : bool;
  customize_processing : str
}.
End HintsCLIOptions.

(** Keyword arguments of [styled]. *)
Record style : Type := mkStyle {
  fg : str;
  bg : option str;
  fg_intense : bool;
  bold : bool
}.

(** One answer of the terminal to [input(prompt)]: a line, or end of
    input. *)
Inductive reply : Type :=
| Line (s : str)
| EndOfInput.

(** Everything the file imports or reads from its surroundings and that
    is not defined in it: the terminal operations of [..tui.operations],
    [gettext], [re.compile], the delimiter class of [.url_regex], the
    window width ([OVERLAID_WINDOW_COLS], else [screen_size().cols]), the
    word characters of [KITTY_COMMON_OPTS], and user-supplied processing
    scripts (for each name, the [mark] function it defines, if any). *)
Class Host : Type := {
  faint : str -> str;
  styled : style -> str -> str;
  gettext : str -> str;
  re_compile : str -> result re.Pattern;
  url_delimiters : str;
  window_cols : result Z;
  select_by_word_characters : result str;
  custom_mark :
    str -> result (option (str -> HintsCLIOptions.t -> list str -> result (list Mark)))
}.

(** ** Overlay renderer *)

Definition NUL : ascii := "000"%char.
Definition LF : ascii := "010"%char.
Definition CR : ascii := "013"%char.

(** Truth value of a string, and [a or b] on strings. *)
Definition truthy (s : str) : bool := negb (Py.eqs s []).

Definition or_ (a b : str) : str := if truthy a then a else b.

(** The pieces [highlight_mark] passes to the terminal operations: either
    the whole match text, to be shown faint, or the hint badge and the
    text that follows it. *)
Inductive overlay : Type :=
| Faint (text : str)
| Hinted (hint text : str).

Definition hint_style : style :=
  {| fg := py "black"; bg := Some (py "green"); fg_intense := false; bold := true |}.

Definition text_style : style :=
  {| fg := py "gray"; bg := None; fg_intense := true; bold := true |}.

(** [highlight_mark] up to the calls of [faint] and [styled]. *)
Definition highlight_parts (m : Mark) (text current_input alphabet : str)
  : result overlay :=
  hint ← encode_hint (Mark.index m) alphabet;
  if truthy current_input && negb (Py.startswith hint current_input)
  then Ok (Faint text)
  else
    let hint := or_ (Py.slice_from hint (Py.len current_input)) (py " ") in
    let text := Py.slice_from text (Py.len hint) in
    Ok (Hinted hint text).

Definition styled_overlay `{Host} (o : overlay) : str :=
  match o with
  | Faint text => faint text
  | Hinted hint text => styled hint_style hint ++ styled text_style text
  end.

Definition highlight_mark `{Host} (m : Mark) (text current_input alphabet : str)
  : result str :=
  o ← highlight_parts m text current_input alphabet;
  Ok (styled_overlay o).

(** Number of characters of the original text and of its overlay that
    reach the screen; the styling itself takes no room. *)
Definition overlay_width (o : overlay) : Z :=
  match o with
  | Faint text => Py.len text
  | Hinted hint text => Py.len hint + Py.len text
  end.

(** The [for mark in reversed(all_marks)] loop of [render], over the
    marks already reversed. *)
Fixpoint render_marks `{Host} (marks : list Mark) (text current_input : str)
  (ignore_mark_indices : gset Z) (alphabet : str) : result str :=
  match marks with
  | [] => Ok text
  | mark :: marks' =>
      if bool_decide (Mark.index mark ∈ ignore_mark_indices)
      then render_marks marks' text current_input ignore_mark_indices alphabet
      else
        mtext ← highlight_mark mark
                  (Py.slice text (Mark.start mark) (Mark.end_ mark))
                  current_input alphabet;
        render_marks marks'
          (Py.slice_to text (Mark.start mark) ++ mtext
             ++ Py.slice_from text (Mark.end_ mark))
          current_input ignore_mark_indices alphabet
  end.

Definition render `{Host} (text current_input : str) (all_marks : list Mark)
  (ignore_mark_indices : gset Z) (alphabet : str) : result str :=
  text ← render_marks (rev all_marks) text current_input ignore_mark_indices alphabet;
  let text := Py.replace text NUL [] in
  Ok (Py.rstrip (Py.replace text LF [CR; LF])).

(** ** The [Hints] handler *)

(** What a handler asks of the terminal ([self.cmd], [self.write]) and of
    the loop that drives it ([self.quit_loop]). *)
Inductive command : Type :=
| set_cursor_visible (visible : bool)
| set_window_title (title : str)
| set_line_wrapping (wrap : bool)
| clear_screen
| write (text : str)
| quit_loop (return_code : Z).

(** Key events of [kitty.key_encoding]: the two shared objects
    [backspace_key] and [enter_key], which the handler recognises by
    identity, and any other event, of which it reads the [key] only. *)
Inductive Key : Type :=
| ESCAPE
| BACKSPACE
| ENTER
| other_key (name : string).

Inductive KeyEvent : Type :=
| backspace_key
| enter_key
| key_event (key : Key).

Definition KeyEvent_key (e : KeyEvent) : Key :=
  match e with
  | backspace_key => BACKSPACE
  | enter_key => ENTER
  | key_event key => key
  end.

Module Hints.
Record t : Type := mk {
  text : str;
  index_map : gmap Z Mark;
  alphabet : str;
  all_marks : list Mark;
  ignore_mark_indices : gset Z;
  args : HintsCLIOptions.t;
  window_title : str;
  multiple : bool;
  match_suffix : str;
  chosen : list Mark;
  current_input : str;
  current_text : option str
}.

(** Assignments to the attributes the handler changes after [__init__]. *)
Definition set_ignore_mark_indices (self : t) (v : gset Z) : t :=
  mk (text self) (index_map self) (alphabet self) (all_marks self) v
     (args self) (window_title self) (multiple self) (match_suffix self)
     (chosen self) (current_input self) (current_text self).

Definition set_chosen (self : t) (v : list Mark) : t :=
  mk (text self) (index_map self) (alphabet self) (all_marks self)
     (ignore_mark_indices self) (args self) (window_title self) (multiple self)
     (match_suffix self) v (current_input self) (current_text self).

Definition set_current_input (self : t) (v : str) : t :=
  mk (text self) (index_map self) (alphabet self) (all_marks self)
     (ignore_mark_indices self) (args self) (window_title self) (multiple self)
     (match_suffix self) (chosen self) v (current_text self).

Definition set_current_text (self : t) (v : option str) : t :=
  mk (text self) (index_map self) (alphabet self) (all_marks self)
     (ignore_mark_indices self) (args self) (window_title self) (multiple self)
     (match_suffix self) (chosen self) (current_input self) v.

Definition get_match_suffix (args : HintsCLIOptions.t) : str :=
  if Py.eqs (HintsCLIOptions.add_trailing_space args) (py "always") then py " "
  else if Py.eqs (HintsCLIOptions.add_trailing_space args) (py "never") then []
  else if HintsCLIOptions.multiple args then py " " else [].

Definition reset (self : t) : t :=
  set_current_text (set_current_input self []) None.

(** [Hints.__init__] *)
Definition init `{Host} (text : str) (all_marks : list Mark)
  (index_map : gmap Z Mark) (args : HintsCLIOptions.t) : t :=
  reset
    (mk text index_map
        (or_ (HintsCLIOptions.alphabet args) DEFAULT_HINT_ALPHABET)
        all_marks ∅ args
        (if Py.eqs (HintsCLIOptions.type args) (py "url")
         then gettext (py "Choose URL") else gettext (py "Choose text"))
        (HintsCLIOptions.multiple args) (get_match_suffix args) [] [] None).

(** The properties [text_matches] and [groupdicts]. *)
Definition text_matches (self : t) : list str :=
  map (fun m => Mark.text m ++ match_suffix self) (chosen self).

Definition groupdicts (self : t) : list (list (str * option str)) :=
  map Mark.groupdict (chosen self).

Definition init_terminal_state (self : t) : list command :=
  [set_cursor_visible false; set_window_title (window_title self);
   set_line_wrapping false].

(** [draw_screen] renders only when the cached text is gone. *)
Definition draw_screen `{Host} (self : t) : result (t * list command) :=
  '(self, shown) ←
    match current_text self with
    | None =>
        shown ← render (text self) (current_input self) (all_marks self)
                  (ignore_mark_indices self) (alphabet self);
        Ok (set_current_text self (Some shown), shown)
    | Some shown => Ok (self, shown)
    end;
  Ok (self, [clear_screen; write shown]).

Definition initialize `{Host} (self : t) : result (t * list command) :=
  '(self, drawn) ← draw_screen self;
  Ok (self, init_terminal_state self ++ drawn).

(** The list comprehension of [on_text]: the marks of [index_map] whose
    hint starts with [current_input]. *)
Fixpoint matching_marks (items : list (Z * Mark)) (alphabet current_input : str)
  : result (list Mark) :=
  match items with
  | [] => Ok []
  | (idx, m) :: items' =>
      hint ← encode_hint idx alphabet;
      rest ← matching_marks items' alphabet current_input;
      Ok (if Py.startswith hint current_input then m :: rest else rest)
  end.

(** The [for c in text] loop of [on_text]. *)
Definition append_input (self : t) (text : str) : t * bool :=
  foldl (fun '(self, changed) c =>
           if Py.contains (alphabet self) c
           then (set_current_input self (current_input self ++ [c]), true)
           else (self, changed))
        (self, false) text.

Definition on_text `{Host} (self : t) (text : str) (in_bracketed_paste : bool)
  : result (t * list command) :=
  let '(self, changed) := append_input self text in
  if changed then
    matches ← matching_marks (map_to_list (index_map self)) (alphabet self)
                (current_input self);
    match matches with
    | [m] =>
        let self := set_chosen self (chosen self ++ [m]) in
        if multiple self then
          let self :=
            set_ignore_mark_indices self
              ({[Mark.index m]} ∪ ignore_mark_indices self) in
          let self := reset self in
          draw_screen (set_current_text self None)
        else Ok (self, [quit_loop 0])
    | _ => draw_screen (set_current_text self None)
    end
  else Ok (self, []).

(** [self.index_map[idx]] *)
Definition index_map_getitem (self : t) (idx : Z) : result Mark :=
  match index_map self !! idx with
  | Some m => Ok m
  | None => Raise KeyError
  end.

Definition on_key `{Host} (self : t) (e : KeyEvent) : result (t * list command) :=
  match e with
  | backspace_key =>
      let self := set_current_input self (Py.slice_to (current_input self) (-1)) in
      draw_screen (set_current_text self None)
  | _ =>
      if match e with enter_key => truthy (current_input self) | _ => false end
      then
        match (idx ← decode_hint (current_input self) (alphabet self);
               m ← index_map_getitem self idx;
               Ok (idx, m)) with
        | Ok (idx, m) =>
            let self := set_chosen self (chosen self ++ [m]) in
            let self :=
              set_ignore_mark_indices self ({[idx]} ∪ ignore_mark_indices self) in
            if multiple self then draw_screen (reset self)
            else Ok (self, [quit_loop 0])
        | Raise ex =>
            if is_Exception ex then
              let self := set_current_input self [] in
              draw_screen (set_current_text self None)
            else Raise ex
        | Diverge => Diverge
        end
      else
        match KeyEvent_key e with
        | ESCAPE => Ok (self, [quit_loop (if multiple self then 0 else 1)])
        | _ => Ok (self, [])
        end
  end.

Definition on_interrupt (self : t) : result (t * list command) :=
  Ok (self, [quit_loop 1]).

Definition on_eot (self : t) : result (t * list command) :=
  Ok (self, [quit_loop 1]).

Definition on_resize `{Host} (self : t) : result (t * list command) :=
  draw_screen self.
End Hints.

(** ** Match extractor *)

(** The [while e > s + 1 and text[e-1] == '\0'] loop of
    [regex_finditer]; one unit of fuel per test of the condition. *)
Fixpoint trim_filler (fuel : nat) (text : str) (s e : Z) : result Z :=
  match fuel with
  | O => Diverge
  | S fuel' =>
      if e >? s + 1 then
        c ← Py.getitem text (e - 1);
        if Py.eqc c NUL then trim_filler fuel' text s (e - 1) else Ok e
      else Ok e
  end.

(** The body of the [for m in pat.finditer(text)] loop: the span the
    match contributes, if it is long enough. *)
Definition regex_finditer_step (has_named_groups : bool) (groups : Z)
  (minimum_match_length : Z) (text : str) (m : re.Match)
  : result (option (Z * Z * list (str * option str))) :=
  '(s, e) ← re.span m (if has_named_groups then 0 else groups);
  e ← trim_filler (Z.to_nat (e - s) + 1) text s e;
  Ok (if e - s >=? minimum_match_length then Some (s, e, re.groupdict m) else None).

Fixpoint regex_finditer_loop (has_named_groups : bool) (groups : Z)
  (minimum_match_length : Z) (text : str) (ms : list re.Match)
  : result (list (Z * Z * list (str * option str))) :=
  match ms with
  | [] => Ok []
  | m :: ms' =>
      y ← regex_finditer_step has_named_groups groups minimum_match_length text m;
      ys ← regex_finditer_loop has_named_groups groups minimum_match_length text ms';
      Ok (match y with Some y => y :: ys | None => ys end)
  end.

(** [regex_finditer], as the list of what the generator yields. *)
Definition regex_finditer (pat : re.Pattern) (minimum_match_length : Z) (text : str)
  : result (list (Z * Z * list (str * option str))) :=
  let has_named_groups := bool_decide (re.groupindex pat <> []) in
  regex_finditer_loop has_named_groups (re.groups pat) minimum_match_length text
    (re.finditer pat text).

(** The group whose span [regex_finditer] reads from each match. *)
Definition span_group (pat : re.Pattern) : Z :=
  if bool_decide (re.groupindex pat <> []) then 0 else re.groups pat.

(** What the pattern engine guarantees: the span of that group lies in
    the text, or is [(-1, -1)] when the group took no part in the match. *)
Definition spans_in_text (pat : re.Pattern) (text : str) : Prop :=
  forall m, m ∈ re.finditer pat text ->
    exists s e, re.span m (span_group pat) = Ok (s, e) /\ -1 <= s /\ s <= e <= Py.len text.

(** [e'] is the end [e] of a span starting at [s], moved back over
    trailing filler until a character that is not filler is last, or the
    span has one character left. *)
Definition trimmed_end (text : str) (s e e' : Z) : Prop :=
  e' <= e /\
  (s + 1 <= e -> s + 1 <= e') /\
  (e <= s + 1 -> e' = e) /\
  (forall i, e' <= i < e -> Py.getitem text i = Ok NUL) /\
  (s + 1 < e' -> exists c, Py.getitem text (e' - 1) = Ok c /\ c <> NUL).

(** What [regex_finditer] yields for the match [m], if anything. *)
Definition yielded (pat : re.Pattern) (minimum_match_length : Z) (text : str)
  (m : re.Match) : option (Z * Z * list (str * option str)) :=
  match regex_finditer_step (bool_decide (re.groupindex pat <> [])) (re.groups pat)
          minimum_match_length text m with
  | Ok y => y
  | _ => None
  end.

(** ** Post-processors *)

Definition DQUOTE : ascii := "034"%char.
Definition SQUOTE : ascii := "039"%char.

(** [closing_bracket_map[c]] *)
Definition closing_bracket_map (c : ascii) : result ascii :=
  if Py.eqc c "(" then Ok ")"%char
  else if Py.eqc c "[" then Ok "]"%char
  else if Py.eqc c "{" then Ok "}"%char
  else if Py.eqc c "<" then Ok ">"%char
  else if Py.eqc c "*" then Ok "*"%char
  else if Py.eqc c DQUOTE then Ok DQUOTE
  else if Py.eqc c SQUOTE then Ok SQUOTE
  else Raise KeyError.

Definition opening_brackets : str := py "([{<*" ++ [DQUOTE; SQUOTE].

(** The [while text[e - 1] in '.,?!' and e > 1] loop of [url]. *)
Fixpoint url_strip_punctuation (fuel : nat) (text : str) (e : Z) : result Z :=
  match fuel with
  | O => Diverge
  | S fuel' =>
      c ← Py.getitem text (e - 1);
      if Py.contains (py ".,?!") c && (e >? 1)
      then url_strip_punctuation fuel' text (e - 1)
      else Ok e
  end.

Definition url (text : str) (s e : Z) : result (Z * Z) :=
  let e :=
    if (s >? 4) && Py.eqs (Py.slice text (s - 5) s) (py "link:") then
      let url := Py.slice text s e in
      let idx := Py.rfind url "[" in
      if idx >? -1 then e - (Py.len url - idx) else e
    else e in
  e ← url_strip_punctuation (Z.to_nat e + 1) text e;
  e ← (if (s >? 0) && (e <=? Py.len text) then
         c ← Py.getitem text (s - 1);
         if Py.contains opening_brackets c then
           q ← closing_bracket_map c;
           let idx := Py.find text q s in
           Ok (if idx >? s then idx else e)
         else Ok e
       else Ok e);
  let e :=
    if (e >? 3) && Py.eqs (Py.slice text (e - 2) e) (py "`_") then e - 2 else e in
  Ok (s, e).

Definition brackets (text : str) (s e : Z) : result (Z * Z) :=
  if (s <? e) && (e <=? Py.len text) then
    before ← Py.getitem text s;
    if Py.contains (py "({[<") before then
      last ← Py.getitem text (e - 1);
      closing ← closing_bracket_map before;
      Ok (if Py.eqc last closing then (s + 1, e - 1) else (s, e))
    else Ok (s, e)
  else Ok (s, e).

Definition quotes (text : str) (s e : Z) : result (Z * Z) :=
  if (s <? e) && (e <=? Py.len text) then
    before ← Py.getitem text s;
    if Py.contains [SQUOTE; DQUOTE] before then
      last ← Py.getitem text (e - 1);
      Ok (if Py.eqc last before then (s + 1, e - 1) else (s, e))
    else Ok (s, e)
  else Ok (s, e).

Abbreviation postprocessor := (str -> Z -> Z -> result (Z * Z)).

(** The [for func in post_processors] loop of [mark]. *)
Fixpoint apply_post_processors (post_processors : list postprocessor)
  (text : str) (s e : Z) : result (Z * Z) :=
  match post_processors with
  | [] => Ok (s, e)
  | func :: rest =>
      '(s, e) ← func text s e;
      apply_post_processors rest text s e
  end.

(** The [for idx, (s, e, groupdict) in enumerate(...)] loop of [mark]. *)
Fixpoint mark_loop (post_processors : list postprocessor) (text : str) (idx : Z)
  (found : list (Z * Z * list (str * option str))) : result (list Mark) :=
  match found with
  | [] => Ok []
  | (s, e, groupdict) :: found' =>
      '(s, e) ← apply_post_processors post_processors text s e;
      let mark_text := Py.replace (Py.replace (Py.slice text s e) LF []) NUL [] in
      marks ← mark_loop post_processors text (idx + 1) found';
      Ok (Mark.mk idx s e mark_text groupdict :: marks)
  end.

Definition mark `{Host} (pattern : str) (post_processors : list postprocessor)
  (text : str) (args : HintsCLIOptions.t) : result (list Mark) :=
  pat ← re_compile pattern;
  found ← regex_finditer pat (HintsCLIOptions.minimum_match_length args) text;
  mark_loop post_processors text 0 found.

(** ** Patterns and input text *)

Definition DEFAULT_REGEX : str := py "(?m)^\s*(.+)\s*$".

(** [escape(chars)] *)
Definition escape (chars : str) : str :=
  Py.replace
    (Py.replace (Py.replace chars "\" (py "\\")) "-" (py "\-"))
    "]" (py "\]").

Definition functions_for `{Host} (args : HintsCLIOptions.t)
  : result (str * list postprocessor) :=
  let type := HintsCLIOptions.type args in
  if Py.eqs type (py "url") then
    Ok (py "(?:"
          ++ Py.join (py "|") (Py.split (HintsCLIOptions.url_prefixes args) ",")
          ++ py ")://[^" ++ url_delimiters ++ py "]{3,}",
        [url])
  else if Py.eqs type (py "path") then
    Ok (py "(?:\S*/\S+)|(?:\S+[.][a-zA-Z0-9]{2,7})", [brackets; quotes])
  else if Py.eqs type (py "line") then
    Ok (py "(?m)^\s*(.+)[\s" ++ [NUL] ++ py "]*$", [])
  else if Py.eqs type (py "hash") then
    Ok (py "[0-9a-f]{7,128}", [])
  else if Py.eqs type (py "word") then
    chars ← match HintsCLIOptions.word_characters args with
            | Some chars => Ok chars
            | None => select_by_word_characters
            end;
    Ok (py "(?u)[" ++ escape chars ++ py "\w]{"
          ++ Py.str_of_int (HintsCLIOptions.minimum_match_length args) ++ py ",}",
        [brackets; quotes])
  else Ok (HintsCLIOptions.regex args, []).

(** The [for full_line in text.split('\n')] loop of [convert_text]. *)
Fixpoint convert_lines (full_lines : list str) (cols : Z) : list str :=
  match full_lines with
  | [] => []
  | full_line :: rest =>
      (if truthy full_line then
         if negb (truthy (Py.rstrip_char full_line CR)) then
           replicate (length full_line) (Py.times NUL cols)
         else
           map (fun line => Py.ljust line cols NUL)
               (filter (fun line => truthy line = true) (Py.split full_line CR))
       else [])
      ++ convert_lines rest cols
  end.

Definition convert_text (text : str) (cols : Z) : str :=
  Py.join [LF] (convert_lines (Py.split text LF) cols).

Definition parse_input `{Host} (text : str) : result str :=
  cols ← window_cols;
  Ok (convert_text text cols).

Definition linenum_marks `{Host} (text : str) (args : HintsCLIOptions.t)
  (extra_cli_args : list str) : result (list Mark) :=
  let regex := HintsCLIOptions.regex args in
  let regex :=
    if Py.eqs regex DEFAULT_REGEX
    then py "(?P<path>(?:\S*/\S+)|(?:\S+[.][a-zA-Z0-9]{2,7})):(?P<line>\d+)"
    else regex in
  mark regex [brackets; quotes] text args.

(** [load_custom_processor(...)], as far as [run] uses it: the [mark]
    function of the processor, if it has one. *)
Definition load_custom_processor `{Host} (customize_processing : str)
  : result (option (str -> HintsCLIOptions.t -> list str -> result (list Mark))) :=
  if Py.eqs customize_processing (py "::linenum::") then Ok (Some linenum_marks)
  else custom_mark customize_processing.

(** ** The loop and its result *)

(** The dictionary [run_loop] returns. *)
Record selection : Type := mkSelection {
  sel_match : list str;
  sel_programs : list str;
  sel_multiple_joiner : str;
  sel_customize_processing : str;
  sel_type : str;
  sel_groupdicts : list (list (str * option str));
  sel_extra_cli_args : list str;
  sel_linenum_action : str
}.

(** What the terminal delivers to the loop. *)
Inductive event : Type :=
| text_event (text : str) (in_bracketed_paste : bool)
| key (e : KeyEvent)
| interrupt
| eot
| resize.

Definition dispatch `{Host} (handler : Hints.t) (ev : event)
  : result (Hints.t * list command) :=
  match ev with
  | text_event text in_bracketed_paste => Hints.on_text handler text in_bracketed_paste
  | key e => Hints.on_key handler e
  | interrupt => Hints.on_interrupt handler
  | eot => Hints.on_eot handler
  | resize => Hints.on_resize handler
  end.

(** The return code of the last [quit_loop] among [cmds], if any. *)
Fixpoint quit_code (cmds : list command) : option Z :=
  match cmds with
  | [] => None
  | c :: cmds' =>
      match quit_code cmds' with
      | Some code => Some code
      | None => match c with quit_loop code => Some code | _ => None end
      end
  end.

(** Modelled from the spec: the loop of [..tui.loop] is not part of this
    file. Following sections 4.5 and 5 of the specification it delivers
    the events one at a time, each handled to completion, and ends as soon
    as the handler has called [quit_loop], whose argument becomes the
    loop's [return_code]. [feed] gives the handler after [events], the
    return code if the loop has ended, and what was sent to the terminal
    on the way. *)
Fixpoint feed `{Host} (handler : Hints.t) (events : list event)
  : result (Hints.t * option Z * list command) :=
  match events with
  | [] => Ok (handler, None, [])
  | ev :: events' =>
      '(handler, cmds) ← dispatch handler ev;
      match quit_code cmds with
      | Some return_code => Ok (handler, Some return_code, cmds)
      | None =>
          '(handler, return_code, out) ← feed handler events';
          Ok (handler, return_code, cmds ++ out)
      end
  end.

(** Modelled from the spec: [Loop.loop(handler)] initialises the handler
    and feeds it the events; when they are used up and the handler has not
    quit, the loop waits for ever. *)
Definition Loop_loop `{Host} (handler : Hints.t) (events : list event)
  : result (Hints.t * Z * list command) :=
  '(handler, cmds) ← Hints.initialize handler;
  '(handler, return_code, out) ← feed handler events;
  match return_code with
  | Some return_code => Ok (handler, return_code, cmds ++ out)
  | None => Diverge
  end.

(** [run_loop], with the commands the terminal received during the loop
    (those sent before an exception are not recorded). *)
Definition run_loop `{Host} (args : HintsCLIOptions.t) (text : str)
  (all_marks : list Mark) (index_map : gmap Z Mark) (extra_cli_args : list str)
  (events : list event) : result selection * list command :=
  let handler := Hints.init text all_marks index_map args in
  match Loop_loop handler events with
  | Ok (handler, return_code, cmds) =>
      (if bool_decide (Hints.chosen handler <> []) && (return_code =? 0) then
         Ok {| sel_match := Hints.text_matches handler;
               sel_programs := HintsCLIOptions.program args;
               sel_multiple_joiner := HintsCLIOptions.multiple_joiner args;
               sel_customize_processing := HintsCLIOptions.customize_processing args;
               sel_type := HintsCLIOptions.type args;
               sel_groupdicts := Hints.groupdicts handler;
               sel_extra_cli_args := extra_cli_args;
               sel_linenum_action := HintsCLIOptions.linenum_action args |}
       else Raise (SystemExit return_code),
       cmds)
  | Raise ex => (Raise ex, [])
  | Diverge => (Diverge, [])
  end.

(** ** [run] *)

(** What happens on the terminal during [run]: a prompt of [input], a
    printed traceback, or a command sent from inside the loop. *)
Inductive io : Type :=
| asked (prompt : str)
| traceback
| sent (c : command).

(** [input(prompt)], answered by the first of [replies]; with no reply
    at all the call never returns. *)
Definition input (replies : list reply) : result str :=
  match replies with
  | Line s :: _ => Ok s
  | EndOfInput :: _ => Raise EOFError
  | [] => Diverge
  end.

Definition set_customize_processing (args : HintsCLIOptions.t) (v : str)
  : HintsCLIOptions.t :=
  HintsCLIOptions.mk
    (HintsCLIOptions.program args) (HintsCLIOptions.type args)
    (HintsCLIOptions.regex args) (HintsCLIOptions.linenum_action args)
    (HintsCLIOptions.url_prefixes args) (HintsCLIOptions.word_characters args)
    (HintsCLIOptions.minimum_match_length args) (HintsCLIOptions.multiple args)
    (HintsCLIOptions.multiple_joiner args) (HintsCLIOptions.add_trailing_space args)
    (HintsCLIOptions.hints_offset args) (HintsCLIOptions.alphabet args)
    (HintsCLIOptions.ascending args) v.

Definition set_index (m : Mark) (v : Z) : Mark :=
  Mark.mk v (Mark.start m) (Mark.end_ m) (Mark.text m) (Mark.groupdict m).

(** The statements of [run] from [parse_input] to [all_marks = tuple(...)]. *)
Definition find_marks `{Host} (args : HintsCLIOptions.t) (text : str)
  (extra_cli_args : list str) : result (HintsCLIOptions.t * str * list Mark) :=
  text ← parse_input text;
  '(pattern, post_processors) ← functions_for args;
  let args :=
    if Py.eqs (HintsCLIOptions.type args) (py "linenum")
    then set_customize_processing args (py "::linenum::") else args in
  all_marks ←
    (if truthy (HintsCLIOptions.customize_processing args) then
       m ← load_custom_processor (HintsCLIOptions.customize_processing args);
       match m with
       | Some custom => custom text args extra_cli_args
       | None => mark pattern post_processors text args
       end
     else mark pattern post_processors text args);
  Ok (args, text, all_marks).

(** The renumbering loop of [run]; [largest_index] is
    [all_marks[-1].index]. *)
Definition assign_indices (args : HintsCLIOptions.t) (largest_index : Z)
  (all_marks : list Mark) : list Mark :=
  let offset := Z.max 0 (HintsCLIOptions.hints_offset args) in
  map (fun m =>
         if HintsCLIOptions.ascending args
         then set_index m (Mark.index m + offset)
         else set_index m (largest_index - Mark.index m + offset))
      all_marks.

(** [{m.index: m for m in all_marks}] *)
Definition marks_index_map (all_marks : list Mark) : gmap Z Mark :=
  foldl (fun d m => <[Mark.index m := m]> d) ∅ all_marks.

(** The [except Exception] clause of [run]. *)
Definition run_except (ex : exn) (replies : list reply) (seen : list io)
  : result (option selection) * list io :=
  if is_Exception ex then
    let seen := seen ++ [traceback; asked (py "Press Enter to quit.")] in
    match input replies with
    | Ok _ => (Raise (SystemExit 1), seen)
    | Raise ex' => (Raise ex', seen)
    | Diverge => (Diverge, seen)
    end
  else (Raise ex, seen).

Definition run `{Host} (args : HintsCLIOptions.t) (text : str)
  (extra_cli_args : list str) (replies : list reply) (events : list event)
  : result (option selection) * list io :=
  match find_marks args text extra_cli_args with
  | Ok (args, text, all_marks) =>
      match last all_marks with
      | None =>
          let prompt :=
            Py.format1 (gettext (py "No {} found, press Enter to quit."))
              (if Py.eqs (HintsCLIOptions.type args) (py "url")
               then py "URLs" else py "matches") in
          match input replies with
          | Ok _ => (Ok None, [asked prompt])
          | Raise ex => run_except ex (tail replies) [asked prompt]
          | Diverge => (Diverge, [asked prompt])
          end
      | Some last_mark =>
          let all_marks := assign_indices args (Mark.index last_mark) all_marks in
          let index_map := marks_index_map all_marks in
          let '(r, cmds) :=
            run_loop args text all_marks index_map extra_cli_args events in
          (sel ← r; Ok (Some sel), map sent cmds)
      end
  | Raise ex => run_except ex replies []
  | Diverge => (Diverge, [])
  end.

(** The [__main__] block prints what [main] returns, if anything; the
    process ends with status 0, with the code of a [SystemExit], or with
    status 1 after any other exception. *)
Definition exit_status {A} (r : result A) : option Z :=
  match r with
  | Ok _ => Some 0
  | Raise (SystemExit code) => Some code
  | Raise _ => Some 1
  | Diverge => None
  end.

(** ** A host to run examples on

    The terminal operations wrap the text in SGR sequences, messages are
    not translated, the window is 20 columns wide, there are no custom
    processors, and the pattern engine finds the occurrences of the
    pattern read as a literal string. *)

Definition ESC : ascii := "027"%char.

(** Spans of the occurrences of [pattern] in [text], which starts at
    offset [pos]; [skip] characters of the last occurrence are still to
    be passed. *)
Fixpoint literal_spans (pattern text : str) (pos : Z) (skip : nat) : list (Z * Z) :=
  match text with
  | [] => []
  | _ :: text' =>
      match skip with
      | S skip' => literal_spans pattern text' (pos + 1) skip'
      | O =>
          if truthy pattern && Py.startswith text pattern
          then (pos, pos + Py.len pattern)
                 :: literal_spans pattern text' (pos + 1) (length pattern - 1)
          else literal_spans pattern text' (pos + 1) 0
      end
  end.

Definition literal_pattern (pattern : str) : re.Pattern :=
  {| re.groups := 0;
     re.groupindex := [];
     re.finditer := fun text =>
       map (fun p => re.mkMatch [p] []) (literal_spans pattern text 0 0) |}.

Definition example_host : Host :=
  {| faint := fun text => [ESC] ++ py "[2m" ++ text ++ [ESC] ++ py "[22m";
     styled := fun st text =>
       [ESC] ++ py "[1;" ++ fg st ++ py "m" ++ text ++ [ESC] ++ py "[m";
     gettext := fun msg => msg;
     re_compile := fun pattern => Ok (literal_pattern pattern);
     url_delimiters := py " ";
     window_cols := Ok 20;
     select_by_word_characters := Ok (py "@-./_~?&=%+#");
     custom_mark := fun _ => Ok None |}.

(** Options: [--type regex --regex <regex> --minimum-match-length 3],
    with or without [--multiple], and the given [--alphabet]. *)
Definition example_args (regex alphabet : str) (multiple : bool)
  : HintsCLIOptions.t :=
  {| HintsCLIOptions.program := [];
     HintsCLIOptions.type := py "regex";
     HintsCLIOptions.regex := regex;
     HintsCLIOptions.linenum_action := py "self";
     HintsCLIOptions.url_prefixes := py "file,ftp,http,https";
     HintsCLIOptions.word_characters := None;
     HintsCLIOptions.minimum_match_length := 3;
     HintsCLIOptions.multiple := multiple;
     HintsCLIOptions.multiple_joiner := py "auto";
     HintsCLIOptions.add_trailing_space := py "auto";
     HintsCLIOptions.hints_offset := 1;
     HintsCLIOptions.alphabet := alphabet;
     HintsCLIOptions.ascending := false;
     HintsCLIOptions.customize_processing := [] |}.

(** ** Notions used to state the properties of the handler *)

(** A handler whose hints can all be computed: the alphabet has two
    symbols or more and no mark has a negative index. *)
Definition well_formed (h : Hints.t) : Prop :=
  2 <= Py.len (Hints.alphabet h) /\
  Forall (fun m => 0 <= Mark.index m) (Hints.all_marks h) /\
  forall idx m, Hints.index_map h !! idx = Some m -> 0 <= idx.

(** The hint of index [idx] starts with [input]. *)
Definition hint_starts_with (alphabet input : str) (idx : Z) : bool :=
  match encode_hint idx alphabet with
  | Ok hint => Py.startswith hint input
  | _ => false
  end.

(** The marks [on_text] finds for [input]: every mark of [index_map]
    whose hint starts with [input]. *)
Definition matching (h : Hints.t) (input : str) : list Mark :=
  map snd
    (filter (fun p => hint_starts_with (Hints.alphabet h) input (fst p) = true)
            (map_to_list (Hints.index_map h))).

(** The live matches in the words of the specification: the marks whose
    hint starts with [input] and whose index is not in
    [ignore_mark_indices]. *)
Definition live_matches (h : Hints.t) (input : str) : list Mark :=
  map snd
    (filter (fun p => hint_starts_with (Hints.alphabet h) input (fst p) = true
                      /\ fst p ∉ Hints.ignore_mark_indices h)
            (map_to_list (Hints.index_map h))).

(** A handler for the examples: two marks, [foo] with index 2 and [bar]
    with index 1, in the text [foo x bar]. *)
Definition example_text : str := py "foo x bar".

Definition foo : Mark := Mark.mk 2 0 3 (py "foo") [].

Definition bar : Mark := Mark.mk 1 6 9 (py "bar") [].

Definition example_handler (alphabet : str) (multiple : bool) : Hints.t :=
  @Hints.init example_host example_text [foo; bar] (marks_index_map [foo; bar])
    (example_args (py "...") alphabet multiple).

(** The handler [h'] has just redrawn the screen: it rendered its
    present state, keeps the text as [current_text], and sent it. *)
Definition redrawn `{Host} (h' : Hints.t) (cmds : list command) : Prop :=
  exists shown,
    cmds = [clear_screen; write shown] /\
    Hints.current_text h' = Some shown /\
    render (Hints.text h') (Hints.current_input h') (Hints.all_marks h')
      (Hints.ignore_mark_indices h') (Hints.alphabet h') = Ok shown.

(** The mark Enter selects: the one [index_map] holds for the index
    [current_input] decodes to, when the input decodes and the index is a
    key of [index_map]. *)
Definition decoded_mark (h : Hints.t) : option (Z * Mark) :=
  match decode_hint (Hints.current_input h) (Hints.alphabet h) with
  | Ok idx =>
      match Hints.index_map h !! idx with
      | Some m => Some (idx, m)
      | None => None
      end
  | _ => None
  end.

(** The attributes of a handler that no method assigns after
    [__init__]. *)
Definition same_setup (h h' : Hints.t) : Prop :=
  Hints.text h' = Hints.text h /\
  Hints.index_map h' = Hints.index_map h /\
  Hints.alphabet h' = Hints.alphabet h /\
  Hints.all_marks h' = Hints.all_marks h /\
  Hints.args h' = Hints.args h /\
  Hints.multiple h' = Hints.multiple h /\
  Hints.match_suffix h' = Hints.match_suffix h.

(** Scenario D of the specification: three marks, multiple mode. *)
Definition scenario_D_text : str := py "foo bar baz".

Definition baz : Mark := Mark.mk 1 8 11 (py "baz") [].

Definition scenario_D_marks : list Mark :=
  [Mark.mk 3 0 3 (py "foo") []; Mark.mk 2 4 7 (py "bar") []; baz].

(** ** Notions used to state further properties of the codec *)

(** A label in the form [encode_hint] produces: not empty, written in the
    alphabet, and starting with the first symbol of the alphabet only when
    it is that symbol alone. *)
Definition canonical (alphabet label : str) : Prop :=
  Forall (fun c => c ∈ alphabet) label /\
  match alphabet, label with
  | a0 :: _, c :: rest => c = a0 -> rest = []
  | _, _ => False
  end.

(** ** Notions used to state further properties of the renderer *)

(** The marks lie one after the other in [text], from offset [pos] on:
    each starts at or after the end of the one before and none reaches
    beyond the text. *)
Fixpoint laid_out (text : str) (pos : Z) (marks : list Mark) : Prop :=
  match marks with
  | [] => pos <= Py.len text
  | m :: marks' =>
      pos <= Mark.start m /\ Mark.start m <= Mark.end_ m /\
      laid_out text (Mark.end_ m) marks'
  end.

(** The overlay written from left to right: the text between the marks as
    it is, each mark that is not ignored replaced by its highlight, each
    ignored mark left as it is. The highlights are computed from the last
    mark to the first, as [render] does. *)
Fixpoint overlay_from `{Host} (marks : list Mark) (text : str) (pos : Z)
  (current_input : str) (ignore_mark_indices : gset Z) (alphabet : str)
  : result str :=
  match marks with
  | [] => Ok (Py.slice_from text pos)
  | m :: marks' =>
      rest ← overlay_from marks' text (Mark.end_ m) current_input
               ignore_mark_indices alphabet;
      if bool_decide (Mark.index m ∈ ignore_mark_indices)
      then Ok (Py.slice text pos (Mark.end_ m) ++ rest)
      else
        mtext ← highlight_mark m (Py.slice text (Mark.start m) (Mark.end_ m))
                  current_input alphabet;
        Ok (Py.slice text pos (Mark.start m) ++ mtext ++ rest)
  end.

(** A host whose pattern engine rejects every pattern. *)
Definition rejecting_host : Host :=
  {| faint := @faint example_host;
     styled := @styled example_host;
     gettext := @gettext example_host;
     re_compile := fun _ => Raise re_error;
     url_delimiters := @url_delimiters example_host;
     window_cols := @window_cols example_host;
     select_by_word_characters := @select_by_word_characters example_host;
     custom_mark := @custom_mark example_host |}.

(** ** Handling the result *)

(** What [handle_result] asks of the boss: [w.paste(text)],
    [set_clipboard_string(text)] and
    [boss.open_url(url, program, cwd=cwd)], whose first argument is the
    match or, for a match with named groups, the list of its
    [name=value] strings. *)
Inductive action : Type :=
| window_paste (text : str)
| set_clipboard_string (text : str)
| open_url (url : str + list str) (program : option str) (cwd : option str).

(** What [handle_result] is run with: [int(s)] ([None] when it raises
    [ValueError]), [json.dumps(matches, ensure_ascii=False, indent='\t')],
    and [boss.window_id_map.get(target_window_id)], a window being
    represented by its [cwd_of_child]. *)
Class Boss : Type := {
  int : str -> option Z;
  json_dumps : list str -> str;
  window : option (option str)
}.

(** [joined_text()], with the variables of [handle_result] it reads. *)
Definition joined_text `{Boss} (is_int : option Z) (joiner text_type : str)
  (matches : list str) : result str :=
  match is_int with
  | Some is_int =>
      match Py.getitem matches is_int with
      | Raise IndexError => Py.getitem matches (-1)
      | r => r
      end
  | None =>
      if Py.eqs joiner (py "json") then Ok (json_dumps matches)
      else
        let q :=
          if Py.eqs joiner (py "auto") then
            if Py.eqs text_type (py "line") || Py.eqs text_type (py "url")
            then [LF; CR] else py " "
          else if Py.eqs joiner (py "newline") then [LF; CR]
          else if Py.eqs joiner (py "space") then py " "
          else [] in
        Ok (Py.join q matches)
  end.

(** The first argument of [boss.open_url] for the match [m]. *)
Definition open_url_target (m : str) (groupdict : list (str * option str))
  : str + list str :=
  match groupdict with
  | [] => inl m
  | _ =>
      inr (map (fun '(k, v) =>
                  k ++ py "=" ++ match v with Some v => v | None => [] end)
             groupdict)
  end.

(** The [for program in programs] loop of [handle_result]; [joined] is
    what [joined_text()] gives, and [selected] pairs [matches] with
    [groupdicts]. The actions done before an exception stay done. *)
Fixpoint programs_loop `{Boss} (joined : result str)
  (selected : list (str * list (str * option str))) (programs : list str)
  : result unit * list action :=
  match programs with
  | [] => (Ok tt, [])
  | program :: rest =>
      if Py.eqs program (py "-") then
        match window with
        | Some _ =>
            match joined with
            | Ok text =>
                let '(r, actions) := programs_loop joined selected rest in
                (r, window_paste text :: actions)
            | Raise ex => (Raise ex, [])
            | Diverge => (Diverge, [])
            end
        | None => programs_loop joined selected rest
        end
      else if Py.eqs program (py "@") then
        match joined with
        | Ok text =>
            let '(r, actions) := programs_loop joined selected rest in
            (r, set_clipboard_string text :: actions)
        | Raise ex => (Raise ex, [])
        | Diverge => (Diverge, [])
        end
      else
        let cwd := match window with Some w => w | None => None end in
        let program := if Py.eqs program (py "default") then None else Some program in
        let '(r, actions) := programs_loop joined selected rest in
        (r,
         map (fun '(m, groupdict) => open_url (open_url_target m groupdict) program cwd)
           selected
         ++ actions)
  end.

(** The matches [handle_result] keeps, with their groups: those that are
    not empty. *)
Definition selected_matches (data : selection)
  : list (str * list (str * option str)) :=
  filter (fun p => truthy (fst p) = true) (zip (sel_match data) (sel_groupdicts data)).

(** The part of [handle_result] that follows the custom processor's
    turn, from [programs = data['programs'] or ('default',)] to the end:
    all that [handle_result] does when [data['customize_processing']] is
    empty or the processor has no [handle_result]. *)
Definition handle_result_default `{Boss} (data : selection) : result unit * list action :=
  let programs :=
    match sel_programs data with
    | [] => [py "default"]
    | programs => programs
    end in
  let selected := selected_matches data in
  let matches := map fst selected in
  let joiner := sel_multiple_joiner data in
  let is_int := int joiner in
  let text_type := sel_type data in
  programs_loop (joined_text is_int joiner text_type matches) selected programs.

(** A boss with a window, whose [int] reads decimal digits only. *)
Definition example_boss : Boss :=
  {| int := fun s =>
       match s with
       | [] => None
       | _ =>
           foldl (fun acc c =>
                    let d := Z.of_nat (nat_of_ascii c) - 48 in
                    acc ← acc;
                    if (0 <=? d) && (d <=? 9) then Some (10 * acc + d) else None)
             (Some 0) s
       end;
     json_dumps := fun matches => py "[" ++ Py.join (py ", ") matches ++ py "]";
     window := Some (Some (py "/home")) |}.

Definition example_selection (joiner : str) (programs matches : list str)
  : selection :=
  {| sel_match := matches;
     sel_programs := programs;
     sel_multiple_joiner := joiner;
     sel_customize_processing := [];
     sel_type := py "regex";
     sel_groupdicts := map (fun _ => []) matches;
     sel_extra_cli_args := [];
     sel_linenum_action := py "self" |}.

(** ** Spans the post-processors turn around *)

(** Every character of [text[a:b]] is one of [.,?!]. *)
Definition punctuation (text : str) (a b : Z) : bool :=
  forallb (Py.contains (py ".,?!")) (Py.slice text a b).

(** The span [text[s:e]] is one quote character. *)
Definition lone_quote (text : str) (s e : Z) : bool :=
  (e =? s + 1) &&
  match text !! Z.to_nat s with
  | Some c => Py.contains [SQUOTE; DQUOTE] c
  | None => false
  end.

(** The span [text[s:e]] is one quote character between a bracket and
    its closing partner. *)
Definition bracketed_lone_quote (text : str) (s e : Z) : bool :=
  (e =? s + 3) && lone_quote text (s + 1) (s + 2) &&
  match text !! Z.to_nat s, text !! Z.to_nat (s + 2) with
  | Some before, Some last =>
      Py.contains (py "({[<") before &&
      match closing_bracket_map before with
      | Ok closing => Py.eqc last closing
      | _ => false
      end
  | _, _ => false
  end.

(** The spans whose end [url] moves to the left of their start: the
    punctuation before the end runs back past the start (the loop stops
    at [e > 1]), or a [`_] that ends at the start or one character after
    it is followed by punctuation only (it is cut when [e > 3]). *)
Definition url_overshoots (text : str) (s e : Z) : bool :=
  ((2 <=? s) && punctuation text (s - 1) e)
  || ((4 <=? s) && Py.eqs (Py.slice text (s - 2) s) (py "`_") && punctuation text s e)
  || ((3 <=? s) && Py.eqs (Py.slice text (s - 1) (s + 1)) (py "`_")
      && punctuation text (s + 1) e).

(** * Properties

    Everything below is about the definitions above. *)

Example encode_scenario_C :
  encode_hint 0 (py "ab") = Ok (py "a") /\
  encode_hint 1 (py "ab") = Ok (py "b") /\
  encode_hint 2 (py "ab") = Ok (py "ba").
Proof. vm_compute. auto. Qed.

Example decode_default : decode_hint (py "1z") DEFAULT_HINT_ALPHABET = Ok 71.
Proof. vm_compute. reflexivity. Qed.

(** ** Python values: basic facts *)

Lemma len_nonneg {A} (s : list A) : 0 <= Py.len s.
Proof. unfold Py.len. lia. Qed.

Lemma len_app {A} (s t : list A) : Py.len (s ++ t) = Py.len s + Py.len t.
Proof. unfold Py.len. rewrite length_app. lia. Qed.

Lemma len_cons {A} (a : A) (s : list A) : Py.len (a :: s) = 1 + Py.len s.
Proof. unfold Py.len. simpl. lia. Qed.

Lemma getitem_in_range {A} (s : list A) (i : Z) :
  0 <= i < Py.len s ->
  exists c, Py.getitem s i = Ok c /\ s !! Z.to_nat i = Some c.
Proof.
  intros Hi.
  assert (E1 : (i <? 0) = false) by lia.
  assert (E2 : (Py.len s <=? i) = false) by lia.
  unfold Py.getitem. rewrite E1. cbv zeta. rewrite E1, E2. simpl.
  destruct (s !! Z.to_nat i) as [c |] eqn:E3.
  - by exists c.
  - apply lookup_ge_None in E3. unfold Py.len in Hi. lia.
Qed.

Lemma getitem_not_diverge {A} (s : list A) (i : Z) : Py.getitem s i <> Diverge.
Proof.
  unfold Py.getitem.
  destruct ((_ <? 0) || _); [discriminate |].
  destruct (s !! _); discriminate.
Qed.

Lemma eqs_nil_cons (c : ascii) (s : str) : Py.eqs (c :: s) [] = false.
Proof. reflexivity. Qed.

(** ** Hint codec *)

Section Codec.

Variable alphabet : str.

Let d := Py.len alphabet.

Lemma foldl_insert_not_in (l : str) (i : Z) (m : gmap ascii Z) (c : ascii) :
  c ∉ l ->
  foldl (fun m '(i, c) => <[c := i]> m) m (enumerate_from i l) !! c = m !! c.
Proof.
  revert i m. induction l as [| x l IH]; intros i m Hc; [reflexivity |].
  simpl. rewrite IH by set_solver.
  apply lookup_insert_ne. set_solver.
Qed.

Lemma foldl_insert_lookup (l : str) (i : Z) (m : gmap ascii Z) (n : nat) (c : ascii) :
  NoDup l -> l !! n = Some c ->
  foldl (fun m '(i, c) => <[c := i]> m) m (enumerate_from i l) !! c
  = Some (i + Z.of_nat n).
Proof.
  revert i m n. induction l as [| x l IH]; intros i m n Hnd Hn; [done |].
  apply NoDup_cons in Hnd as [Hx Hnd]. simpl.
  destruct n as [| n]; simpl in Hn.
  - injection Hn as ->. rewrite foldl_insert_not_in by done.
    rewrite lookup_insert_eq. f_equal. lia.
  - rewrite (IH _ _ n) by done. f_equal. lia.
Qed.

(** With distinct characters the dictionary of [decode_hint] sends each
    character to its position. *)
Lemma alphabet_index_map_lookup (n : nat) (c : ascii) :
  NoDup alphabet -> alphabet !! n = Some c ->
  alphabet_index_map alphabet !! c = Some (Z.of_nat n).
Proof.
  intros Hnd Hn. unfold alphabet_index_map.
  rewrite (foldl_insert_lookup _ _ _ n) by done. f_equal.
Qed.

Lemma foldl_insert_dom (l : str) (i : Z) (m : gmap ascii Z) (c : ascii) :
  c ∈ l \/ is_Some (m !! c) ->
  is_Some (foldl (fun m '(i, c) => <[c := i]> m) m (enumerate_from i l) !! c).
Proof.
  revert i m. induction l as [| x l IH]; intros i m H; simpl.
  - destruct H as [H | H]; [set_solver | done].
  - apply IH. destruct (decide (c = x)) as [-> | Hne].
    + right. rewrite lookup_insert_eq. eauto.
    + destruct H as [Hin | Hm].
      * left. apply elem_of_cons in Hin as [? | ?]; [done | assumption].
      * right. by rewrite lookup_insert_ne.
Qed.

Lemma decode_loop_app (im : gmap ascii Z) (b : Z) (x y : str) (i : Z) :
  decode_loop im b (x ++ y) i = decode_loop im b x i ≫= decode_loop im b y.
Proof.
  revert i. induction x as [| c x IH]; intros i; simpl; [reflexivity |].
  destruct (im !! c); [apply IH | reflexivity].
Qed.

(** A run that finishes does so whatever extra fuel it is given. *)
Lemma encode_loop_mono (fuel fuel' : nat) (num : Z) (res r : str) :
  encode_loop fuel num d alphabet res = Ok r -> (fuel <= fuel')%nat ->
  encode_loop fuel' num d alphabet res = Ok r.
Proof.
  revert fuel' num res. induction fuel as [| fuel IH]; intros fuel' num res H Hle; [done |].
  destruct fuel' as [| fuel']; [lia |]. simpl in *.
  destruct (Py.eqs res [] || (num >? 0)); [| done].
  destruct (d =? 0); [done |].
  destruct (Py.getitem alphabet (num mod d)); simpl in *; try done.
  apply IH; [done | lia].
Qed.

Hypothesis alphabet_base : 2 <= d.

(** Once [res] is non-empty the loop runs while [num > 0]; it prepends
    the digits of [num], most significant first. *)
Lemma encode_loop_digits (fuel : nat) (num : Z) (res : str) :
  res <> [] -> 0 <= num -> (Z.to_nat num + 1 <= fuel)%nat ->
  exists pre,
    encode_loop fuel num d alphabet res = Ok (pre ++ res) /\
    (NoDup alphabet ->
     forall acc, decode_loop (alphabet_index_map alphabet) d pre acc
                 = Ok (acc * d ^ Py.len pre + num)).
Proof.
  revert num res. induction fuel as [| fuel IH]; intros num res Hres Hnum Hfuel; [lia |].
  simpl. destruct res as [| r res]; [done |]. rewrite eqs_nil_cons. simpl.
  destruct (num >? 0) eqn:Epos.
  - assert (0 < num) by lia.
    destruct (d =? 0) eqn:Ed; [lia |].
    assert (Hi : 0 <= num mod d < d) by (apply Z.mod_pos_bound; lia).
    destruct (getitem_in_range alphabet (num mod d) Hi) as (c & -> & Hc). simpl.
    assert (Hq : 0 <= num / d < num).
    { split; [apply Z.div_pos; lia | apply Z.div_lt; lia]. }
    destruct (IH (num / d) (c :: r :: res)) as (pre & Hloop & Hdec); [done | lia | lia |].
    exists (pre ++ [c]). split.
    + rewrite Hloop. by rewrite <- app_assoc.
    + intros Hnd acc. rewrite decode_loop_app, Hdec by done. simpl.
      rewrite (alphabet_index_map_lookup (Z.to_nat (num mod d)) c) by done.
      f_equal. rewrite len_app, Z.pow_add_r by (try apply len_nonneg; done).
      rewrite Z2Nat.id by lia. change (Py.len [c]) with 1. rewrite Z.pow_1_r.
      pose proof (Z.div_mod num d). lia.
  - exists []. split; [reflexivity |]. intros _ acc. simpl. f_equal.
    change (Py.len []) with 0. lia.
Qed.

(** From an empty [res] the body runs at least once. *)
Lemma encode_loop_decode (fuel : nat) (num : Z) :
  0 <= num -> (Z.to_nat num + 2 <= fuel)%nat ->
  exists label,
    encode_loop fuel num d alphabet [] = Ok label /\
    label <> [] /\
    (NoDup alphabet ->
     decode_loop (alphabet_index_map alphabet) d label 0 = Ok num).
Proof.
  intros Hnum Hfuel. destruct fuel as [| fuel]; [lia |]. simpl.
  destruct (d =? 0) eqn:Ed; [lia |].
  assert (Hi : 0 <= num mod d < d) by (apply Z.mod_pos_bound; lia).
  destruct (getitem_in_range alphabet (num mod d) Hi) as (c & -> & Hc). simpl.
  assert (Hq : 0 <= num / d) by (apply Z.div_pos; lia).
  assert (Hq' : num / d <= num - 1 \/ num = 0).
  { destruct (decide (num = 0)) as [| Hne]; [by right | left].
    assert (num / d < num) by (apply Z.div_lt; lia). lia. }
  destruct (encode_loop_digits fuel (num / d) [c]) as (pre & Hloop & Hdec).
  { done. } { done. }
  { destruct Hq' as [Hq' | ->]; [lia |]. rewrite Z.div_0_l by lia. lia. }
  exists (pre ++ [c]). split; [done |]. split; [by destruct pre |].
  intros Hnd. rewrite decode_loop_app, Hdec by done. simpl.
  rewrite (alphabet_index_map_lookup (Z.to_nat (num mod d)) c) by done.
  f_equal. rewrite Z2Nat.id by lia. pose proof (Z.div_mod num d). lia.
Qed.

(** More fuel than [encode_hint] supplies changes nothing. *)
Lemma encode_loop_fuel (fuel : nat) (num : Z) :
  0 <= num -> (Z.to_nat num + 2 <= fuel)%nat ->
  encode_loop fuel num d alphabet [] = encode_hint num alphabet.
Proof.
  intros Hnum Hfuel.
  destruct (encode_loop_decode (Z.to_nat num + 2) num) as (label & Hl & _); [done | lia |].
  unfold encode_hint. fold d. rewrite Hl.
  by apply (encode_loop_mono (Z.to_nat num + 2)).
Qed.

(** [encode_hint] returns a label, never the empty one. *)
Lemma encode_hint_total (num : Z) :
  0 <= num -> exists label, encode_hint num alphabet = Ok label /\ label <> [].
Proof.
  intros Hnum.
  destruct (encode_loop_decode (Z.to_nat num + 2) num) as (label & Hl & Hne & _);
    [done | lia |].
  by exists label.
Qed.

End Codec.

(** C5. For an alphabet of distinct characters with at least two symbols
    and every index [i >= 0], [encode_hint] returns a label, and
    [decode_hint] of that label returns [i]. *)
Theorem decode_encode_roundtrip (alphabet : str) (i : Z) :
  NoDup alphabet -> 2 <= Py.len alphabet -> 0 <= i ->
  exists label,
    encode_hint i alphabet = Ok label /\
    decode_hint label alphabet = Ok i.
Proof.
  intros Hnd Hb Hi.
  destruct (encode_loop_decode alphabet Hb (Z.to_nat i + 2) i)
    as (label & Henc & _ & Hdec); [done | lia |].
  exists label. split; [exact Henc | exact (Hdec Hnd)].
Qed.

Lemma decode_encode_roundtrip_witness :
  exists label,
    encode_hint 71 DEFAULT_HINT_ALPHABET = Ok label /\
    decode_hint label DEFAULT_HINT_ALPHABET = Ok 71.
Proof.
  apply (decode_encode_roundtrip DEFAULT_HINT_ALPHABET 71).
  - apply (bool_decide_unpack _). vm_compute. exact I.
  - vm_compute. discriminate.
  - lia.
Defined.

Lemma decode_loop_total (alphabet x : str) (i : Z) :
  Forall (fun c => c ∈ alphabet) x ->
  exists j, decode_loop (alphabet_index_map alphabet) (Py.len alphabet) x i = Ok j.
Proof.
  intros Hx. revert i. induction Hx as [| c x Hc _ IH]; intros i; simpl; [eauto |].
  destruct (foldl_insert_dom alphabet 0 ∅ c (or_introl Hc)) as [v Hv].
  unfold alphabet_index_map. rewrite Hv. apply IH.
Qed.

Lemma decode_hint_first_symbol (a0 : ascii) (rest x : str) :
  NoDup (a0 :: rest) ->
  decode_hint (a0 :: x) (a0 :: rest) = decode_hint x (a0 :: rest).
Proof.
  intros Hnd. unfold decode_hint. simpl.
  by rewrite (alphabet_index_map_lookup (a0 :: rest) 0 a0 Hnd eq_refl).
Qed.

Lemma encode_hint_zero (a0 : ascii) (rest : str) :
  encode_hint 0 (a0 :: rest) = Ok [a0].
Proof.
  unfold encode_hint. simpl.
  destruct (Py.len (a0 :: rest) =? 0) eqn:E.
  - rewrite len_cons in E. pose proof (len_nonneg rest). lia.
  - reflexivity.
Qed.

Lemma decode_hint_leading (a0 : ascii) (rest : str) (n : nat) (x : str) :
  NoDup (a0 :: rest) ->
  decode_hint (replicate n a0 ++ x) (a0 :: rest) = decode_hint x (a0 :: rest).
Proof.
  intros Hnd. induction n as [| n IH]; [reflexivity |]. simpl.
  by rewrite decode_hint_first_symbol.
Qed.

Lemma replicate_app_inj {A} (a : A) (n m : nat) (l : list A) :
  replicate n a ++ l = replicate m a ++ l -> n = m.
Proof.
  intros H. apply (f_equal length) in H.
  rewrite !length_app, !length_replicate in H. lia.
Qed.

(** C10. Over an alphabet [a0 :: rest] of distinct characters, two or
    more, [decode_hint] sends the empty label to 0, returns an index for
    every label written in the alphabet, and ignores a leading [a0].
    Hence every index [i >= 0] has infinitely many spellings: the label
    [encode_hint] gives it, behind any number of [a0], and no two of
    these are the same; and encoding what such a spelling decodes to
    gives the label back, not the spelling. *)
Theorem decode_hint_not_injective (a0 : ascii) (rest : str) :
  NoDup (a0 :: rest) -> 2 <= Py.len (a0 :: rest) ->
  decode_hint [] (a0 :: rest) = Ok 0 /\
  (forall x, Forall (fun c => c ∈ a0 :: rest) x ->
             exists i, decode_hint x (a0 :: rest) = Ok i) /\
  (forall x, decode_hint (a0 :: x) (a0 :: rest) = decode_hint x (a0 :: rest)) /\
  (forall n x, decode_hint (replicate n a0 ++ x) (a0 :: rest)
               = decode_hint x (a0 :: rest)) /\
  (forall i, 0 <= i ->
     exists label,
       encode_hint i (a0 :: rest) = Ok label /\
       (forall n, decode_hint (replicate n a0 ++ label) (a0 :: rest) = Ok i) /\
       (forall n m, replicate n a0 ++ label = replicate m a0 ++ label -> n = m) /\
       (forall n, (0 < n)%nat -> replicate n a0 ++ label <> label)) /\
  (exists x, decode_hint x (a0 :: rest) = Ok 0 /\
             encode_hint 0 (a0 :: rest) = Ok [a0] /\ x <> [a0]).
Proof.
  intros Hnd Hb. split; [reflexivity |]. split; [| split; [| split; [| split]]].
  - intros x Hx. by apply decode_loop_total.
  - intros x. by apply decode_hint_first_symbol.
  - intros n x. by apply decode_hint_leading.
  - intros i Hi.
    destruct (encode_loop_decode (a0 :: rest) Hb (Z.to_nat i + 2) i)
      as (label & Henc & _ & Hdec); [done | lia |].
    exists label. split; [exact Henc |]. split; [| split].
    + intros n. rewrite decode_hint_leading by done. exact (Hdec Hnd).
    + intros n m. apply replicate_app_inj.
    + intros n Hn Heq. apply (replicate_app_inj a0 n 0 label) in Heq. lia.
  - exists [a0; a0]. split; [| split].
    + by rewrite !decode_hint_first_symbol.
    + apply encode_hint_zero.
    + discriminate.
Qed.

Lemma decode_hint_not_injective_witness :
  NoDup DEFAULT_HINT_ALPHABET /\ 2 <= Py.len DEFAULT_HINT_ALPHABET /\
  decode_hint (py "001z") DEFAULT_HINT_ALPHABET
  = decode_hint (py "1z") DEFAULT_HINT_ALPHABET /\
  exists label,
    encode_hint 71 DEFAULT_HINT_ALPHABET = Ok label /\
    (forall n, decode_hint (replicate n "0"%char ++ label) DEFAULT_HINT_ALPHABET = Ok 71).
Proof.
  assert (Hnd : NoDup DEFAULT_HINT_ALPHABET)
    by (apply (bool_decide_unpack _); vm_compute; exact I).
  assert (Hb : 2 <= Py.len DEFAULT_HINT_ALPHABET) by (vm_compute; discriminate).
  split; [exact Hnd |]. split; [exact Hb |].
  destruct (decode_hint_not_injective
              "0"%char (py "123456789abcdefghijklmnopqrstuvwxyz") Hnd Hb)
    as (_ & _ & _ & H & Hall & _).
  split; [exact (H 2%nat (py "1z")) |].
  destruct (Hall 71 ltac:(lia)) as (label & Henc & Hdec & _).
  exists label. split; [exact Henc | exact Hdec].
Defined.

(** ** Running the example host *)

Example run_example :
  fst (@run example_host (example_args (py "abc") [] false)
         (py "abc x abc") [] [] [text_event (py "1") false])
  = Ok (Some {| sel_match := [py "abc"];
                sel_programs := [];
                sel_multiple_joiner := py "auto";
                sel_customize_processing := [];
                sel_type := py "regex";
                sel_groupdicts := [[]];
                sel_extra_cli_args := [];
                sel_linenum_action := py "self" |}).
Proof. vm_compute. reflexivity. Qed.

(** ** Match extractor *)

(** What the trimming loop of [regex_finditer] does to the end [e] of a
    span that starts at [s]: it stops at the first trailing character that
    is not filler, or when one character is left, whichever comes first. *)
Lemma trim_filler_spec (text : str) (s : Z) (fuel : nat) (e : Z) :
  -1 <= s -> e <= Py.len text -> (Z.to_nat (e - s) + 1 <= fuel)%nat ->
  exists e',
    trim_filler fuel text s e = Ok e' /\
    e' <= e /\
    (s + 1 <= e -> s + 1 <= e') /\
    (e <= s + 1 -> e' = e) /\
    (forall i, e' <= i < e -> Py.getitem text i = Ok NUL) /\
    (s + 1 < e' -> exists c, Py.getitem text (e' - 1) = Ok c /\ c <> NUL).
Proof.
  intros Hs. revert e. induction fuel as [| fuel IH]; intros e He Hfuel; [lia |].
  simpl. destruct (e >? s + 1) eqn:Egt.
  - assert (Hi : 0 <= e - 1 < Py.len text) by lia.
    destruct (getitem_in_range text (e - 1) Hi) as (c & Hc & _). rewrite Hc. simpl.
    unfold Py.eqc. case_bool_decide as Hnul.
    + subst c. destruct (IH (e - 1)) as (e' & Ht & Hle & Hfl & Hsame & Hfill & Hstop);
        [lia | lia |].
      exists e'. split; [exact Ht |]. repeat split; try lia.
      * intros i Hi'. destruct (decide (i = e - 1)) as [-> | Hne]; [exact Hc |].
        apply Hfill. lia.
      * exact Hstop.
    + exists e. split; [reflexivity |]. repeat split; try lia.
      intros _. by exists c.
  - exists e. split; [reflexivity |]. repeat split; lia.
Qed.

(** The fuel [regex_finditer] gives the trimming loop always suffices:
    the loop ends, with a value or with an exception. *)
Lemma trim_filler_fuel (text : str) (s : Z) (fuel : nat) (e : Z) :
  (Z.to_nat (e - s) + 1 <= fuel)%nat -> trim_filler fuel text s e <> Diverge.
Proof.
  revert e. induction fuel as [| fuel IH]; intros e Hfuel; [lia |].
  simpl. destruct (e >? s + 1) eqn:Egt; [| discriminate].
  pose proof (getitem_not_diverge text (e - 1)) as Hnd.
  destruct (Py.getitem text (e - 1)) as [c | ex |]; cbn [mbind result_bind];
    [| discriminate | done].
  destruct (Py.eqc c NUL); [apply IH; lia | discriminate].
Qed.

Lemma regex_finditer_step_spec (pat : re.Pattern) (minimum_match_length : Z)
  (text : str) (m : re.Match) (s e : Z) :
  re.span m (span_group pat) = Ok (s, e) -> -1 <= s /\ s <= e <= Py.len text ->
  exists e',
    trimmed_end text s e e' /\
    regex_finditer_step (bool_decide (re.groupindex pat <> [])) (re.groups pat)
      minimum_match_length text m
    = Ok (if e' - s >=? minimum_match_length
          then Some (s, e', re.groupdict m) else None).
Proof.
  intros Hspan Hrange. unfold regex_finditer_step. unfold span_group in Hspan.
  rewrite Hspan. simpl.
  destruct (trim_filler_spec text s (Z.to_nat (e - s) + 1) e) as (e' & Ht & Htrim);
    [lia | lia | lia |].
  exists e'. split; [exact Htrim |]. by rewrite Ht.
Qed.

Lemma regex_finditer_loop_yielded (pat : re.Pattern) (minimum_match_length : Z)
  (text : str) (ms : list re.Match) :
  Forall (fun m => exists s e, re.span m (span_group pat) = Ok (s, e)
                               /\ -1 <= s /\ s <= e <= Py.len text) ms ->
  regex_finditer_loop (bool_decide (re.groupindex pat <> [])) (re.groups pat)
    minimum_match_length text ms
  = Ok (omap (yielded pat minimum_match_length text) ms).
Proof.
  induction 1 as [| m ms (s & e & Hspan & Hrange) _ IH]; [reflexivity |].
  simpl. rewrite IH. unfold yielded.
  destruct (regex_finditer_step_spec pat minimum_match_length text m s e Hspan Hrange)
    as (e' & _ & ->).
  simpl. by destruct (e' - s >=? minimum_match_length).
Qed.

(** C9. When the engine's spans lie in the text, [regex_finditer]
    returns, and every span [(s, e)] it yields has [s <= e <= len(text)]
    and [e - s >= minimum_match_length]; it comes from a match whose end
    was at or after [e], and an end that was at or after [s + 1] is still
    so: trimming neither inverts a span nor empties one. *)
Theorem regex_finditer_spans (pat : re.Pattern) (minimum_match_length : Z)
  (text : str) :
  spans_in_text pat text ->
  exists ys,
    regex_finditer pat minimum_match_length text = Ok ys /\
    forall s e gd, (s, e, gd) ∈ ys ->
      s <= e <= Py.len text /\
      minimum_match_length <= e - s /\
      exists m e0,
        m ∈ re.finditer pat text /\
        re.span m (span_group pat) = Ok (s, e0) /\
        e <= e0 /\ (s + 1 <= e0 -> s + 1 <= e).
Proof.
  intros Hin. exists (omap (yielded pat minimum_match_length text) (re.finditer pat text)).
  split.
  - unfold regex_finditer. apply regex_finditer_loop_yielded.
    apply Forall_forall. exact Hin.
  - intros s e gd Hy. apply list_elem_of_omap in Hy as (m & Hm & Hy).
    destruct (Hin m Hm) as (s0 & e0 & Hspan & Hrange).
    destruct (regex_finditer_step_spec pat minimum_match_length text m s0 e0 Hspan Hrange)
      as (e' & (Hle & Hfloor & Hsame & _) & Hstep).
    unfold yielded in Hy. rewrite Hstep in Hy.
    destruct (e' - s0 >=? minimum_match_length) eqn:Emin; [| done].
    injection Hy as -> -> _.
    split; [| split; [lia |]].
    + destruct (decide (s + 1 <= e0)); lia.
    + exists m, e0. repeat split; [done | done | lia | exact Hfloor].
Qed.

Lemma regex_finditer_spans_witness :
  spans_in_text (literal_pattern (py "abc")) (py "abc x abc") /\
  exists ys,
    regex_finditer (literal_pattern (py "abc")) 3 (py "abc x abc") = Ok ys /\
    forall s e gd, (s, e, gd) ∈ ys ->
      s <= e <= Py.len (py "abc x abc") /\
      3 <= e - s /\
      exists m e0,
        m ∈ re.finditer (literal_pattern (py "abc")) (py "abc x abc") /\
        re.span m (span_group (literal_pattern (py "abc"))) = Ok (s, e0) /\
        e <= e0 /\ (s + 1 <= e0 -> s + 1 <= e).
Proof.
  assert (H : spans_in_text (literal_pattern (py "abc")) (py "abc x abc")).
  { intros m Hm. vm_compute in Hm.
    apply elem_of_cons in Hm as [-> | Hm]; [exists 0, 3; vm_compute; intuition discriminate |].
    apply elem_of_cons in Hm as [-> | Hm]; [exists 6, 9; vm_compute; intuition discriminate |].
    by apply elem_of_nil in Hm. }
  split; [exact H |].
  exact (regex_finditer_spans (literal_pattern (py "abc")) 3 (py "abc x abc") H).
Defined.

(** C4, as the code has it. When the engine's spans lie in the text,
    [regex_finditer] yields, in scan order, what each match contributes;
    the end of a match is moved back over trailing filler while more than
    one character is left, whatever the minimum length, and the match is
    yielded exactly when the span that remains has the minimum length. *)
Theorem regex_finditer_trims (pat : re.Pattern) (minimum_match_length : Z)
  (text : str) :
  spans_in_text pat text ->
  regex_finditer pat minimum_match_length text
  = Ok (omap (yielded pat minimum_match_length text) (re.finditer pat text)) /\
  forall m, m ∈ re.finditer pat text ->
    exists s e e',
      re.span m (span_group pat) = Ok (s, e) /\
      trimmed_end text s e e' /\
      yielded pat minimum_match_length text m
      = if minimum_match_length <=? e' - s
        then Some (s, e', re.groupdict m) else None.
Proof.
  intros Hin. split.
  - unfold regex_finditer. apply regex_finditer_loop_yielded.
    apply Forall_forall. exact Hin.
  - intros m Hm. destruct (Hin m Hm) as (s & e & Hspan & Hrange).
    destruct (regex_finditer_step_spec pat minimum_match_length text m s e Hspan Hrange)
      as (e' & Htrim & Hstep).
    exists s, e, e'. split; [exact Hspan |]. split; [exact Htrim |].
    unfold yielded. rewrite Hstep.
    rewrite Z.geb_leb. reflexivity.
Qed.

Lemma padded_spans_in_text :
  spans_in_text (literal_pattern (py "ab" ++ [NUL; NUL])) (py "ab" ++ [NUL; NUL]).
Proof.
  intros m Hm. vm_compute in Hm.
  apply elem_of_cons in Hm as [-> | Hm]; [| by apply elem_of_nil in Hm].
  exists 0, 4. vm_compute. intuition discriminate.
Qed.

Lemma regex_finditer_trims_witness :
  spans_in_text (literal_pattern (py "ab" ++ [NUL; NUL])) (py "ab" ++ [NUL; NUL]) /\
  regex_finditer (literal_pattern (py "ab" ++ [NUL; NUL])) 2 (py "ab" ++ [NUL; NUL])
  = Ok [(0, 2, [])].
Proof.
  split; [exact padded_spans_in_text |].
  destruct (regex_finditer_trims (literal_pattern (py "ab" ++ [NUL; NUL])) 2
              (py "ab" ++ [NUL; NUL]) padded_spans_in_text) as [-> _].
  vm_compute. reflexivity.
Defined.

(** A match of four characters, two of them trailing filler, is dropped
    under a minimum length of three: the filler is trimmed first. *)
Lemma regex_finditer_filler_counterexample :
  re.finditer (literal_pattern (py "ab" ++ [NUL; NUL])) (py "ab" ++ [NUL; NUL])
  = [re.mkMatch [(0, 4)] []] /\
  3 <= 4 - 0 /\
  regex_finditer (literal_pattern (py "ab" ++ [NUL; NUL])) 3 (py "ab" ++ [NUL; NUL])
  = Ok [].
Proof. vm_compute. intuition discriminate. Qed.

(** ** Overlay renderer *)

Lemma slice_from_drop {A} (s : list A) (n : Z) :
  0 <= n -> Py.slice_from s n = drop (Z.to_nat n) s.
Proof.
  intros Hn. unfold Py.slice_from, Py.clamp.
  destruct (n <? 0) eqn:E; [lia |].
  destruct (decide (n <= Py.len s)) as [Hle | Hgt].
  - f_equal. lia.
  - rewrite !drop_ge; [done | |]; unfold Py.len in *; lia.
Qed.

Lemma startswith_app (s p : str) :
  Py.startswith s p = true -> s = p ++ drop (length p) s.
Proof.
  revert s. induction p as [| a p IH]; intros s H; [reflexivity |].
  destruct s as [| b s]; [discriminate |]. simpl in H.
  apply andb_prop in H as [Hab Hp]. unfold Py.eqc in Hab.
  apply bool_decide_eq_true in Hab as ->. simpl. f_equal. by apply IH.
Qed.

Lemma len_drop {A} (s : list A) (n : Z) :
  0 <= n -> Py.len (drop (Z.to_nat n) s) = Z.max 0 (Py.len s - n).
Proof. intros Hn. unfold Py.len. rewrite length_drop. lia. Qed.

(** C6, as the code has it. When the hint of a mark starts with the
    current input, [highlight_mark] shows a badge, which is the part of
    the hint not typed yet, or one space when the whole hint has been
    typed, followed by the match text without its first [len(badge)]
    characters. Badge and text together take [max(len(badge), len(text))]
    characters: no more than the match text exactly when the badge is no
    longer than it. *)
Theorem highlight_parts_width (m : Mark) (text current_input alphabet hint : str) :
  encode_hint (Mark.index m) alphabet = Ok hint ->
  Py.startswith hint current_input = true ->
  exists badge rest dropped,
    highlight_parts m text current_input alphabet = Ok (Hinted badge rest) /\
    badge = or_ (drop (length current_input) hint) (py " ") /\
    hint = current_input ++ drop (length current_input) hint /\
    text = dropped ++ rest /\
    Py.len dropped = Z.min (Py.len badge) (Py.len text) /\
    overlay_width (Hinted badge rest) = Z.max (Py.len badge) (Py.len text) /\
    (overlay_width (Hinted badge rest) <= Py.len text <-> Py.len badge <= Py.len text).
Proof.
  intros Henc Hpre.
  set (badge := or_ (drop (length current_input) hint) (py " ")).
  exists badge, (drop (Z.to_nat (Py.len badge)) text),
         (take (Z.to_nat (Py.len badge)) text).
  assert (Hrest : Py.len (drop (Z.to_nat (Py.len badge)) text)
                  = Z.max 0 (Py.len text - Py.len badge))
    by (apply len_drop, len_nonneg).
  pose proof (len_nonneg badge) as Hb. pose proof (len_nonneg text) as Ht.
  split; [| split; [reflexivity | split; [by apply startswith_app | split; [| split; [| split]]]]].
  - assert (Hs : Py.slice_from hint (Py.len current_input)
                 = drop (length current_input) hint).
    { rewrite slice_from_drop by apply len_nonneg. unfold Py.len.
      by rewrite Nat2Z.id. }
    unfold highlight_parts. rewrite Henc. simpl. rewrite Hpre, andb_false_r, Hs.
    fold badge. by rewrite (slice_from_drop text) by apply len_nonneg.
  - by rewrite take_drop.
  - unfold Py.len. rewrite length_take. unfold Py.len in *. lia.
  - simpl. lia.
  - simpl. lia.
Qed.

Lemma highlight_parts_width_witness :
  encode_hint 71 DEFAULT_HINT_ALPHABET = Ok (py "1z") /\
  Py.startswith (py "1z") (py "1") = true /\
  exists badge rest,
    highlight_parts (Mark.mk 71 0 7 (py "foo.txt") []) (py "foo.txt") (py "1")
      DEFAULT_HINT_ALPHABET
    = Ok (Hinted badge rest) /\
    overlay_width (Hinted badge rest) = Z.max (Py.len badge) 7.
Proof.
  assert (H1 : encode_hint 71 DEFAULT_HINT_ALPHABET = Ok (py "1z"))
    by (vm_compute; reflexivity).
  assert (H2 : Py.startswith (py "1z") (py "1") = true) by (vm_compute; reflexivity).
  split; [exact H1 |]. split; [exact H2 |].
  destruct (highlight_parts_width (Mark.mk 71 0 7 (py "foo.txt") []) (py "foo.txt")
              (py "1") DEFAULT_HINT_ALPHABET (py "1z") H1 H2)
    as (badge & rest & dropped & Hp & _ & _ & _ & _ & Hw & _).
  exists badge, rest. split; [exact Hp | exact Hw].
Defined.

(** A hint longer than the match text spills over: mark 16 under the
    alphabet [ab] has the five-character hint [baaaa], the match text
    [/tmp] has four characters. *)
Lemma highlight_parts_width_counterexample :
  encode_hint 16 (py "ab") = Ok (py "baaaa") /\
  Py.startswith (py "baaaa") [] = true /\
  highlight_parts (Mark.mk 16 0 4 (py "/tmp") []) (py "/tmp") [] (py "ab")
  = Ok (Hinted (py "baaaa") []) /\
  ~ overlay_width (Hinted (py "baaaa") []) <= Py.len (py "/tmp").
Proof. vm_compute. intuition discriminate. Qed.

(** ** Post-processors *)

Lemma clamp_in_range (n i : Z) : 0 <= i <= n -> Py.clamp n i = i.
Proof. intros H. unfold Py.clamp. destruct (i <? 0) eqn:E; lia. Qed.

Lemma slice_take_drop {A} (s : list A) (a b : Z) :
  0 <= a <= b -> b <= Py.len s ->
  Py.slice s a b = take (Z.to_nat (b - a)) (drop (Z.to_nat a) s).
Proof.
  intros Ha Hb. unfold Py.slice. by rewrite !clamp_in_range by lia.
Qed.

Lemma len_slice {A} (s : list A) (a b : Z) :
  0 <= a <= b -> b <= Py.len s -> Py.len (Py.slice s a b) = b - a.
Proof.
  intros Ha Hb. rewrite slice_take_drop by done.
  unfold Py.len in *. rewrite length_take, length_drop. lia.
Qed.

Lemma slice_lookup {A} (s : list A) (a b : Z) (i : nat) (x : A) :
  0 <= a <= b -> b <= Py.len s ->
  Py.slice s a b !! i = Some x -> s !! (Z.to_nat a + i)%nat = Some x.
Proof.
  intros Ha Hb. rewrite slice_take_drop by done. intros H.
  apply lookup_take_Some in H as [H _]. by rewrite lookup_drop in H.
Qed.

Lemma getitem_lookup {A} (s : list A) (i : Z) (c : A) :
  0 <= i < Py.len s -> Py.getitem s i = Ok c -> s !! Z.to_nat i = Some c.
Proof.
  intros Hi H. destruct (getitem_in_range s i Hi) as (c' & H' & Hl). congruence.
Qed.

Lemma rfind_from_range (c : ascii) (l : str) (i best : Z) :
  best < i ->
  (Py.rfind_from c l i best = best \/
   i <= Py.rfind_from c l i best < i + Py.len l) /\
  (Py.rfind_from c l i best = i -> l !! 0%nat = Some c).
Proof.
  revert i best. induction l as [| a l IH]; intros i best Hb; simpl.
  - split; [by left | lia].
  - rewrite len_cons. pose proof (len_nonneg l). unfold Py.eqc.
    case_bool_decide as Hac.
    + subst a. split; [| done].
      destruct (IH (i + 1) i) as [[Hr | Hr] _]; [lia | right; lia | right; lia].
    + destruct (IH (i + 1) best) as [[Hr | Hr] _]; [lia | |].
      * split; [by left | lia].
      * split; [right; lia | lia].
Qed.

Lemma find_from_range (c : ascii) (l : str) (i : Z) :
  Py.find_from c l i = -1 \/ i <= Py.find_from c l i < i + Py.len l.
Proof.
  revert i. induction l as [| a l IH]; intros i; simpl; [by left |].
  rewrite len_cons. pose proof (len_nonneg l).
  destruct (Py.eqc a c); [right; lia |].
  destruct (IH (i + 1)) as [-> | Hr]; [by left | right; lia].
Qed.

Lemma find_range (s : str) (c : ascii) (start : Z) :
  0 <= start <= Py.len s ->
  Py.find s c start = -1 \/ start <= Py.find s c start < Py.len s.
Proof.
  intros Hs. unfold Py.find. rewrite clamp_in_range by done.
  destruct (find_from_range c (drop (Z.to_nat start) s) start) as [-> | Hr];
    [by left | right].
  rewrite len_drop in Hr by lia. lia.
Qed.


(** The fuel [url] gives its punctuation loop always suffices. *)
Lemma url_strip_punctuation_fuel (text : str) (fuel : nat) (e : Z) :
  (Z.to_nat e + 1 <= fuel)%nat -> url_strip_punctuation fuel text e <> Diverge.
Proof.
  revert e. induction fuel as [| fuel IH]; intros e Hfuel; [lia |].
  simpl. pose proof (getitem_not_diverge text (e - 1)) as Hnd.
  destruct (Py.getitem text (e - 1)) as [c | ex |];
    cbn [mbind result_bind]; [| discriminate | done].
  destruct (_ && (e >? 1)) eqn:Econd; [| discriminate].
  apply andb_prop in Econd as [_ Hgt]. apply IH. lia.
Qed.

Lemma closing_bracket_map_opening (c : ascii) :
  Py.contains opening_brackets c = true -> exists q, closing_bracket_map c = Ok q.
Proof.
  unfold Py.contains. intros H. apply bool_decide_eq_true in H.
  unfold opening_brackets in H. simpl in H.
  repeat (apply elem_of_cons in H as [-> | H]; [vm_compute; eauto |]).
  by apply elem_of_nil in H.
Qed.

Lemma closing_bracket_differs (c : ascii) :
  Py.contains (py "({[<") c = true ->
  exists q, closing_bracket_map c = Ok q /\ q <> c.
Proof.
  unfold Py.contains. intros H. apply bool_decide_eq_true in H. simpl in H.
  repeat (apply elem_of_cons in H as [-> | H];
          [eexists; split; [vm_compute; reflexivity | discriminate] |]).
  by apply elem_of_nil in H.
Qed.

Lemma contains_cons_false (a c : ascii) (l : str) :
  Py.contains (a :: l) c = false -> c <> a /\ Py.contains l c = false.
Proof.
  unfold Py.contains. intros H. apply bool_decide_eq_false in H.
  apply not_elem_of_cons in H as [Hne Hl]. split; [done |].
  by apply bool_decide_eq_false.
Qed.

(** [brackets] leaves the span alone or takes one character off each
    end, the latter only from a span of two characters or more. *)
Lemma brackets_cases (text : str) (s e : Z) :
  0 <= s -> s < e -> e <= Py.len text ->
  brackets text s e = Ok (s, e) \/
  (brackets text s e = Ok (s + 1, e - 1) /\ s + 2 <= e).
Proof.
  intros Hs Hse He. unfold brackets.
  replace (s <? e) with true by lia. replace (e <=? Py.len text) with true by lia.
  destruct (getitem_in_range text s) as (c & Hc & _); [lia |].
  destruct (getitem_in_range text (e - 1)) as (l & Hl & _); [lia |].
  rewrite Hc. cbn [andb mbind result_bind].
  destruct (Py.contains (py "({[<") c) eqn:Hopen; [| by left].
  destruct (closing_bracket_differs c Hopen) as (q & Hq & Hqc).
  rewrite Hl, Hq. cbn [mbind result_bind]. unfold Py.eqc.
  case_bool_decide as Hlq; [right | by left].
  split; [reflexivity |].
  assert (s <> e - 1) by (intros ->; congruence). lia.
Qed.

Lemma brackets_span (text : str) (s e : Z) :
  0 <= s -> s < e -> e <= Py.len text ->
  exists s' e', brackets text s e = Ok (s', e') /\ s <= s' /\ s' <= e' /\ e' <= e.
Proof.
  intros Hs Hse He.
  destruct (brackets_cases text s e Hs Hse He) as [H | [H Hlen]].
  - exists s, e. split; [exact H | lia].
  - exists (s + 1), (e - 1). split; [exact H | lia].
Qed.

Lemma punctuation_lookup (text : str) (a b : Z) :
  0 <= a -> a <= b -> b <= Py.len text ->
  punctuation text a b = true ->
  forall j, a <= j < b ->
    exists c, text !! Z.to_nat j = Some c /\ Py.contains (py ".,?!") c = true.
Proof.
  intros Ha Hab Hb Hp j Hj. unfold punctuation in Hp.
  rewrite slice_take_drop in Hp by lia.
  destruct (text !! Z.to_nat j) as [c |] eqn:Hc.
  2:{ apply lookup_ge_None in Hc. unfold Py.len in Hb. lia. }
  exists c. split; [reflexivity |].
  apply (proj1 (forallb_forall _ _) Hp). apply list_elem_of_In.
  apply (list_elem_of_lookup_2 _ (Z.to_nat (j - a))).
  rewrite lookup_take_lt by lia. rewrite lookup_drop. rewrite <- Hc. f_equal. lia.
Qed.

Lemma punctuation_intro (text : str) (a b : Z) :
  0 <= a -> a <= b -> b <= Py.len text ->
  (forall j, a <= j < b ->
     exists c, text !! Z.to_nat j = Some c /\ Py.contains (py ".,?!") c = true) ->
  punctuation text a b = true.
Proof.
  intros Ha Hab Hb Hall. unfold punctuation.
  rewrite slice_take_drop by lia. apply forallb_forall. intros c Hc.
  apply list_elem_of_In, list_elem_of_lookup in Hc as [i Hi].
  apply lookup_take_Some in Hi as [Hi Hlt]. rewrite lookup_drop in Hi.
  destruct (Hall (a + Z.of_nat i)) as (c' & Hc' & Hp); [lia |].
  replace (Z.to_nat (a + Z.of_nat i)) with (Z.to_nat a + i)%nat in Hc' by lia.
  congruence.
Qed.

(** The two characters of a slice that reads [`_]. *)
Lemma slice_backquote_underscore (text : str) (a b : Z) :
  0 <= a -> b = a + 2 -> b <= Py.len text ->
  Py.eqs (Py.slice text a b) (py "`_") = true <->
  text !! Z.to_nat a = Some "`"%char /\ text !! Z.to_nat (b - 1) = Some "_"%char.
Proof.
  intros Ha -> Hb. replace (a + 2 - 1) with (a + 1) by lia. split.
  - intros Heq. apply bool_decide_eq_true in Heq. split.
    + replace (Z.to_nat a) with (Z.to_nat a + 0)%nat by lia.
      apply (slice_lookup text a (a + 2)); [lia | lia | by rewrite Heq].
    + replace (Z.to_nat (a + 1)) with (Z.to_nat a + 1)%nat by lia.
      apply (slice_lookup text a (a + 2)); [lia | lia | by rewrite Heq].
  - intros [H0 H1]. apply bool_decide_eq_true. apply list_eq. intros i.
    rewrite slice_take_drop by lia. replace (Z.to_nat (a + 2 - a)) with 2%nat by lia.
    destruct i as [| [| i]].
    + rewrite lookup_take_lt by lia. rewrite lookup_drop, Nat.add_0_r. exact H0.
    + rewrite lookup_take_lt by lia. rewrite lookup_drop.
      replace (Z.to_nat a + 1)%nat with (Z.to_nat (a + 1)) by lia. exact H1.
    + rewrite lookup_take_ge by lia. reflexivity.
Qed.

(** The punctuation loop of [url], with any fuel that suffices: it cuts
    punctuation only and stops at 1 or after a character that is not
    punctuation. *)
Lemma url_strip_punctuation_exact (text : str) (fuel : nat) (e : Z) :
  1 <= e <= Py.len text -> (Z.to_nat e <= fuel)%nat ->
  exists p,
    url_strip_punctuation fuel text e = Ok p /\ 1 <= p <= e /\
    (forall j, p <= j < e ->
       exists c, text !! Z.to_nat j = Some c /\ Py.contains (py ".,?!") c = true) /\
    (p = 1 \/
     exists c, text !! Z.to_nat (p - 1) = Some c /\ Py.contains (py ".,?!") c = false).
Proof.
  revert e. induction fuel as [| fuel IH]; intros e He Hfuel; [lia |]. simpl.
  destruct (getitem_in_range text (e - 1)) as (c0 & Hc0 & Hl0); [lia |].
  rewrite Hc0. cbn [mbind result_bind].
  destruct (Py.contains _ c0) eqn:Hp; cbn [andb].
  - destruct (e >? 1) eqn:Egt.
    + destruct (IH (e - 1)) as (p & Hrun & Hr & Hcut & Hstop); [lia | lia |].
      exists p. split; [exact Hrun |]. split; [lia |]. split; [| exact Hstop].
      intros j Hj. destruct (decide (j = e - 1)) as [-> | Hne].
      * by exists c0.
      * apply Hcut. lia.
    + exists e. split; [reflexivity |]. split; [lia |].
      split; [intros j Hj; lia | left; lia].
  - exists e. split; [reflexivity |]. split; [lia |].
    split; [intros j Hj; lia |]. right. by exists c0.
Qed.

(** The steps of [url]: the end [e1] after the asciidoc cut, the end [p]
    after the punctuation loop, the end [e3] after the cut at a closing
    delimiter, and the result. *)
Lemma url_stages (text : str) (s e : Z) :
  0 <= s -> s < e -> e <= Py.len text ->
  exists e1 p e3,
    url text s e
    = Ok (s, if (e3 >? 3) && Py.eqs (Py.slice text (e3 - 2) e3) (py "`_")
             then e3 - 2 else e3) /\
    (e1 = e \/
     (4 < s /\ text !! Z.to_nat (s - 1) = Some ":"%char /\ s <= e1 /\ e1 <= e)) /\
    1 <= p /\ p <= e1 /\
    (forall j, p <= j < e1 ->
       exists c, text !! Z.to_nat j = Some c /\ Py.contains (py ".,?!") c = true) /\
    (p = 1 \/
     exists c, text !! Z.to_nat (p - 1) = Some c /\ Py.contains (py ".,?!") c = false) /\
    (e3 = p \/
     (0 < s /\ s < e3 /\ e3 < Py.len text /\
      exists b, text !! Z.to_nat (s - 1) = Some b /\
                Py.contains opening_brackets b = true)).
Proof.
  intros Hs Hse He. unfold url.
  match goal with
  | |- context [url_strip_punctuation _ text ?x] => set (e1 := x)
  end.
  assert (He1 : e1 = e \/
                (4 < s /\ text !! Z.to_nat (s - 1) = Some ":"%char /\ s <= e1 /\ e1 <= e)).
  { subst e1. destruct ((s >? 4) && _) eqn:Elink; [| by left].
    apply andb_prop in Elink as [Hs4 Hlink].
    set (u := Py.slice text s e).
    assert (Hu : Py.len u = e - s) by (apply len_slice; lia).
    destruct (rfind_from_range "[" u 0 (-1)) as [Hr _]; [lia |].
    unfold Py.rfind. simpl in Hr.
    destruct (Py.rfind_from "[" u 0 (-1) >? -1) eqn:Eidx; [| by left].
    right. split; [lia |]. split; [| lia].
    apply bool_decide_eq_true in Hlink.
    replace (Z.to_nat (s - 1)) with (Z.to_nat (s - 5) + 4)%nat by lia.
    apply (slice_lookup text (s - 5) s); [lia | lia | by rewrite Hlink]. }
  assert (Hr1 : 1 <= e1 <= Py.len text) by (destruct He1 as [-> | ?]; lia).
  destruct (url_strip_punctuation_exact text (Z.to_nat e1 + 1) e1)
    as (p & -> & Hp & Hcut & Hstop); [lia | lia |].
  cbn [mbind result_bind].
  match goal with
  | |- context [mbind _ ?x] =>
      assert (H3 : exists e3, x = Ok e3 /\
                (e3 = p \/
                 (0 < s /\ s < e3 /\ e3 < Py.len text /\
                  exists b, text !! Z.to_nat (s - 1) = Some b /\
                            Py.contains opening_brackets b = true)))
  end.
  { replace (p <=? Py.len text) with true by lia.
    destruct (s >? 0) eqn:E0; [| exists p; split; [reflexivity | by left]].
    destruct (getitem_in_range text (s - 1)) as (b & -> & Hb); [lia |].
    cbn [andb mbind result_bind].
    destruct (Py.contains opening_brackets b) eqn:Eopen;
      [| exists p; split; [reflexivity | by left]].
    destruct (closing_bracket_map_opening b Eopen) as (q & ->).
    cbn [mbind result_bind].
    destruct (Py.find text q s >? s) eqn:Efind;
      [| exists p; split; [reflexivity | by left]].
    exists (Py.find text q s). split; [reflexivity |]. right.
    destruct (find_range text q s) as [Hf | Hf]; [lia | lia |].
    split; [lia |]. split; [lia |]. split; [lia |]. by exists b. }
  destruct H3 as (e3 & -> & He3). cbn [mbind result_bind].
  exists e1, p, e3. split; [reflexivity |].
  split; [exact He1 |]. split; [lia |]. split; [lia |].
  split; [exact Hcut |]. split; [exact Hstop | exact He3].
Qed.

Lemma colon_not_punctuation : Py.contains (py ".,?!") ":" = false.
Proof. vm_compute. reflexivity. Qed.

Lemma underscore_not_punctuation : Py.contains (py ".,?!") "_" = false.
Proof. vm_compute. reflexivity. Qed.

Lemma punctuation_not_opening (c : ascii) :
  Py.contains (py ".,?!") c = true -> Py.contains opening_brackets c = false.
Proof.
  unfold Py.contains. intros H. apply bool_decide_eq_true in H. simpl in H.
  repeat (apply elem_of_cons in H as [-> | H]; [vm_compute; reflexivity |]).
  by apply elem_of_nil in H.
Qed.

(** Outside the spans of [url_overshoots], [url] keeps the start and
    returns an end between the start and [len(text)]. *)
Lemma url_sound (text : str) (s e : Z) :
  0 <= s -> s < e -> e <= Py.len text ->
  url_overshoots text s e = false ->
  exists e', url text s e = Ok (s, e') /\ s <= e' /\ e' <= Py.len text.
Proof.
  intros Hs Hse He Hover.
  destruct (url_stages text s e Hs Hse He)
    as (e1 & p & e3 & Hurl & He1 & Hp1 & Hp2 & Hcut & Hstop & He3).
  apply orb_false_elim in Hover as [Hover Hb2].
  apply orb_false_elim in Hover as [Ha Hb1].
  eexists. split; [exact Hurl |].
  assert (Hlink : e1 = e \/ (text !! Z.to_nat (s - 1) = Some ":"%char /\ s <= e1 /\ 4 < s))
    by (destruct He1 as [-> | (? & ? & ? & ?)]; [by left | by right]).
  assert (Hps : s <= p).
  { destruct (decide (s <= p)) as [| Hlt]; [done | exfalso].
    assert (H2 : 2 <= s) by lia.
    destruct Hlink as [-> | (Hcolon & Hse1 & _)].
    - replace (2 <=? s) with true in Ha by lia. cbn [andb] in Ha.
      rewrite punctuation_intro in Ha; [discriminate | lia | lia | lia |].
      intros j Hj. apply Hcut. lia.
    - destruct (Hcut (s - 1)) as (c & Hc & Hpc); [lia |].
      rewrite Hcolon in Hc. injection Hc as <-.
      by rewrite colon_not_punctuation in Hpc. }
  assert (He3r : s <= e3 /\ e3 <= Py.len text)
    by (destruct He3 as [-> | (? & ? & ? & _)]; lia).
  destruct ((e3 >? 3) && _) eqn:Erst; [| lia].
  apply andb_prop in Erst as [H3 Hrst]. split; [| lia].
  destruct (decide (s <= e3 - 2)) as [| Hshort]; [done | exfalso].
  apply slice_backquote_underscore in Hrst as [Hq1 Hq2]; [| lia | lia | lia].
  destruct He3 as [-> | (_ & Hse3 & _ & b & Hb & Hopen)].
  - assert (Hall : e1 = e ->
              forall j, p <= j < e ->
                exists c, text !! Z.to_nat j = Some c /\
                          Py.contains (py ".,?!") c = true)
      by (intros <-; exact Hcut).
    destruct (decide (p = s)) as [-> | Hne].
    + destruct Hlink as [-> | (Hcolon & _ & _)]; [| congruence].
      replace (4 <=? s) with true in Hb1 by lia.
      rewrite (proj2 (slice_backquote_underscore text (s - 2) s ltac:(lia) ltac:(lia)
                        ltac:(lia))) in Hb1 by (split; assumption).
      cbn [andb] in Hb1.
      rewrite punctuation_intro in Hb1; [discriminate | lia | lia | lia |].
      by apply Hall.
    + assert (p = s + 1) as -> by lia.
      replace (s + 1 - 2) with (s - 1) in Hq1 by lia.
      replace (s + 1 - 1) with s in Hq2 by lia.
      destruct Hlink as [-> | (Hcolon & _ & _)]; [| congruence].
      replace (3 <=? s) with true in Hb2 by lia.
      rewrite (proj2 (slice_backquote_underscore text (s - 1) (s + 1) ltac:(lia)
                        ltac:(lia) ltac:(lia))) in Hb2.
      2:{ split; [exact Hq1 |]. by replace (s + 1 - 1) with s by lia. }
      cbn [andb] in Hb2.
      rewrite punctuation_intro in Hb2; [discriminate | lia | lia | lia |].
      by apply Hall.
  - assert (e3 = s + 1) as -> by lia.
    replace (s + 1 - 2) with (s - 1) in Hq1 by lia.
    rewrite Hb in Hq1. injection Hq1 as ->. vm_compute in Hopen. discriminate.
Qed.

(** On the spans of [url_overshoots] the end [url] returns is to the
    left of the start. *)
Lemma url_overshoots_inverts (text : str) (s e : Z) :
  0 <= s -> s < e -> e <= Py.len text ->
  url_overshoots text s e = true ->
  exists e', url text s e = Ok (s, e') /\ e' < s.
Proof.
  intros Hs Hse He Hover.
  destruct (url_stages text s e Hs Hse He)
    as (e1 & p & e3 & Hurl & He1 & Hp1 & Hp2 & Hcut & Hstop & He3).
  eexists. split; [exact Hurl |].
  assert (Hle : (if (e3 >? 3) && Py.eqs (Py.slice text (e3 - 2) e3) (py "`_")
                 then e3 - 2 else e3) <= e3) by (destruct (_ && _); lia).
  assert (Hdown : forall a, 1 <= a -> a <= e1 ->
            (forall j, a <= j < e1 ->
               exists c, text !! Z.to_nat j = Some c /\
                         Py.contains (py ".,?!") c = true) ->
            p <= a).
  { intros a Ha1 Hae Hall. destruct (decide (p <= a)) as [| Hgt]; [done | exfalso].
    destruct Hstop as [-> | (c & Hc & Hnp)]; [lia |].
    destruct (Hall (p - 1)) as (c' & Hc' & Hpc); [lia |]. congruence. }
  apply orb_prop in Hover as [Hover | Hb2]; [apply orb_prop in Hover as [Ha | Hb1] |].
  - apply andb_prop in Ha as [H2 Hpunct]. assert (2 <= s) by lia.
    pose proof (punctuation_lookup text (s - 1) e ltac:(lia) ltac:(lia) He Hpunct) as Hall.
    destruct (Hall (s - 1)) as (b & Hb & Hpb); [lia |].
    assert (e1 = e) as ->.
    { destruct He1 as [-> | (_ & Hcolon & _)]; [done |].
      rewrite Hcolon in Hb. injection Hb as <-.
      by rewrite colon_not_punctuation in Hpb. }
    assert (p <= s - 1) by (apply Hdown; [lia | lia | exact Hall]).
    assert (e3 = p) as ->.
    { destruct He3 as [-> | (_ & _ & _ & b' & Hb' & Hopen)]; [done |].
      rewrite Hb in Hb'. injection Hb' as <-.
      by rewrite (punctuation_not_opening b Hpb) in Hopen. }
    lia.
  - apply andb_prop in Hb1 as [Hb1 Hpunct]. apply andb_prop in Hb1 as [H4 Hrst].
    assert (4 <= s) by lia.
    pose proof Hrst as Hrst'.
    apply slice_backquote_underscore in Hrst as [Hq1 Hq2]; [| lia | lia | lia].
    pose proof (punctuation_lookup text s e ltac:(lia) ltac:(lia) He Hpunct) as Hall.
    assert (e1 = e) as ->.
    { destruct He1 as [-> | (_ & Hcolon & _)]; [done | congruence]. }
    assert (p <= s) by (apply Hdown; [lia | lia | exact Hall]).
    assert (s <= p).
    { destruct (decide (s <= p)) as [| Hlt]; [done | exfalso].
      destruct (Hcut (s - 1)) as (c & Hc & Hpc); [lia |].
      rewrite Hq2 in Hc. injection Hc as <-.
      by rewrite underscore_not_punctuation in Hpc. }
    assert (p = s) as -> by lia.
    assert (e3 = s) as ->.
    { destruct He3 as [-> | (_ & _ & _ & b' & Hb' & Hopen)]; [done |].
      rewrite Hq2 in Hb'. injection Hb' as <-. vm_compute in Hopen. discriminate. }
    replace (s >? 3) with true by lia. rewrite Hrst'. cbn [andb]. lia.
  - apply andb_prop in Hb2 as [Hb2 Hpunct]. apply andb_prop in Hb2 as [H3 Hrst].
    assert (3 <= s) by lia.
    pose proof Hrst as Hrst'.
    apply slice_backquote_underscore in Hrst as [Hq1 Hq2]; [| lia | lia | lia].
    replace (s + 1 - 1) with s in Hq2 by lia.
    pose proof (punctuation_lookup text (s + 1) e ltac:(lia) ltac:(lia) He Hpunct) as Hall.
    assert (e1 = e) as ->.
    { destruct He1 as [-> | (_ & Hcolon & _)]; [done | congruence]. }
    assert (p <= s + 1) by (apply Hdown; [lia | lia | exact Hall]).
    assert (s + 1 <= p).
    { destruct (decide (s + 1 <= p)) as [| Hlt]; [done | exfalso].
      destruct (Hcut s) as (c & Hc & Hpc); [lia |].
      rewrite Hq2 in Hc. injection Hc as <-.
      by rewrite underscore_not_punctuation in Hpc. }
    assert (p = s + 1) as -> by lia.
    assert (e3 = s + 1) as ->.
    { destruct He3 as [-> | (_ & _ & _ & b' & Hb' & Hopen)]; [done |].
      rewrite Hq1 in Hb'. injection Hb' as <-. vm_compute in Hopen. discriminate. }
    replace (s + 1 >? 3) with true by lia.
    replace (s + 1 - 2) with (s - 1) by lia. rewrite Hrst'. cbn [andb]. lia.
Qed.

(** [quotes] leaves the span alone or takes one character off each end;
    it does the latter to a span of one character when that character is
    a quote. *)
Lemma quotes_cases (text : str) (s e : Z) :
  0 <= s -> s <= e -> e <= Py.len text ->
  quotes text s e = Ok (s, e) \/
  (quotes text s e = Ok (s + 1, e - 1) /\ (s + 2 <= e \/ lone_quote text s e = true)).
Proof.
  intros Hs Hse He. unfold quotes.
  destruct (s <? e) eqn:Elt; [| by left].
  replace (e <=? Py.len text) with true by lia.
  destruct (getitem_in_range text s) as (c & Hc & Hlc); [lia |].
  destruct (getitem_in_range text (e - 1)) as (l & Hl & _); [lia |].
  rewrite Hc. cbn [andb mbind result_bind].
  destruct (Py.contains [SQUOTE; DQUOTE] c) eqn:Hq; [| by left].
  rewrite Hl. cbn [mbind result_bind]. destruct (Py.eqc l c); [right | by left].
  split; [reflexivity |].
  destruct (decide (s + 2 <= e)) as [| Hshort]; [by left | right].
  unfold lone_quote. rewrite Hlc, Hq. replace (e =? s + 1) with true by lia. reflexivity.
Qed.

Lemma quotes_sound (text : str) (s e : Z) :
  0 <= s -> s <= e -> e <= Py.len text -> lone_quote text s e = false ->
  exists s' e', quotes text s e = Ok (s', e') /\ s <= s' /\ s' <= e' /\ e' <= e.
Proof.
  intros Hs Hse He Hlone.
  destruct (quotes_cases text s e Hs Hse He) as [H | [H [Hlen | Hl]]].
  - exists s, e. split; [exact H | lia].
  - exists (s + 1), (e - 1). split; [exact H | lia].
  - congruence.
Qed.

Lemma lone_quote_inverts (text : str) (s e : Z) :
  0 <= s -> s < e -> e <= Py.len text -> lone_quote text s e = true ->
  quotes text s e = Ok (s + 1, s).
Proof.
  intros Hs Hse He Hlone. unfold lone_quote in Hlone.
  apply andb_prop in Hlone as [Hlen Hq]. assert (e = s + 1) as -> by lia.
  unfold quotes. replace (s <? s + 1) with true by lia.
  replace (s + 1 <=? Py.len text) with true by lia.
  replace (s + 1 - 1) with s by lia.
  destruct (getitem_in_range text s) as (c & Hc & Hlc); [lia |].
  rewrite Hlc in Hq. rewrite Hc. cbn [andb mbind result_bind]. rewrite Hq.
  cbn [mbind result_bind]. unfold Py.eqc. by rewrite bool_decide_eq_true_2.
Qed.

(** When [brackets] takes the ends off, they are a bracket and its
    closing partner. *)
Lemma brackets_strips (text : str) (s e : Z) :
  0 <= s -> s < e -> e <= Py.len text ->
  brackets text s e = Ok (s, e) \/
  (brackets text s e = Ok (s + 1, e - 1) /\ s + 2 <= e /\
   exists before last,
     text !! Z.to_nat s = Some before /\ text !! Z.to_nat (e - 1) = Some last /\
     Py.contains (py "({[<") before = true /\
     closing_bracket_map before = Ok last).
Proof.
  intros Hs Hse He. unfold brackets.
  replace (s <? e) with true by lia. replace (e <=? Py.len text) with true by lia.
  destruct (getitem_in_range text s) as (c & Hc & Hlc); [lia |].
  destruct (getitem_in_range text (e - 1)) as (l & Hl & Hll); [lia |].
  rewrite Hc. cbn [andb mbind result_bind].
  destruct (Py.contains (py "({[<") c) eqn:Hopen; [| by left].
  destruct (closing_bracket_differs c Hopen) as (q & Hq & Hqc).
  rewrite Hl, Hq. cbn [mbind result_bind]. unfold Py.eqc.
  case_bool_decide as Hlq; [right | by left]. subst q.
  split; [reflexivity |]. split.
  - assert (s <> e - 1) by (intros ->; congruence). lia.
  - by exists c, l.
Qed.

Lemma quote_not_bracket (c : ascii) :
  Py.contains [SQUOTE; DQUOTE] c = true -> Py.contains (py "({[<") c = false.
Proof.
  unfold Py.contains. intros H. apply bool_decide_eq_true in H.
  repeat (apply elem_of_cons in H as [-> | H]; [vm_compute; reflexivity |]).
  by apply elem_of_nil in H.
Qed.

Lemma brackets_quotes_sound (text : str) (s e : Z) :
  0 <= s -> s < e -> e <= Py.len text ->
  lone_quote text s e = false -> bracketed_lone_quote text s e = false ->
  exists s' e',
    apply_post_processors [brackets; quotes] text s e = Ok (s', e') /\
    s <= s' /\ s' <= e' /\ e' <= e.
Proof.
  intros Hs Hse He Hlone Hbr. simpl.
  destruct (brackets_strips text s e Hs Hse He)
    as [-> | (-> & Hlen & b & l & Hb & Hl & Hopen & Hclose)];
    cbn [mbind result_bind].
  - destruct (quotes_sound text s e) as (s' & e' & -> & Hr); [lia .. | done |].
    exists s', e'. split; [reflexivity | lia].
  - destruct (quotes_sound text (s + 1) (e - 1)) as (s' & e' & -> & Hr); [lia .. | |].
    + destruct (lone_quote text (s + 1) (e - 1)) eqn:Hin; [exfalso | reflexivity].
      pose proof Hin as Hin'. unfold lone_quote in Hin'.
      apply andb_prop in Hin' as [Hlen3 _]. assert (e = s + 3) as -> by lia.
      replace (s + 3 - 1) with (s + 2) in * by lia.
      unfold bracketed_lone_quote in Hbr.
      rewrite Hin, Hb, Hl, Hopen, Hclose in Hbr.
      replace (s + 3 =? s + 3) with true in Hbr by lia.
      unfold Py.eqc in Hbr. rewrite bool_decide_eq_true_2 in Hbr by reflexivity.
      discriminate.
    + exists s', e'. split; [reflexivity | lia].
Qed.

Lemma brackets_quotes_inverts (text : str) (s e : Z) :
  0 <= s -> s < e -> e <= Py.len text ->
  lone_quote text s e || bracketed_lone_quote text s e = true ->
  exists s' e',
    apply_post_processors [brackets; quotes] text s e = Ok (s', e') /\ e' < s'.
Proof.
  intros Hs Hse He Hslip. simpl.
  apply orb_prop in Hslip as [Hlone | Hbr].
  - assert (Hb : brackets text s e = Ok (s, e)).
    { destruct (brackets_strips text s e Hs Hse He)
        as [H | (_ & _ & b & l & Hb & _ & Hopen & _)]; [exact H | exfalso].
      unfold lone_quote in Hlone. rewrite Hb in Hlone.
      apply andb_prop in Hlone as [_ Hq].
      by rewrite (quote_not_bracket b Hq) in Hopen. }
    rewrite Hb. cbn [mbind result_bind].
    rewrite (lone_quote_inverts text s e Hs Hse He Hlone). cbn [mbind result_bind].
    exists (s + 1), s. split; [reflexivity | lia].
  - unfold bracketed_lone_quote in Hbr.
    apply andb_prop in Hbr as [Hbr Hends]. apply andb_prop in Hbr as [Hlen Hin].
    assert (e = s + 3) as -> by lia.
    destruct (text !! Z.to_nat s) as [b |] eqn:Hb; [| discriminate].
    destruct (text !! Z.to_nat (s + 2)) as [l |] eqn:Hl; [| discriminate].
    apply andb_prop in Hends as [Hopen Hclose].
    destruct (closing_bracket_map b) as [q | |] eqn:Hq; [| discriminate | discriminate].
    apply bool_decide_eq_true in Hclose. subst q.
    assert (Hbk : brackets text s (s + 3) = Ok (s + 1, s + 3 - 1)).
    { unfold brackets. replace (s <? s + 3) with true by lia.
      replace (s + 3 <=? Py.len text) with true by lia.
      destruct (getitem_in_range text s) as (c & Hc & Hlc); [lia |].
      destruct (getitem_in_range text (s + 3 - 1)) as (l' & Hl' & Hll'); [lia |].
      replace (s + 3 - 1) with (s + 2) in Hll' by lia.
      rewrite Hb in Hlc. injection Hlc as <-. rewrite Hl in Hll'. injection Hll' as <-.
      rewrite Hc. cbn [andb mbind result_bind]. rewrite Hopen, Hl', Hq.
      cbn [mbind result_bind]. unfold Py.eqc.
      by rewrite bool_decide_eq_true_2. }
    rewrite Hbk. cbn [mbind result_bind]. replace (s + 3 - 1) with (s + 2) by lia.
    rewrite (lone_quote_inverts text (s + 1) (s + 2)) by (try lia; exact Hin).
    cbn [mbind result_bind]. exists (s + 1 + 1), (s + 1). split; [reflexivity | lia].
Qed.

(** The spans [lone_quote], [bracketed_lone_quote] and [url_overshoots]
    describe are spans the post-processors turn around: the start they
    return is to the right of the end. *)
Lemma post_processors_slips (text : str) (s e : Z) :
  0 <= s -> s < e -> e <= Py.len text ->
  (lone_quote text s e = true ->
   exists s' e', quotes text s e = Ok (s', e') /\ e' < s') /\
  (lone_quote text s e || bracketed_lone_quote text s e = true ->
   exists s' e',
     apply_post_processors [brackets; quotes] text s e = Ok (s', e') /\ e' < s') /\
  (url_overshoots text s e = true ->
   exists e', apply_post_processors [url] text s e = Ok (s, e') /\ e' < s).
Proof.
  intros Hs Hse He. split; [| split].
  - intros Hlone. exists (s + 1), s.
    split; [by apply lone_quote_inverts | lia].
  - by apply brackets_quotes_inverts.
  - intros Hover.
    destruct (url_overshoots_inverts text s e Hs Hse He Hover) as (e' & Hurl & Hlt).
    exists e'. split; [| exact Hlt]. simpl. by rewrite Hurl.
Qed.

(** C3, as the code has it. For a span with [0 <= s < e <= len(text)]
    each post-processor, and the lists [functions_for] makes of them,
    return a span with [0 <= s' <= e' <= len(text)]: [brackets] and
    [quotes] stay inside the given span, which comes back empty when it
    is a pair of brackets or quotes; [url] keeps the start. Left out are
    the spans the code turns around: one quote character for [quotes],
    also between brackets for [brackets] then [quotes], and the spans of
    [url_overshoots] for [url]. *)
Theorem post_processors_spans (text : str) (s e : Z) :
  0 <= s -> s < e -> e <= Py.len text ->
  (exists s' e',
     brackets text s e = Ok (s', e') /\ s <= s' /\ s' <= e' /\ e' <= e) /\
  (lone_quote text s e = false ->
   exists s' e',
     quotes text s e = Ok (s', e') /\ s <= s' /\ s' <= e' /\ e' <= e) /\
  (lone_quote text s e = false -> bracketed_lone_quote text s e = false ->
   exists s' e',
     apply_post_processors [brackets; quotes] text s e = Ok (s', e') /\
     s <= s' /\ s' <= e' /\ e' <= e) /\
  (url_overshoots text s e = false ->
   exists e',
     apply_post_processors [url] text s e = Ok (s, e') /\
     s <= e' /\ e' <= Py.len text).
Proof.
  intros Hs Hse He. split; [| split; [| split]].
  - by apply brackets_span.
  - intros Hlone. apply quotes_sound; [lia | lia | lia | exact Hlone].
  - intros Hlone Hbr. by apply brackets_quotes_sound.
  - intros Hover.
    destruct (url_sound text s e Hs Hse He Hover) as (e' & Hurl & Hrange).
    exists e'. split; [| exact Hrange]. simpl. by rewrite Hurl.
Qed.

Lemma post_processors_spans_witness :
  0 <= 0 /\ 0 < 18 /\
  18 <= Py.len (py "(" ++ [DQUOTE] ++ py "http://a.b/c?!" ++ [DQUOTE] ++ py ")") /\
  lone_quote (py "(" ++ [DQUOTE] ++ py "http://a.b/c?!" ++ [DQUOTE] ++ py ")") 0 18
  = false /\
  bracketed_lone_quote
    (py "(" ++ [DQUOTE] ++ py "http://a.b/c?!" ++ [DQUOTE] ++ py ")") 0 18 = false /\
  url_overshoots (py "(" ++ [DQUOTE] ++ py "http://a.b/c?!" ++ [DQUOTE] ++ py ")") 0 18
  = false /\
  (exists s' e',
     brackets (py "(" ++ [DQUOTE] ++ py "http://a.b/c?!" ++ [DQUOTE] ++ py ")") 0 18
     = Ok (s', e') /\ 0 <= s' /\ s' <= e' /\ e' <= 18) /\
  (exists s' e',
     quotes (py "(" ++ [DQUOTE] ++ py "http://a.b/c?!" ++ [DQUOTE] ++ py ")") 0 18
     = Ok (s', e') /\ 0 <= s' /\ s' <= e' /\ e' <= 18) /\
  (exists s' e',
     apply_post_processors [brackets; quotes]
       (py "(" ++ [DQUOTE] ++ py "http://a.b/c?!" ++ [DQUOTE] ++ py ")") 0 18
     = Ok (s', e') /\ 0 <= s' /\ s' <= e' /\ e' <= 18) /\
  (exists e',
     apply_post_processors [url]
       (py "(" ++ [DQUOTE] ++ py "http://a.b/c?!" ++ [DQUOTE] ++ py ")") 0 18
     = Ok (0, e') /\ 0 <= e' /\
     e' <= Py.len (py "(" ++ [DQUOTE] ++ py "http://a.b/c?!" ++ [DQUOTE] ++ py ")")).
Proof.
  set (text := py "(" ++ [DQUOTE] ++ py "http://a.b/c?!" ++ [DQUOTE] ++ py ")").
  assert (H1 : 0 <= 0) by lia.
  assert (H2 : 0 < 18) by lia.
  assert (H3 : 18 <= Py.len text) by (vm_compute; discriminate).
  assert (H4 : lone_quote text 0 18 = false) by (vm_compute; reflexivity).
  assert (H5 : bracketed_lone_quote text 0 18 = false) by (vm_compute; reflexivity).
  assert (H6 : url_overshoots text 0 18 = false) by (vm_compute; reflexivity).
  destruct (post_processors_spans text 0 18 H1 H2 H3) as (Hb & Hq & Hbq & Hu).
  split; [exact H1 |]. split; [exact H2 |]. split; [exact H3 |].
  split; [exact H4 |]. split; [exact H5 |]. split; [exact H6 |].
  split; [exact Hb |]. split; [exact (Hq H4) |].
  split; [exact (Hbq H4 H5) | exact (Hu H6)].
Defined.

(** What the post-processors make of spans of that text and of a URL
    followed by punctuation: [brackets] then [quotes] take the brackets
    and the quotes off, [url] cuts the punctuation. *)
Example post_processors_refine :
  brackets (py "(" ++ [DQUOTE] ++ py "http://a.b/c?!" ++ [DQUOTE] ++ py ")") 0 18
  = Ok (1, 17) /\
  quotes (py "(" ++ [DQUOTE] ++ py "http://a.b/c?!" ++ [DQUOTE] ++ py ")") 1 17
  = Ok (2, 16) /\
  apply_post_processors [brackets; quotes]
    (py "(" ++ [DQUOTE] ++ py "http://a.b/c?!" ++ [DQUOTE] ++ py ")") 0 18
  = Ok (2, 16) /\
  url (py "see http://a.b/c?! now") 4 18 = Ok (4, 16).
Proof. vm_compute. auto. Qed.

(** Spans of one and of three characters, and a span that begins with
    punctuation, that the post-processors leave as they are. *)
Example post_processors_sound_spans :
  quotes (py "x") 0 1 = Ok (0, 1) /\
  apply_post_processors [brackets; quotes] (py "a/b") 0 3 = Ok (0, 3) /\
  url (py "x .ab") 2 5 = Ok (2, 5) /\
  lone_quote (py "x") 0 1 = false /\
  bracketed_lone_quote (py "a/b") 0 3 = false /\
  url_overshoots (py "x .ab") 2 5 = false.
Proof. vm_compute. repeat split. Qed.

(** A span that is exactly a pair of brackets comes back empty. *)
Lemma post_processors_spans_counterexample :
  0 <= 0 /\ 0 < 2 /\ 2 <= Py.len (py "()") /\
  brackets (py "()") 0 2 = Ok (1, 1) /\ ~ 1 < 1.
Proof. vm_compute. intuition discriminate. Qed.

(** Spans the post-processors turn around: a lone quote character under
    [quotes], a bracketed one under [brackets] then [quotes], and trailing
    punctuation under [url]. *)
Example post_processors_inverted :
  quotes [SQUOTE] 0 1 = Ok (1, 0) /\
  apply_post_processors [brackets; quotes] (py "(" ++ [SQUOTE] ++ py ")") 0 3
  = Ok (2, 1) /\
  url (py "x...") 2 4 = Ok (2, 1).
Proof. vm_compute. auto. Qed.

(** Scenarios A and B of the specification. *)
Example scenario_A :
  url (py "visit http://example.com/page. now") 6 30 = Ok (6, 29) /\
  Py.slice (py "visit http://example.com/page. now") 6 29
  = py "http://example.com/page".
Proof. vm_compute. auto. Qed.

Example scenario_B :
  apply_post_processors [brackets; quotes] (py "(foo.txt)") 0 9 = Ok (1, 8) /\
  Py.slice (py "(foo.txt)") 1 8 = py "foo.txt".
Proof. vm_compute. auto. Qed.

(** ** The [Hints] handler *)

Section Handler.

Context `{Host}.

Lemma highlight_mark_ok (m : Mark) (text current_input alphabet : str) :
  2 <= Py.len alphabet -> 0 <= Mark.index m ->
  exists mtext, highlight_mark m text current_input alphabet = Ok mtext.
Proof.
  intros Hb Hi. unfold highlight_mark, highlight_parts.
  destruct (encode_hint_total alphabet Hb (Mark.index m) Hi) as (hint & -> & _).
  cbn [mbind result_bind].
  destruct (truthy current_input && negb (Py.startswith hint current_input));
    cbn [mbind result_bind]; eauto.
Qed.

Lemma render_marks_ok (marks : list Mark) (text current_input : str)
  (ignore_mark_indices : gset Z) (alphabet : str) :
  2 <= Py.len alphabet -> Forall (fun m => 0 <= Mark.index m) marks ->
  exists shown,
    render_marks marks text current_input ignore_mark_indices alphabet = Ok shown.
Proof.
  intros Hb Hall. revert text.
  induction Hall as [| m marks Hm _ IH]; intros text; simpl; [eauto |].
  case_bool_decide; [apply IH |].
  destruct (highlight_mark_ok m (Py.slice text (Mark.start m) (Mark.end_ m))
              current_input alphabet Hb Hm) as (mtext & ->).
  cbn [mbind result_bind]. apply IH.
Qed.

Lemma render_ok (text current_input : str) (all_marks : list Mark)
  (ignore_mark_indices : gset Z) (alphabet : str) :
  2 <= Py.len alphabet -> Forall (fun m => 0 <= Mark.index m) all_marks ->
  exists shown,
    render text current_input all_marks ignore_mark_indices alphabet = Ok shown.
Proof.
  intros Hb Hall. unfold render.
  destruct (render_marks_ok (rev all_marks) text current_input ignore_mark_indices
              alphabet Hb) as (t & ->); [by apply Forall_rev |].
  cbn [mbind result_bind]. eauto.
Qed.

(** With the cached text gone, [draw_screen] renders and sends the
    present state. *)
Lemma draw_screen_redraws (h : Hints.t) :
  well_formed h -> Hints.current_text h = None ->
  exists shown,
    Hints.draw_screen h = Ok (Hints.set_current_text h (Some shown),
                              [clear_screen; write shown]) /\
    redrawn (Hints.set_current_text h (Some shown)) [clear_screen; write shown].
Proof.
  intros (Hb & Hall & _) Hnone. unfold Hints.draw_screen. rewrite Hnone.
  destruct (render_ok (Hints.text h) (Hints.current_input h) (Hints.all_marks h)
              (Hints.ignore_mark_indices h) (Hints.alphabet h) Hb Hall)
    as (shown & Hr).
  rewrite Hr. cbn [mbind result_bind]. exists shown. split; [reflexivity |].
  exists shown. split; [reflexivity |]. split; [reflexivity | exact Hr].
Qed.

(** The list comprehension of [on_text] is a filter on the hints. *)
Lemma matching_marks_filter (items : list (Z * Mark)) (alphabet input : str) :
  2 <= Py.len alphabet -> Forall (fun p => 0 <= fst p) items ->
  Hints.matching_marks items alphabet input
  = Ok (map snd (filter (fun p => hint_starts_with alphabet input (fst p) = true)
                        items)).
Proof.
  intros Hb Hall. induction Hall as [| [idx m] items Hidx _ IH]; [reflexivity |].
  simpl in Hidx. simpl. rewrite IH.
  destruct (encode_hint_total alphabet Hb idx Hidx) as (hint & Hh & _).
  rewrite Hh. cbn [mbind result_bind]. rewrite filter_cons. simpl.
  assert (Hs : hint_starts_with alphabet input idx = Py.startswith hint input)
    by (unfold hint_starts_with; by rewrite Hh).
  rewrite Hs. destruct (Py.startswith hint input); by case_decide.
Qed.

Lemma index_map_items_nonneg (h : Hints.t) :
  well_formed h -> Forall (fun p => 0 <= fst p) (map_to_list (Hints.index_map h)).
Proof.
  intros (_ & _ & Hidx). apply Forall_forall. intros [idx m] Hin.
  apply elem_of_map_to_list in Hin. simpl. by apply (Hidx idx m).
Qed.

End Handler.

(** C1, as the code has it. A character of the alphabet is appended to
    [current_input]; the marks considered are all those of [index_map]
    whose hint starts with the new input, [ignore_mark_indices] playing no
    part. When there is exactly one, it is appended to [chosen]; in
    multiple mode its index is added to [ignore_mark_indices], the input
    is emptied and the screen redrawn, otherwise the loop is told to quit
    with code 0. When there is none or more than one, only the input
    changes and the screen is redrawn. *)
Theorem on_text_resolves `{Host} (h : Hints.t) (c : ascii) (paste : bool) :
  well_formed h -> c ∈ Hints.alphabet h ->
  exists h' cmds,
    Hints.on_text h [c] paste = Ok (h', cmds) /\
    match matching h (Hints.current_input h ++ [c]) with
    | [m] =>
        Hints.chosen h' = Hints.chosen h ++ [m] /\
        if Hints.multiple h
        then Hints.ignore_mark_indices h'
             = {[Mark.index m]} ∪ Hints.ignore_mark_indices h /\
             Hints.current_input h' = [] /\
             redrawn h' cmds
        else Hints.ignore_mark_indices h' = Hints.ignore_mark_indices h /\
             cmds = [quit_loop 0]
    | _ =>
        Hints.chosen h' = Hints.chosen h /\
        Hints.ignore_mark_indices h' = Hints.ignore_mark_indices h /\
        Hints.current_input h' = Hints.current_input h ++ [c] /\
        redrawn h' cmds
    end.
Proof.
  intros Hwf Hc.
  assert (Hin : Py.contains (Hints.alphabet h) c = true)
    by (unfold Py.contains; by apply bool_decide_eq_true).
  unfold Hints.on_text, Hints.append_input. cbn [foldl]. rewrite Hin.
  cbn [Hints.set_current_input Hints.alphabet Hints.index_map Hints.current_input].
  rewrite matching_marks_filter;
    [| apply Hwf | by apply index_map_items_nonneg].
  fold (matching h (Hints.current_input h ++ [c])).
  cbn [mbind result_bind].
  set (h1 := Hints.set_current_input h (Hints.current_input h ++ [c])).
  assert (Hredraw : forall h2, well_formed h2 -> Hints.current_text h2 = None ->
            exists h' cmds, Hints.draw_screen h2 = Ok (h', cmds) /\
              Hints.chosen h' = Hints.chosen h2 /\
              Hints.ignore_mark_indices h' = Hints.ignore_mark_indices h2 /\
              Hints.current_input h' = Hints.current_input h2 /\
              redrawn h' cmds).
  { intros h2 Hwf2 Hnone.
    destruct (draw_screen_redraws h2 Hwf2 Hnone) as (shown & Hd & Hr).
    eexists _, _. split; [exact Hd |]. repeat split; done. }
  destruct (matching h (Hints.current_input h ++ [c])) as [| m [| m' ms]].
  - destruct (Hredraw (Hints.set_current_text h1 None))
      as (h' & cmds & Hd & Hch & Hig & Hci & Hr); [exact Hwf | reflexivity |].
    exists h', cmds. split; [exact Hd |]. repeat split; done.
  - destruct (Hints.multiple h) eqn:Hmul.
    + replace (Hints.multiple (Hints.set_chosen h1 (Hints.chosen h1 ++ [m])))
        with true by (symmetry; exact Hmul).
      match goal with
      | |- context [Hints.draw_screen ?x] =>
          destruct (Hredraw x) as (h' & cmds & Hd & Hch & Hig & Hci & Hr);
            [exact Hwf | reflexivity |]
      end.
      exists h', cmds. split; [exact Hd |]. repeat split; done.
    + replace (Hints.multiple (Hints.set_chosen h1 (Hints.chosen h1 ++ [m])))
        with false by (symmetry; exact Hmul).
      eexists _, _. split; [reflexivity |]. repeat split; done.
  - destruct (Hredraw (Hints.set_current_text h1 None))
      as (h' & cmds & Hd & Hch & Hig & Hci & Hr); [exact Hwf | reflexivity |].
    exists h', cmds. split; [exact Hd |]. repeat split; done.
Qed.

Lemma marks_index_map_lookup (all_marks : list Mark) (idx : Z) (m : Mark) :
  marks_index_map all_marks !! idx = Some m -> m ∈ all_marks /\ Mark.index m = idx.
Proof.
  unfold marks_index_map.
  assert (Hgen : forall d : gmap Z Mark,
            foldl (fun d m => <[Mark.index m := m]> d) d all_marks !! idx = Some m ->
            (m ∈ all_marks /\ Mark.index m = idx) \/ d !! idx = Some m).
  { induction all_marks as [| a l IH]; intros d Hl; simpl in Hl; [by right |].
    destruct (IH _ Hl) as [[Hin Hidx] | Hd].
    - left. split; [by apply elem_of_cons; right | done].
    - destruct (decide (Mark.index a = idx)) as [Heq | Hne].
      + rewrite <- Heq, lookup_insert_eq in Hd. injection Hd as ->.
        left. split; [by apply elem_of_cons; left | done].
      + rewrite lookup_insert_ne in Hd by done. by right. }
  intros Hl. destruct (Hgen ∅ Hl) as [Hres | Hempty]; [done |].
  by rewrite lookup_empty in Hempty.
Qed.

(** A handler built by [Hints.__init__] from marks with non-negative
    indices and their index map is well formed. *)
Lemma init_well_formed `{Host} (text : str) (all_marks : list Mark)
  (args : HintsCLIOptions.t) :
  2 <= Py.len (or_ (HintsCLIOptions.alphabet args) DEFAULT_HINT_ALPHABET) ->
  Forall (fun m => 0 <= Mark.index m) all_marks ->
  well_formed (Hints.init text all_marks (marks_index_map all_marks) args).
Proof.
  intros Hb Hall. split; [exact Hb |]. split; [exact Hall |].
  intros idx m Hl. apply marks_index_map_lookup in Hl as [Hin <-].
  rewrite Forall_forall in Hall. by apply Hall.
Qed.

Lemma example_handler_well_formed (alphabet : str) (multiple : bool) :
  2 <= Py.len (or_ alphabet DEFAULT_HINT_ALPHABET) ->
  well_formed (example_handler alphabet multiple).
Proof.
  intros Hb. apply init_well_formed; [exact Hb |].
  repeat constructor; vm_compute; discriminate.
Qed.

Lemma on_text_resolves_witness :
  well_formed (example_handler [] true) /\
  "1"%char ∈ Hints.alphabet (example_handler [] true) /\
  exists h' cmds,
    @Hints.on_text example_host (example_handler [] true) (py "1") false
    = Ok (h', cmds) /\
    Hints.chosen h' = [bar] /\
    Hints.ignore_mark_indices h' = {[1]} ∪ ∅ /\
    Hints.current_input h' = [].
Proof.
  assert (Hwf : well_formed (example_handler [] true)).
  { apply example_handler_well_formed. vm_compute. discriminate. }
  assert (Hc : "1"%char ∈ Hints.alphabet (example_handler [] true)).
  { apply (bool_decide_unpack _). vm_compute. exact I. }
  split; [exact Hwf |]. split; [exact Hc |].
  destruct (@on_text_resolves example_host (example_handler [] true) "1"%char false
              Hwf Hc) as (h' & cmds & Hrun & Hm).
  assert (E : matching (example_handler [] true)
                (Hints.current_input (example_handler [] true) ++ ["1"%char])
              = [bar]) by (vm_compute; reflexivity).
  rewrite E in Hm. destruct Hm as (Hch & Hig & Hci & _).
  exists h', cmds. split; [exact Hrun |]. split; [exact Hch |].
  split; [exact Hig | exact Hci].
Defined.

(** In multiple mode a mark that has been chosen is chosen again: after
    [1] has resolved [bar], whose index is then in [ignore_mark_indices],
    no mark is live for the input [1] in the sense of the specification,
    yet typing [1] appends [bar] to [chosen] a second time. *)
Lemma on_text_resolves_counterexample :
  exists h1 cmds1 h2 cmds2,
    @Hints.on_text example_host (example_handler [] true) (py "1") false
    = Ok (h1, cmds1) /\
    Hints.chosen h1 = [bar] /\
    1 ∈ Hints.ignore_mark_indices h1 /\
    live_matches h1 (Hints.current_input h1 ++ py "1") = [] /\
    @Hints.on_text example_host h1 (py "1") false = Ok (h2, cmds2) /\
    Hints.chosen h2 = [bar; bar].
Proof.
  eexists _, _, _, _.
  split; [vm_compute; reflexivity |].
  split; [vm_compute; reflexivity |].
  split; [apply (bool_decide_unpack _); vm_compute; exact I |].
  split; [vm_compute; reflexivity |].
  split; vm_compute; reflexivity.
Qed.

(** The other way round: over the alphabet [ab], once [bar] (hint [b])
    has been resolved with Enter, [foo] (hint [ba]) is the one live match
    for the input [b] in the sense of the specification, yet typing [b]
    resolves nothing, because [bar] still counts. *)
Example on_text_counts_resolved :
  exists h1 cmds1 h2 cmds2 h3 cmds3,
    @Hints.on_text example_host (example_handler (py "ab") true) (py "b") false
    = Ok (h1, cmds1) /\
    @Hints.on_key example_host h1 enter_key = Ok (h2, cmds2) /\
    Hints.chosen h2 = [bar] /\
    live_matches h2 (Hints.current_input h2 ++ py "b") = [foo] /\
    @Hints.on_text example_host h2 (py "b") false = Ok (h3, cmds3) /\
    Hints.chosen h3 = [bar] /\
    Hints.current_input h3 = py "b".
Proof.
  eexists _, _, _, _, _, _.
  split; [vm_compute; reflexivity |].
  split; [vm_compute; reflexivity |].
  split; [vm_compute; reflexivity |].
  split; [vm_compute; reflexivity |].
  split; [vm_compute; reflexivity |].
  split; vm_compute; reflexivity.
Qed.

Lemma decode_loop_raises (im : gmap ascii Z) (base : Z) (x : str) (i : Z) :
  decode_loop im base x i <> Diverge /\
  forall ex, decode_loop im base x i = Raise ex -> ex = KeyError.
Proof.
  revert i. induction x as [| c x IH]; intros i; simpl.
  - split; [discriminate | intros ex; discriminate].
  - destruct (im !! c); [apply IH |].
    split; [discriminate | intros ex; congruence].
Qed.

(** C2, as the code has it. On Enter with a non-empty input the handler
    decodes the input; when the index is a key of [index_map], whether or
    not it is in [ignore_mark_indices], the mark is appended to [chosen]
    and the index added to [ignore_mark_indices], and then, in multiple
    mode, the input is emptied and the screen redrawn, otherwise the loop
    is told to quit with code 0. When decoding fails or the index is not
    a key, the input is emptied and the screen redrawn; [chosen] and
    [ignore_mark_indices] stay as they are and the loop goes on. *)
Theorem on_key_enter `{Host} (h : Hints.t) :
  well_formed h -> Hints.current_input h <> [] ->
  exists h' cmds,
    Hints.on_key h enter_key = Ok (h', cmds) /\
    match decoded_mark h with
    | Some (idx, m) =>
        Hints.chosen h' = Hints.chosen h ++ [m] /\
        Hints.ignore_mark_indices h' = {[idx]} ∪ Hints.ignore_mark_indices h /\
        if Hints.multiple h
        then Hints.current_input h' = [] /\ redrawn h' cmds
        else cmds = [quit_loop 0]
    | None =>
        Hints.chosen h' = Hints.chosen h /\
        Hints.ignore_mark_indices h' = Hints.ignore_mark_indices h /\
        Hints.current_input h' = [] /\
        redrawn h' cmds
    end.
Proof.
  intros Hwf Hne.
  assert (Htruthy : truthy (Hints.current_input h) = true).
  { unfold truthy, Py.eqs. by rewrite bool_decide_eq_false_2. }
  assert (Hredraw : forall h2, well_formed h2 -> Hints.current_text h2 = None ->
            exists h' cmds, Hints.draw_screen h2 = Ok (h', cmds) /\
              Hints.chosen h' = Hints.chosen h2 /\
              Hints.ignore_mark_indices h' = Hints.ignore_mark_indices h2 /\
              Hints.current_input h' = Hints.current_input h2 /\
              redrawn h' cmds).
  { intros h2 Hwf2 Hnone.
    destruct (draw_screen_redraws h2 Hwf2 Hnone) as (shown & Hd & Hr).
    eexists _, _. split; [exact Hd |]. repeat split; done. }
  unfold Hints.on_key, decoded_mark, Hints.index_map_getitem. rewrite Htruthy.
  destruct (decode_hint (Hints.current_input h) (Hints.alphabet h))
    as [idx | ex |] eqn:Hdec; cbn [mbind result_bind].
  - destruct (Hints.index_map h !! idx) as [m |] eqn:Hidx; cbn [mbind result_bind is_Exception].
    + destruct (Hints.multiple h) eqn:Hmul.
      * match goal with
        | |- context [if ?b then _ else _] => replace b with true by (symmetry; exact Hmul)
        end.
        match goal with
        | |- context [Hints.draw_screen ?x] =>
            destruct (Hredraw x) as (h' & cmds & Hd & Hch & Hig & Hci & Hr);
              [exact Hwf | reflexivity |]
        end.
        exists h', cmds. split; [exact Hd |]. repeat split; done.
      * match goal with
        | |- context [if ?b then _ else _] => replace b with false by (symmetry; exact Hmul)
        end.
        eexists _, _. split; [reflexivity |]. repeat split; done.
    + match goal with
      | |- context [Hints.draw_screen ?x] =>
          destruct (Hredraw x) as (h' & cmds & Hd & Hch & Hig & Hci & Hr);
            [exact Hwf | reflexivity |]
      end.
      exists h', cmds. split; [exact Hd |]. repeat split; done.
  - destruct (decode_loop_raises (alphabet_index_map (Hints.alphabet h))
                (Py.len (Hints.alphabet h)) (Hints.current_input h) 0) as [_ Hkey].
    rewrite (Hkey ex Hdec).
    cbn [is_Exception].
    match goal with
    | |- context [Hints.draw_screen ?x] =>
        destruct (Hredraw x) as (h' & cmds & Hd & Hch & Hig & Hci & Hr);
          [exact Hwf | reflexivity |]
    end.
    exists h', cmds. split; [exact Hd |]. repeat split; done.
  - by destruct (decode_loop_raises (alphabet_index_map (Hints.alphabet h))
                   (Py.len (Hints.alphabet h)) (Hints.current_input h) 0) as [Hnd _].
Qed.

Lemma on_key_enter_witness :
  well_formed (Hints.set_current_input (example_handler (py "ab") true) (py "b")) /\
  Hints.current_input
    (Hints.set_current_input (example_handler (py "ab") true) (py "b")) <> [] /\
  exists h' cmds,
    @Hints.on_key example_host
      (Hints.set_current_input (example_handler (py "ab") true) (py "b")) enter_key
    = Ok (h', cmds) /\
    Hints.chosen h' = [bar] /\
    Hints.ignore_mark_indices h' = {[1]} ∪ ∅ /\
    Hints.current_input h' = [].
Proof.
  set (h := Hints.set_current_input (example_handler (py "ab") true) (py "b")).
  assert (Hwf : well_formed h).
  { apply (example_handler_well_formed (py "ab") true). vm_compute. discriminate. }
  assert (Hne : Hints.current_input h <> []) by discriminate.
  split; [exact Hwf |]. split; [exact Hne |].
  destruct (@on_key_enter example_host h Hwf Hne) as (h' & cmds & Hrun & Hm).
  assert (E : decoded_mark h = Some (1, bar)) by (vm_compute; reflexivity).
  rewrite E in Hm. destruct Hm as (Hch & Hig & Hci & _).
  exists h', cmds. split; [exact Hrun |]. split; [exact Hch |].
  split; [exact Hig | exact Hci].
Defined.

(** Enter resolves a mark that is already resolved. Over the alphabet
    [ab] the hints are [b] for [bar] and [ba] for [foo]; [b] and Enter
    resolve [bar], and [b] and Enter again append [bar] a second time,
    although its index 1 is in [ignore_mark_indices]. *)
Lemma on_key_enter_counterexample :
  exists h1 cmds1 h2 cmds2 h3 cmds3 h4 cmds4,
    @Hints.on_text example_host (example_handler (py "ab") true) (py "b") false
    = Ok (h1, cmds1) /\
    @Hints.on_key example_host h1 enter_key = Ok (h2, cmds2) /\
    @Hints.on_text example_host h2 (py "b") false = Ok (h3, cmds3) /\
    Hints.chosen h3 = [bar] /\
    Hints.current_input h3 = py "b" /\
    decode_hint (py "b") (Hints.alphabet h3) = Ok 1 /\
    1 ∈ Hints.ignore_mark_indices h3 /\
    @Hints.on_key example_host h3 enter_key = Ok (h4, cmds4) /\
    Hints.chosen h4 = [bar; bar].
Proof.
  eexists _, _, _, _, _, _, _, _.
  split; [vm_compute; reflexivity |].
  split; [vm_compute; reflexivity |].
  split; [vm_compute; reflexivity |].
  split; [vm_compute; reflexivity |].
  split; [vm_compute; reflexivity |].
  split; [vm_compute; reflexivity |].
  split; [apply (bool_decide_unpack _); vm_compute; exact I |].
  split; vm_compute; reflexivity.
Qed.

(** ** The loop *)

Section Loop.

Context `{Host}.

Lemma same_setup_refl (h : Hints.t) : same_setup h h.
Proof. by repeat split. Qed.

Lemma same_setup_trans (h1 h2 h3 : Hints.t) :
  same_setup h1 h2 -> same_setup h2 h3 -> same_setup h1 h3.
Proof.
  intros (? & ? & ? & ? & ? & ? & ?) (? & ? & ? & ? & ? & ? & ?).
  repeat split; congruence.
Qed.

Lemma draw_screen_same_setup (h h' : Hints.t) (cmds : list command) :
  Hints.draw_screen h = Ok (h', cmds) ->
  same_setup h h' /\ Hints.chosen h' = Hints.chosen h /\ quit_code cmds = None.
Proof.
  unfold Hints.draw_screen. intros Hd.
  destruct (Hints.current_text h) as [shown |].
  - cbn [mbind result_bind] in Hd. injection Hd as <- <-.
    split; [apply same_setup_refl | by split].
  - destruct (render _ _ _ _ _) as [shown | |]; cbn [mbind result_bind] in Hd;
      [| discriminate | discriminate].
    injection Hd as <- <-. split; [by repeat split | by split].
Qed.

Lemma dispatch_same_setup (h h' : Hints.t) (ev : event) (cmds : list command) :
  dispatch h ev = Ok (h', cmds) -> same_setup h h'.
Proof.
  destruct ev as [text paste | e | | |]; simpl.
  - unfold Hints.on_text.
    assert (Happ : same_setup h (fst (Hints.append_input h text))).
    { unfold Hints.append_input. generalize false. revert h.
      induction text as [| c text IH]; intros h b; [apply same_setup_refl |].
      simpl. destruct (Py.contains (Hints.alphabet h) c).
      - eapply same_setup_trans; [| apply IH]. by repeat split.
      - apply IH. }
    destruct (Hints.append_input h text) as [h1 changed]. simpl in Happ.
    destruct changed; [| intros [= <- <-]; exact Happ].
    destruct (Hints.matching_marks _ _ _) as [matches | |];
      cbn [mbind result_bind]; [| discriminate | discriminate].
    intros Hrun. eapply same_setup_trans; [exact Happ |].
    destruct matches as [| m [| m' ms]].
    + apply draw_screen_same_setup in Hrun as [Hs _].
      eapply same_setup_trans; [| exact Hs]. by repeat split.
    + destruct (Hints.multiple _).
      * apply draw_screen_same_setup in Hrun as [Hs _].
        eapply same_setup_trans; [| exact Hs]. by repeat split.
      * injection Hrun as <- <-. by repeat split.
    + apply draw_screen_same_setup in Hrun as [Hs _].
      eapply same_setup_trans; [| exact Hs]. by repeat split.
  - unfold Hints.on_key. intros Hrun.
    assert (Hesc : forall k,
              match k with
              | ESCAPE => Ok (h, [quit_loop (if Hints.multiple h then 0 else 1)])
              | _ => Ok (h, [])
              end = Ok (h', cmds) -> same_setup h h').
    { intros k Hk. destruct k; injection Hk as <- <-; apply same_setup_refl. }
    destruct e as [| | k].
    + apply draw_screen_same_setup in Hrun as [Hs _].
      eapply same_setup_trans; [| exact Hs]. by repeat split.
    + destruct (truthy (Hints.current_input h)); [| by apply (Hesc ENTER)].
      destruct (decode_hint _ _ ≫= _) as [[idx m] | ex |]; [| | discriminate].
      * destruct (Hints.multiple _).
        -- apply draw_screen_same_setup in Hrun as [Hs _].
           eapply same_setup_trans; [| exact Hs]. by repeat split.
        -- injection Hrun as <- <-. by repeat split.
      * destruct (is_Exception ex); [| discriminate].
        apply draw_screen_same_setup in Hrun as [Hs _].
        eapply same_setup_trans; [| exact Hs]. by repeat split.
    + by apply (Hesc k).
  - intros [= <- <-]. apply same_setup_refl.
  - intros [= <- <-]. apply same_setup_refl.
  - intros Hrun. by apply draw_screen_same_setup in Hrun as [Hs _].
Qed.

Lemma feed_same_setup (events : list event) (h h' : Hints.t) (rc : option Z)
  (out : list command) :
  feed h events = Ok (h', rc, out) -> same_setup h h'.
Proof.
  revert h out. induction events as [| ev events IH]; intros h out; simpl.
  - intros [= <- <- <-]. apply same_setup_refl.
  - destruct (dispatch h ev) as [[h1 cmds] | |] eqn:Hd;
      cbn [mbind result_bind]; [| discriminate | discriminate].
    apply dispatch_same_setup in Hd.
    destruct (quit_code cmds).
    + intros [= <- <- <-]. exact Hd.
    + destruct (feed h1 events) as [[[h2 rc2] out2] | |] eqn:Hf;
        cbn [mbind result_bind]; [| discriminate | discriminate].
      intros [= <- <- <-]. eapply same_setup_trans; [exact Hd |].
      by apply (IH h1 out2).
Qed.

(** Events that leave the loop running can be followed by more. *)
Lemma feed_app (events events' : list event) (h h1 : Hints.t) (out : list command) :
  feed h events = Ok (h1, None, out) ->
  feed h (events ++ events')
  = '(h2, rc, out') ← feed h1 events'; Ok (h2, rc, out ++ out').
Proof.
  revert h out. induction events as [| ev events IH]; intros h out; simpl.
  - intros [= <- <-]. destruct (feed h events') as [[[h2 rc] out'] | |]; reflexivity.
  - destruct (dispatch h ev) as [[h' cmds] | |];
      cbn [mbind result_bind]; [| discriminate | discriminate].
    destruct (quit_code cmds); [discriminate |].
    destruct (feed h' events) as [[[h2 rc2] out2] | |] eqn:Hf;
      cbn [mbind result_bind]; [| discriminate | discriminate].
    intros [= <- -> <-]. rewrite (IH h' out2 Hf).
    destruct (feed h2 events') as [[[h3 rc] out'] | |]; cbn [mbind result_bind];
      [| reflexivity | reflexivity].
    by rewrite app_assoc.
Qed.

End Loop.

(** C8. While the loop is running, Escape leaves the handler as it is
    and ends the loop with code 0 in multiple mode and 1 otherwise. In
    multiple mode [run_loop] then returns the marks chosen so far, in the
    order they were chosen (when none was chosen it exits with status 0);
    otherwise it exits with status 1 and returns nothing. *)
Theorem escape_ends_loop `{Host} (args : HintsCLIOptions.t) (text : str)
  (all_marks : list Mark) (index_map : gmap Z Mark) (extra_cli_args : list str)
  (events : list event) (h0 h : Hints.t) (cmds0 out : list command) :
  Hints.initialize (Hints.init text all_marks index_map args) = Ok (h0, cmds0) ->
  feed h0 events = Ok (h, None, out) ->
  Hints.on_key h (key_event ESCAPE)
  = Ok (h, [quit_loop (if HintsCLIOptions.multiple args then 0 else 1)]) /\
  run_loop args text all_marks index_map extra_cli_args
    (events ++ [key (key_event ESCAPE)])
  = (if HintsCLIOptions.multiple args && bool_decide (Hints.chosen h <> [])
     then Ok {| sel_match :=
                  map (fun m => Mark.text m ++ Hints.get_match_suffix args)
                      (Hints.chosen h);
                sel_programs := HintsCLIOptions.program args;
                sel_multiple_joiner := HintsCLIOptions.multiple_joiner args;
                sel_customize_processing := HintsCLIOptions.customize_processing args;
                sel_type := HintsCLIOptions.type args;
                sel_groupdicts := map Mark.groupdict (Hints.chosen h);
                sel_extra_cli_args := extra_cli_args;
                sel_linenum_action := HintsCLIOptions.linenum_action args |}
     else Raise (SystemExit (if HintsCLIOptions.multiple args then 0 else 1)),
     cmds0 ++ out ++ [quit_loop (if HintsCLIOptions.multiple args then 0 else 1)]) /\
  exit_status
    (fst (run_loop args text all_marks index_map extra_cli_args
            (events ++ [key (key_event ESCAPE)])))
  = Some (if HintsCLIOptions.multiple args then 0 else 1).
Proof.
  intros Hinit Hfeed.
  assert (Hsetup : same_setup (Hints.init text all_marks index_map args) h).
  { unfold Hints.initialize in Hinit.
    destruct (Hints.draw_screen _) as [[h1 drawn] | |] eqn:Hd;
      cbn [mbind result_bind] in Hinit; [| discriminate | discriminate].
    injection Hinit as <- <-. apply draw_screen_same_setup in Hd as [Hs _].
    eapply same_setup_trans; [exact Hs |]. by apply feed_same_setup in Hfeed. }
  destruct Hsetup as (_ & _ & _ & _ & _ & Hmul & Hsuffix).
  change (Hints.multiple (Hints.init text all_marks index_map args))
    with (HintsCLIOptions.multiple args) in Hmul.
  change (Hints.match_suffix (Hints.init text all_marks index_map args))
    with (Hints.get_match_suffix args) in Hsuffix.
  assert (Hesc : Hints.on_key h (key_event ESCAPE)
                 = Ok (h, [quit_loop (if HintsCLIOptions.multiple args then 0 else 1)])).
  { unfold Hints.on_key. simpl. by rewrite Hmul. }
  assert (Hrun : run_loop args text all_marks index_map extra_cli_args
                   (events ++ [key (key_event ESCAPE)])
                 = (if HintsCLIOptions.multiple args && bool_decide (Hints.chosen h <> [])
                    then Ok {| sel_match :=
                                 map (fun m => Mark.text m ++ Hints.get_match_suffix args)
                                     (Hints.chosen h);
                               sel_programs := HintsCLIOptions.program args;
                               sel_multiple_joiner := HintsCLIOptions.multiple_joiner args;
                               sel_customize_processing :=
                                 HintsCLIOptions.customize_processing args;
                               sel_type := HintsCLIOptions.type args;
                               sel_groupdicts := map Mark.groupdict (Hints.chosen h);
                               sel_extra_cli_args := extra_cli_args;
                               sel_linenum_action := HintsCLIOptions.linenum_action args |}
                    else Raise (SystemExit (if HintsCLIOptions.multiple args then 0 else 1)),
                    cmds0 ++ out
                      ++ [quit_loop (if HintsCLIOptions.multiple args then 0 else 1)])).
  { unfold run_loop, Loop_loop. rewrite Hinit. cbn [mbind result_bind].
    rewrite (feed_app events [key (key_event ESCAPE)] h0 h out Hfeed).
    cbn [feed dispatch]. rewrite Hesc. cbn [mbind result_bind quit_code].
    unfold Hints.text_matches, Hints.groupdicts. rewrite Hsuffix.
    destruct (HintsCLIOptions.multiple args); simpl.
    - by rewrite andb_true_r.
    - by rewrite andb_false_r. }
  split; [exact Hesc |]. split; [exact Hrun |].
  rewrite Hrun. simpl.
  by destruct (HintsCLIOptions.multiple args), (bool_decide (Hints.chosen h <> [])).
Qed.

(** Scenario D: of three marks, [baz] (hint 1) and then [foo] (hint 3)
    are resolved, and Escape ends the selection. *)
Lemma escape_ends_loop_witness :
  exists h0 cmds0 h out,
    @Hints.initialize example_host
      (@Hints.init example_host scenario_D_text scenario_D_marks
         (marks_index_map scenario_D_marks) (example_args (py "...") [] true))
    = Ok (h0, cmds0) /\
    @feed example_host h0 [text_event (py "1") false; text_event (py "3") false]
    = Ok (h, None, out) /\
    fst (@run_loop example_host (example_args (py "...") [] true) scenario_D_text
           scenario_D_marks (marks_index_map scenario_D_marks) []
           [text_event (py "1") false; text_event (py "3") false;
            key (key_event ESCAPE)])
    = Ok {| sel_match := [py "baz "; py "foo "];
            sel_programs := [];
            sel_multiple_joiner := py "auto";
            sel_customize_processing := [];
            sel_type := py "regex";
            sel_groupdicts := [[]; []];
            sel_extra_cli_args := [];
            sel_linenum_action := py "self" |} /\
    exit_status
      (fst (@run_loop example_host (example_args (py "...") [] true) scenario_D_text
              scenario_D_marks (marks_index_map scenario_D_marks) []
              [text_event (py "1") false; text_event (py "3") false;
               key (key_event ESCAPE)]))
    = Some 0.
Proof.
  eexists _, _, _, _.
  split; [vm_compute; reflexivity |].
  split; [vm_compute; reflexivity |].
  pose proof (@escape_ends_loop example_host (example_args (py "...") [] true)
                scenario_D_text scenario_D_marks (marks_index_map scenario_D_marks) []
                [text_event (py "1") false; text_event (py "3") false]) as Hesc.
  edestruct Hesc as (_ & Hrun & Hexit); [vm_compute; reflexivity .. |].
  split; [| exact Hexit].
  change ([text_event (py "1") false; text_event (py "3") false; key (key_event ESCAPE)])
    with ([text_event (py "1") false; text_event (py "3") false]
            ++ [key (key_event ESCAPE)]).
  rewrite Hrun. vm_compute. reflexivity.
Defined.

(** Escape in single mode: nothing is returned, the status is 1. *)
Example escape_cancels :
  fst (@run_loop example_host (example_args (py "...") [] false) scenario_D_text
         scenario_D_marks (marks_index_map scenario_D_marks) []
         [key (key_event ESCAPE)])
  = Raise (SystemExit 1).
Proof. vm_compute. reflexivity. Qed.

(** ** [run] *)

(** C7, as the code has it. When no mark is found, [run] shows the
    message ['No ... found, press Enter to quit.'] and never enters the
    loop: nothing is sent to the terminal and nothing is rendered,
    whatever the replies and the waiting events. Once the prompt is
    answered [run] returns nothing and the process ends with status 0.
    (At the end of input the prompt raises [EOFError] inside the [try],
    and [run] ends through its [except] clause.) *)
Theorem run_no_marks `{Host} (args : HintsCLIOptions.t) (text : str)
  (extra_cli_args : list str) (replies : list reply) (events : list event)
  (args' : HintsCLIOptions.t) (text' : str) :
  find_marks args text extra_cli_args = Ok (args', text', []) ->
  (exists rest,
     snd (run args text extra_cli_args replies events)
     = asked (Py.format1 (gettext (py "No {} found, press Enter to quit."))
                (if Py.eqs (HintsCLIOptions.type args') (py "url")
                 then py "URLs" else py "matches")) :: rest) /\
  (forall c, sent c ∉ snd (run args text extra_cli_args replies events)) /\
  (forall line rest,
     replies = Line line :: rest ->
     run args text extra_cli_args replies events
     = (Ok None,
        [asked (Py.format1 (gettext (py "No {} found, press Enter to quit."))
                  (if Py.eqs (HintsCLIOptions.type args') (py "url")
                   then py "URLs" else py "matches"))]) /\
     exit_status (fst (run args text extra_cli_args replies events)) = Some 0).
Proof.
  intros Hfind.
  set (prompt := Py.format1 (gettext (py "No {} found, press Enter to quit."))
                   (if Py.eqs (HintsCLIOptions.type args') (py "url")
                    then py "URLs" else py "matches")).
  assert (Hrun : run args text extra_cli_args replies events
                 = match input replies with
                   | Ok _ => (Ok None, [asked prompt])
                   | Raise ex => run_except ex (tail replies) [asked prompt]
                   | Diverge => (Diverge, [asked prompt])
                   end).
  { unfold run. rewrite Hfind. reflexivity. }
  assert (Hexcept : forall ex,
            snd (run_except ex (tail replies) [asked prompt]) = [asked prompt] \/
            snd (run_except ex (tail replies) [asked prompt])
            = [asked prompt; traceback; asked (py "Press Enter to quit.")]).
  { intros ex. unfold run_except. destruct (is_Exception ex); [right | by left].
    by destruct (input (tail replies)). }
  assert (Hio : snd (run args text extra_cli_args replies events) = [asked prompt] \/
                snd (run args text extra_cli_args replies events)
                = [asked prompt; traceback; asked (py "Press Enter to quit.")]).
  { rewrite Hrun. destruct (input replies) as [l | ex |]; [by left | | by left].
    apply Hexcept. }
  split; [| split].
  - destruct Hio as [-> | ->]; eexists; reflexivity.
  - intros c Hin.
    destruct Hio as [Hio | Hio]; rewrite Hio in Hin;
      repeat (apply elem_of_cons in Hin as [Hin | Hin]; [discriminate |]);
      by apply elem_of_nil in Hin.
  - intros line rest ->. rewrite Hrun. simpl. by split.
Qed.

Lemma run_no_marks_witness :
  @find_marks example_host (example_args (py "xyz") [] false) (py "hello") []
  = Ok (example_args (py "xyz") [] false, py "hello" ++ replicate 15 NUL, []) /\
  @run example_host (example_args (py "xyz") [] false) (py "hello") []
    [Line []] [text_event (py "1") false]
  = (Ok None, [asked (py "No matches found, press Enter to quit.")]) /\
  exit_status
    (fst (@run example_host (example_args (py "xyz") [] false) (py "hello") []
            [Line []] [text_event (py "1") false]))
  = Some 0 /\
  forall c,
    sent c ∉ snd (@run example_host (example_args (py "xyz") [] false) (py "hello") []
                    [EndOfInput; Line []] [text_event (py "1") false]).
Proof.
  assert (Hfind : @find_marks example_host (example_args (py "xyz") [] false)
                    (py "hello") []
                  = Ok (example_args (py "xyz") [] false,
                        py "hello" ++ replicate 15 NUL, []))
    by (vm_compute; reflexivity).
  split; [exact Hfind |].
  destruct (@run_no_marks example_host (example_args (py "xyz") [] false) (py "hello")
              [] [Line []] [text_event (py "1") false] _ _ Hfind)
    as (_ & _ & Hanswered).
  destruct (Hanswered [] [] eq_refl) as [Hrun Hexit].
  split; [rewrite Hrun; vm_compute; reflexivity |]. split; [exact Hexit |].
  exact (proj1 (proj2 (@run_no_marks example_host (example_args (py "xyz") [] false)
                         (py "hello") [] [EndOfInput; Line []]
                         [text_event (py "1") false] _ _ Hfind))).
Defined.

(** No mark is found and the prompt meets the end of input: the process
    ends with status 1, not 0. *)
Lemma run_no_marks_counterexample :
  @find_marks example_host (example_args (py "xyz") [] false) (py "hello") []
  = Ok (example_args (py "xyz") [] false, py "hello" ++ replicate 15 NUL, []) /\
  fst (@run example_host (example_args (py "xyz") [] false) (py "hello") []
         [EndOfInput; Line []] [])
  = Raise (SystemExit 1) /\
  exit_status
    (fst (@run example_host (example_args (py "xyz") [] false) (py "hello") []
            [EndOfInput; Line []] []))
  <> Some 0.
Proof. vm_compute. repeat split. discriminate. Qed.

(** When the prompt meets the end of input instead of an answer,
    [input] raises [EOFError] inside the [try], and [run] ends through
    its [except] clause with status 1. *)
Example run_no_marks_end_of_input :
  @run example_host (example_args (py "xyz") [] false) (py "hello") []
    [EndOfInput; Line []] []
  = (Raise (SystemExit 1),
     [asked (py "No matches found, press Enter to quit."); traceback;
      asked (py "Press Enter to quit.")]).
Proof. vm_compute. reflexivity. Qed.

(** * Further properties

    Properties of the code beyond those above, section by section. *)

(** ** Hint codec *)

(** Every value of the dictionary of [decode_hint] is a position of its
    key in the alphabet. *)
Lemma foldl_insert_value (l : str) (i : Z) (m : gmap ascii Z) (c : ascii) (v : Z) :
  foldl (fun m '(i, c) => <[c := i]> m) m (enumerate_from i l) !! c = Some v ->
  (i <= v < i + Py.len l /\ l !! Z.to_nat (v - i) = Some c) \/ m !! c = Some v.
Proof.
  revert i m. induction l as [| x l IH]; intros i m Hl; simpl in Hl; [by right |].
  rewrite len_cons. pose proof (len_nonneg l).
  destruct (IH _ _ Hl) as [[Hr Hx] | Hm].
  - left. split; [lia |].
    replace (Z.to_nat (v - i)) with (S (Z.to_nat (v - (i + 1)))) by lia. exact Hx.
  - destruct (decide (x = c)) as [-> | Hne].
    + rewrite lookup_insert_eq in Hm. injection Hm as ->. left.
      split; [lia |]. by rewrite Z.sub_diag.
    + rewrite lookup_insert_ne in Hm by done. by right.
Qed.

Lemma alphabet_index_map_value (alphabet : str) (c : ascii) (v : Z) :
  alphabet_index_map alphabet !! c = Some v ->
  0 <= v < Py.len alphabet /\ alphabet !! Z.to_nat v = Some c.
Proof.
  intros Hl. apply foldl_insert_value in Hl as [[Hr Hx] | Hm].
  - split; [lia |]. by rewrite Z.sub_0_r in Hx.
  - by rewrite lookup_empty in Hm.
Qed.

Lemma decode_loop_bounds (alphabet x : str) (acc v : Z) :
  decode_loop (alphabet_index_map alphabet) (Py.len alphabet) x acc = Ok v ->
  0 <= acc ->
  acc * Py.len alphabet ^ Py.len x <= v < (acc + 1) * Py.len alphabet ^ Py.len x.
Proof.
  revert acc. induction x as [| c x IH]; intros acc Hd Hacc; simpl in Hd.
  - injection Hd as ->. change (Py.len []) with 0. lia.
  - destruct (alphabet_index_map alphabet !! c) as [k |] eqn:Hk; [| discriminate].
    apply alphabet_index_map_value in Hk as [Hk _].
    apply IH in Hd; [| nia].
    rewrite len_cons, Z.pow_add_r, Z.pow_1_r by (try apply len_nonneg; lia).
    assert (0 <= Py.len alphabet ^ Py.len x) by (apply Z.pow_nonneg; lia).
    nia.
Qed.

(** [decode_hint] returns an index below [base ^ len(label)], and
    never a negative one. *)
Theorem decode_hint_bounds (x alphabet : str) (v : Z) :
  decode_hint x alphabet = Ok v -> 0 <= v < Py.len alphabet ^ Py.len x.
Proof.
  intros Hd. apply decode_loop_bounds in Hd; lia.
Qed.

Lemma decode_hint_bounds_witness :
  decode_hint (py "1z") DEFAULT_HINT_ALPHABET = Ok 71 /\
  0 <= 71 < Py.len DEFAULT_HINT_ALPHABET ^ Py.len (py "1z").
Proof.
  assert (H : decode_hint (py "1z") DEFAULT_HINT_ALPHABET = Ok 71)
    by (vm_compute; reflexivity).
  split; [exact H |].
  exact (decode_hint_bounds (py "1z") DEFAULT_HINT_ALPHABET 71 H).
Defined.

Lemma decode_loop_key_error (alphabet x : str) (i : Z) :
  ~ Forall (fun c => c ∈ alphabet) x ->
  decode_loop (alphabet_index_map alphabet) (Py.len alphabet) x i = Raise KeyError.
Proof.
  revert i. induction x as [| c x IH]; intros i Hx; simpl.
  - exfalso. apply Hx. constructor.
  - destruct (alphabet_index_map alphabet !! c) as [k |] eqn:Hk; [| reflexivity].
    apply IH. intros Hall. apply Hx. constructor; [| exact Hall].
    apply alphabet_index_map_value in Hk as [_ Hk].
    by apply list_elem_of_lookup_2 in Hk.
Qed.

(** [decode_hint] raises [KeyError] exactly on the labels that hold a
    character outside the alphabet; on every other label it returns an
    index. *)
Theorem decode_hint_key_error (x alphabet : str) :
  (decode_hint x alphabet = Raise KeyError <->
   ~ Forall (fun c => c ∈ alphabet) x) /\
  ((exists i, decode_hint x alphabet = Ok i) <->
   Forall (fun c => c ∈ alphabet) x).
Proof.
  destruct (decide (Forall (fun c => c ∈ alphabet) x)) as [Hall | Hnot].
  - destruct (decode_loop_total alphabet x 0 Hall) as (j & Hj).
    unfold decode_hint. rewrite Hj. split; split; try done.
    by exists j.
  - pose proof (decode_loop_key_error alphabet x 0 Hnot) as Hk.
    unfold decode_hint. rewrite Hk. split; split; try done.
    intros (i & Hi). discriminate.
Qed.

(** The digits the loop of [encode_hint] prepends to a non-empty [res]:
    none for 0, otherwise symbols of the alphabet, the first of them at a
    position other than 0. *)
Lemma encode_loop_digits_shape (alphabet : str) (fuel : nat) (num : Z) (res : str) :
  2 <= Py.len alphabet ->
  res <> [] -> 0 <= num -> (Z.to_nat num + 1 <= fuel)%nat ->
  exists pre,
    encode_loop fuel num (Py.len alphabet) alphabet res = Ok (pre ++ res) /\
    Forall (fun c => c ∈ alphabet) pre /\
    (num = 0 -> pre = []) /\
    (0 < num -> exists k c pre',
        pre = c :: pre' /\ alphabet !! k = Some c /\ (0 < k)%nat).
Proof.
  intros Hb. revert num res.
  induction fuel as [| fuel IH]; intros num res Hres Hnum Hfuel; [lia |].
  simpl. destruct res as [| r res]; [done |]. rewrite eqs_nil_cons. simpl.
  destruct (num >? 0) eqn:Epos.
  - assert (0 < num) by lia.
    destruct (Py.len alphabet =? 0) eqn:Ed; [lia |].
    assert (Hi : 0 <= num mod Py.len alphabet < Py.len alphabet)
      by (apply Z.mod_pos_bound; lia).
    destruct (getitem_in_range alphabet (num mod Py.len alphabet) Hi)
      as (c & -> & Hc). simpl.
    assert (Hq : 0 <= num / Py.len alphabet < num).
    { split; [apply Z.div_pos; lia | apply Z.div_lt; lia]. }
    destruct (IH (num / Py.len alphabet) (c :: r :: res))
      as (pre & Hloop & Hall & Hzero & Hpos); [done | lia | lia |].
    exists (pre ++ [c]). split; [| split; [| split]].
    + rewrite Hloop. by rewrite <- app_assoc.
    + apply Forall_app. split; [exact Hall |].
      constructor; [| constructor]. by apply list_elem_of_lookup_2 in Hc.
    + lia.
    + intros _. destruct (decide (num / Py.len alphabet = 0)) as [Hq0 | Hq0].
      * rewrite (Hzero Hq0). exists (Z.to_nat (num mod Py.len alphabet)), c, [].
        split; [reflexivity |]. split; [exact Hc |].
        pose proof (Z.div_mod num (Py.len alphabet)). lia.
      * destruct Hpos as (k & c' & pre' & -> & Hk & Hk0); [lia |].
        exists k, c', (pre' ++ [c]). by repeat split.
  - exists []. split; [reflexivity |]. split; [constructor |].
    split; [done | lia].
Qed.

Lemma NoDup_lookup_first (alphabet : str) (a0 c : ascii) (k : nat) :
  NoDup alphabet -> alphabet !! 0%nat = Some a0 -> alphabet !! k = Some c ->
  (0 < k)%nat -> c <> a0.
Proof.
  intros Hnd H0 Hk Hpos ->.
  pose proof (NoDup_lookup alphabet 0%nat k a0 Hnd H0 Hk). lia.
Qed.

(** Over an alphabet of two or more distinct characters the label of an
    index [i >= 0] is canonical: it is not empty, written in the
    alphabet, and has no leading first symbol unless it is that symbol
    alone. *)
Theorem encode_hint_canonical (alphabet : str) (i : Z) :
  NoDup alphabet -> 2 <= Py.len alphabet -> 0 <= i ->
  exists label, encode_hint i alphabet = Ok label /\ canonical alphabet label.
Proof.
  intros Hnd Hb Hi. unfold encode_hint.
  replace (Z.to_nat i + 2)%nat with (S (Z.to_nat i + 1)) by lia. simpl.
  destruct (Py.len alphabet =? 0) eqn:Ed; [lia |].
  assert (Hr : 0 <= i mod Py.len alphabet < Py.len alphabet)
    by (apply Z.mod_pos_bound; lia).
  destruct (getitem_in_range alphabet (i mod Py.len alphabet) Hr) as (c & -> & Hc).
  simpl.
  assert (Hq : 0 <= i / Py.len alphabet) by (apply Z.div_pos; lia).
  assert (Hq' : i / Py.len alphabet <= i).
  { apply Z.div_le_upper_bound; nia. }
  destruct (encode_loop_digits_shape alphabet (Z.to_nat i + 1) (i / Py.len alphabet) [c])
    as (pre & -> & Hall & Hzero & Hpos); [done | done | done | lia |].
  exists (pre ++ [c]). split; [reflexivity |].
  assert (Hcin : c ∈ alphabet) by (by apply list_elem_of_lookup_2 in Hc).
  split.
  - apply Forall_app. split; [exact Hall | by repeat constructor].
  - destruct alphabet as [| a0 rest]; [done |].
    destruct (decide (i / Py.len (a0 :: rest) = 0)) as [Hq0 | Hq0].
    + rewrite (Hzero Hq0). simpl. done.
    + destruct Hpos as (k & c' & pre' & -> & Hk & Hk0); [lia |].
      simpl. intros ->. exfalso.
      by apply (NoDup_lookup_first (a0 :: rest) a0 a0 k Hnd eq_refl Hk Hk0).
Qed.

Lemma encode_hint_canonical_witness :
  NoDup DEFAULT_HINT_ALPHABET /\ 2 <= Py.len DEFAULT_HINT_ALPHABET /\ 0 <= 71 /\
  exists label,
    encode_hint 71 DEFAULT_HINT_ALPHABET = Ok label /\
    canonical DEFAULT_HINT_ALPHABET label.
Proof.
  assert (H1 : NoDup DEFAULT_HINT_ALPHABET)
    by (apply (bool_decide_unpack _); vm_compute; exact I).
  assert (H2 : 2 <= Py.len DEFAULT_HINT_ALPHABET) by (vm_compute; discriminate).
  assert (H3 : 0 <= 71) by lia.
  split; [exact H1 |]. split; [exact H2 |]. split; [exact H3 |].
  exact (encode_hint_canonical DEFAULT_HINT_ALPHABET 71 H1 H2 H3).
Defined.

(** Different indices get different labels. *)
Theorem encode_hint_injective (alphabet : str) (i j : Z) :
  NoDup alphabet -> 2 <= Py.len alphabet -> 0 <= i -> 0 <= j -> i <> j ->
  exists li lj,
    encode_hint i alphabet = Ok li /\ encode_hint j alphabet = Ok lj /\ li <> lj.
Proof.
  intros Hnd Hb Hi Hj Hne.
  destruct (encode_loop_decode alphabet Hb (Z.to_nat i + 2) i)
    as (li & Hli & _ & Hdi); [done | lia |].
  destruct (encode_loop_decode alphabet Hb (Z.to_nat j + 2) j)
    as (lj & Hlj & _ & Hdj); [done | lia |].
  exists li, lj. split; [exact Hli |]. split; [exact Hlj |].
  intros ->. specialize (Hdi Hnd). specialize (Hdj Hnd). congruence.
Qed.

Lemma encode_hint_injective_witness :
  NoDup (py "ab") /\ 2 <= Py.len (py "ab") /\ 0 <= 1 /\ 0 <= 2 /\ 1 <> 2 /\
  exists li lj,
    encode_hint 1 (py "ab") = Ok li /\ encode_hint 2 (py "ab") = Ok lj /\ li <> lj.
Proof.
  assert (H1 : NoDup (py "ab")) by (apply (bool_decide_unpack _); vm_compute; exact I).
  assert (H2 : 2 <= Py.len (py "ab")) by (vm_compute; discriminate).
  assert (H3 : 0 <= 1) by lia.
  assert (H4 : 0 <= 2) by lia.
  assert (H5 : 1 <> 2) by lia.
  split; [exact H1 |]. split; [exact H2 |]. split; [exact H3 |]. split; [exact H4 |].
  split; [exact H5 |].
  exact (encode_hint_injective (py "ab") 1 2 H1 H2 H3 H4 H5).
Defined.

(** Fed the value of a string of digits with no leading first symbol, the
    loop of [encode_hint] writes that string back. *)
Lemma encode_loop_of_digits (alphabet : str) (a0 : ascii) (y : str) :
  NoDup alphabet -> 2 <= Py.len alphabet -> alphabet !! 0%nat = Some a0 ->
  forall (res : str) (fuel : nat) (n : Z),
    res <> [] ->
    Forall (fun c => c ∈ alphabet) y ->
    (forall c rest, y = c :: rest -> c <> a0) ->
    decode_loop (alphabet_index_map alphabet) (Py.len alphabet) y 0 = Ok n ->
    (Z.to_nat n + 1 <= fuel)%nat ->
    encode_loop fuel n (Py.len alphabet) alphabet res = Ok (y ++ res).
Proof.
  intros Hnd Hb H0. induction y as [| cl y' IH] using rev_ind;
    intros res fuel n Hres Hall Hlead Hdec Hfuel.
  - simpl in Hdec. injection Hdec as <-.
    destruct fuel as [| fuel]; [lia |]. destruct res as [| r res]; [done |].
    reflexivity.
  - apply Forall_app in Hall as [Hall' Hcl].
    rewrite decode_loop_app in Hdec.
    destruct (decode_loop _ _ y' 0) as [n' | |] eqn:Hd'; [| done | done].
    cbn [mbind option_bind result_bind] in Hdec. simpl in Hdec.
    destruct (alphabet_index_map alphabet !! cl) as [r |] eqn:Hr; [| discriminate].
    injection Hdec as <-.
    pose proof (alphabet_index_map_value alphabet cl r Hr) as [Hrange Hlook].
    pose proof (decode_loop_bounds alphabet y' 0 n' Hd' ltac:(lia)) as Hn'.
    assert (Hpow : 0 < Py.len alphabet ^ Py.len y')
      by (apply Z.pow_pos_nonneg; [lia | apply len_nonneg]).
    assert (Hn'0 : 0 <= n') by lia.
    assert (Hpos : 0 < n' * Py.len alphabet + r).
    { destruct y' as [| c1 rest].
      - simpl in Hd'. injection Hd' as <-.
        assert (r <> 0); [| lia]. intros ->.
        apply (Hlead cl []); [reflexivity |].
        change (Z.to_nat 0) with 0%nat in Hlook. congruence.
      - assert (0 < n'); [| nia].
        simpl in Hd'.
        destruct (alphabet_index_map alphabet !! c1) as [k1 |] eqn:Hk1; [| discriminate].
        pose proof (alphabet_index_map_value alphabet c1 k1 Hk1) as [Hk1r Hk1l].
        assert (k1 <> 0).
        { intros ->. apply (Hlead c1 (rest ++ [cl])); [reflexivity |].
          change (Z.to_nat 0) with 0%nat in Hk1l. congruence. }
        apply decode_loop_bounds in Hd'; [| lia].
        assert (0 < Py.len alphabet ^ Py.len rest)
          by (apply Z.pow_pos_nonneg; [lia | apply len_nonneg]).
        nia. }
    destruct fuel as [| fuel]; [lia |]. simpl.
    destruct res as [| r0 res]; [done |]. rewrite eqs_nil_cons. simpl.
    replace (n' * Py.len alphabet + r >? 0) with true by lia.
    destruct (Py.len alphabet =? 0) eqn:Ed; [lia |].
    assert (Hdiv : (n' * Py.len alphabet + r) / Py.len alphabet = n').
    { symmetry. apply (Z.div_unique _ _ n' r); lia. }
    assert (Hmod : (n' * Py.len alphabet + r) mod Py.len alphabet = r).
    { symmetry. apply (Z.mod_unique _ _ n' r); lia. }
    rewrite Hdiv, Hmod.
    destruct (getitem_in_range alphabet r Hrange) as (c & -> & Hc).
    assert (c = cl) by congruence. subst c. cbn [mbind result_bind].
    rewrite (IH (cl :: r0 :: res) fuel n'); [by rewrite <- app_assoc | done | done | | done |].
    + intros c rest ->. apply (Hlead c (rest ++ [cl])). reflexivity.
    + assert (n' < n' * Py.len alphabet + r) by nia. lia.
Qed.

(** On a canonical label [decode_hint] returns an index whose label is
    the one decoded: encoding undoes decoding. *)
Theorem encode_decode_roundtrip (alphabet x : str) :
  NoDup alphabet -> 2 <= Py.len alphabet -> canonical alphabet x ->
  exists i,
    decode_hint x alphabet = Ok i /\ 0 <= i /\ encode_hint i alphabet = Ok x.
Proof.
  intros Hnd Hb [Hall Hlead].
  destruct alphabet as [| a0 alphabet']; [done |].
  destruct (decode_loop_total (a0 :: alphabet') x 0 Hall) as (i & Hi).
  exists i. split; [exact Hi |].
  pose proof (decode_loop_bounds (a0 :: alphabet') x 0 i Hi ltac:(lia)) as Hbound.
  assert (Hpow : 0 <= Py.len (a0 :: alphabet') ^ Py.len x)
    by (apply Z.pow_nonneg; lia).
  split; [lia |].
  destruct x as [| cl x' _] using rev_ind; [done |].
  apply Forall_app in Hall as [Hall' Hcl].
  rewrite decode_loop_app in Hi.
  destruct (decode_loop _ _ x' 0) as [n' | |] eqn:Hd'; [| done | done].
  cbn [mbind result_bind] in Hi. simpl in Hi.
  destruct (alphabet_index_map (a0 :: alphabet') !! cl) as [r |] eqn:Hr; [| discriminate].
  injection Hi as <-.
  pose proof (alphabet_index_map_value _ cl r Hr) as [Hrange Hlook].
  pose proof (decode_loop_bounds _ x' 0 n' Hd' ltac:(lia)) as Hn'.
  assert (Hpow' : 0 <= Py.len (a0 :: alphabet') ^ Py.len x')
    by (apply Z.pow_nonneg; lia).
  assert (Hn'0 : 0 <= n') by lia.
  unfold encode_hint.
  replace (Z.to_nat (n' * Py.len (a0 :: alphabet') + r) + 2)%nat
    with (S (Z.to_nat (n' * Py.len (a0 :: alphabet') + r) + 1)) by lia.
  cbn [encode_loop]. rewrite orb_true_l.
  destruct (Py.len (a0 :: alphabet') =? 0) eqn:Ed; [lia |].
  assert (Hdiv : (n' * Py.len (a0 :: alphabet') + r) / Py.len (a0 :: alphabet') = n').
  { symmetry. apply (Z.div_unique _ _ n' r); lia. }
  assert (Hmod : (n' * Py.len (a0 :: alphabet') + r) mod Py.len (a0 :: alphabet') = r).
  { symmetry. apply (Z.mod_unique _ _ n' r); lia. }
  rewrite Hdiv, Hmod.
  destruct (getitem_in_range (a0 :: alphabet') r Hrange) as (c & -> & Hc).
  assert (c = cl) by congruence. subst c. cbn [mbind result_bind].
  apply (encode_loop_of_digits (a0 :: alphabet') a0 x'); try done.
  - intros c rest ->. simpl in Hlead. intros ->.
    specialize (Hlead eq_refl). by destruct rest.
  - nia.
Qed.

Lemma encode_decode_roundtrip_witness :
  NoDup DEFAULT_HINT_ALPHABET /\ 2 <= Py.len DEFAULT_HINT_ALPHABET /\
  canonical DEFAULT_HINT_ALPHABET (py "1z") /\
  exists i,
    decode_hint (py "1z") DEFAULT_HINT_ALPHABET = Ok i /\ 0 <= i /\
    encode_hint i DEFAULT_HINT_ALPHABET = Ok (py "1z").
Proof.
  assert (H1 : NoDup DEFAULT_HINT_ALPHABET)
    by (apply (bool_decide_unpack _); vm_compute; exact I).
  assert (H2 : 2 <= Py.len DEFAULT_HINT_ALPHABET) by (vm_compute; discriminate).
  assert (H3 : canonical DEFAULT_HINT_ALPHABET (py "1z")).
  { split; [| simpl; discriminate].
    apply (bool_decide_unpack _). vm_compute. exact I. }
  split; [exact H1 |]. split; [exact H2 |]. split; [exact H3 |].
  exact (encode_decode_roundtrip DEFAULT_HINT_ALPHABET (py "1z") H1 H2 H3).
Defined.

(** With an alphabet of one symbol the loop of [encode_hint] never ends
    for a positive index: whatever the fuel, it is used up. *)
Lemma encode_loop_one_symbol (a : ascii) (fuel : nat) (num : Z) (res : str) :
  0 < num -> encode_loop fuel num 1 [a] res = Diverge.
Proof.
  intros Hnum. revert res. induction fuel as [| fuel IH]; intros res; [reflexivity |].
  simpl. replace (num >? 0) with true by lia. rewrite orb_true_r.
  rewrite Z.mod_1_r, Z.div_1_r. simpl. apply IH.
Qed.

(** With a one-symbol alphabet [encode_hint] never returns for a
    positive index: the quotient never shrinks, so the loop goes on
    whatever fuel it is given. *)
Theorem encode_hint_one_symbol (a : ascii) (num : Z) :
  0 < num ->
  (forall fuel, encode_loop fuel num (Py.len [a]) [a] [] = Diverge) /\
  encode_hint num [a] = Diverge.
Proof.
  intros Hnum. split.
  - intros fuel. by apply encode_loop_one_symbol.
  - unfold encode_hint. by apply encode_loop_one_symbol.
Qed.

Lemma encode_hint_one_symbol_witness :
  0 < 1 /\ encode_hint 1 (py "a") = Diverge.
Proof.
  assert (H : 0 < 1) by lia.
  split; [exact H |].
  exact (proj2 (encode_hint_one_symbol "a"%char 1 H)).
Defined.

(** A negative number, which [run] never passes, is encoded as the one
    symbol at position [num mod len(alphabet)]: the loop body runs once. *)
Theorem encode_hint_negative (alphabet : str) (num : Z) :
  2 <= Py.len alphabet -> num < 0 ->
  exists c,
    alphabet !! Z.to_nat (num mod Py.len alphabet) = Some c /\
    encode_hint num alphabet = Ok [c].
Proof.
  intros Hb Hneg. unfold encode_hint.
  replace (Z.to_nat num + 2)%nat with 2%nat by lia. simpl.
  destruct (Py.len alphabet =? 0) eqn:Ed; [lia |].
  assert (Hr : 0 <= num mod Py.len alphabet < Py.len alphabet)
    by (apply Z.mod_pos_bound; lia).
  destruct (getitem_in_range alphabet (num mod Py.len alphabet) Hr) as (c & -> & Hc).
  simpl. exists c. split; [exact Hc |].
  assert (num / Py.len alphabet < 0) by (apply Z.div_lt_upper_bound; lia).
  by replace (num / Py.len alphabet >? 0) with false by lia.
Qed.

Lemma encode_hint_negative_witness :
  2 <= Py.len (py "ab") /\ -1 < 0 /\
  exists c,
    py "ab" !! Z.to_nat (-1 mod Py.len (py "ab")) = Some c /\
    encode_hint (-1) (py "ab") = Ok [c].
Proof.
  assert (H1 : 2 <= Py.len (py "ab")) by (vm_compute; discriminate).
  assert (H2 : -1 < 0) by lia.
  split; [exact H1 |]. split; [exact H2 |].
  exact (encode_hint_negative (py "ab") (-1) H1 H2).
Defined.

(** ** The [Hints] handler *)

Section HandlerSteps.

Context `{Host}.

(** What [draw_screen] changes: the cached text at most. *)
Lemma draw_screen_facts (h h' : Hints.t) (cmds : list command) :
  Hints.draw_screen h = Ok (h', cmds) ->
  exists shown,
    h' = Hints.set_current_text h (Some shown) /\
    cmds = [clear_screen; write shown] /\
    (Hints.current_text h = None ->
     render (Hints.text h) (Hints.current_input h) (Hints.all_marks h)
       (Hints.ignore_mark_indices h) (Hints.alphabet h) = Ok shown) /\
    (forall cached, Hints.current_text h = Some cached -> shown = cached).
Proof.
  unfold Hints.draw_screen. intros Hd.
  destruct (Hints.current_text h) as [cached |] eqn:Hc.
  - cbn [mbind result_bind] in Hd. injection Hd as <- <-.
    exists cached. split; [| split; [reflexivity | split; [done | congruence]]].
    destruct h; simpl in Hc; subst; reflexivity.
  - destruct (render _ _ _ _ _) as [shown | |] eqn:Hr; cbn [mbind result_bind] in Hd;
      [| discriminate | discriminate].
    injection Hd as <- <-. exists shown. by repeat split.
Qed.

(** The [for c in text] loop of [on_text] appends the characters of the
    alphabet, in order, and reports whether there was any. *)
Lemma append_input_spec (text : str) (h : Hints.t) :
  Hints.append_input h text
  = match filter (fun c => c ∈ Hints.alphabet h) text with
    | [] => (h, false)
    | typed => (Hints.set_current_input h (Hints.current_input h ++ typed), true)
    end.
Proof.
  unfold Hints.append_input.
  assert (Hgen : forall (acc : Hints.t) (b : bool),
            foldl (fun '(self, changed) c =>
                     if Py.contains (Hints.alphabet self) c
                     then (Hints.set_current_input self (Hints.current_input self ++ [c]),
                           true)
                     else (self, changed)) (acc, b) text
            = match filter (fun c => c ∈ Hints.alphabet acc) text with
              | [] => (acc, b)
              | typed =>
                  (Hints.set_current_input acc (Hints.current_input acc ++ typed), true)
              end).
  { induction text as [| c text IH]; intros acc b; [reflexivity |].
    cbn [foldl]. rewrite filter_cons. unfold Py.contains.
    case_bool_decide as Hc.
    - rewrite decide_True by done. rewrite IH. cbn [Hints.set_current_input Hints.alphabet
        Hints.current_input].
      destruct (filter _ text) as [| c' typed]; [reflexivity |].
      by rewrite <- app_assoc.
    - rewrite decide_False by done. apply IH. }
  apply Hgen.
Qed.

Lemma matching_marks_values (items : list (Z * Mark)) (alphabet input : str)
  (ms : list Mark) :
  Hints.matching_marks items alphabet input = Ok ms ->
  forall m, m ∈ ms -> exists idx, (idx, m) ∈ items.
Proof.
  revert ms. induction items as [| [idx m0] items IH]; intros ms Hm; simpl in Hm.
  - injection Hm as <-. intros m Hin. by apply elem_of_nil in Hin.
  - destruct (encode_hint idx alphabet) as [hint | |]; cbn [mbind result_bind] in Hm;
      [| discriminate | discriminate].
    destruct (Hints.matching_marks items alphabet input) as [rest | |];
      cbn [mbind result_bind] in Hm; [| discriminate | discriminate].
    injection Hm as <-. intros m Hin.
    assert (Hcase : m = m0 \/ m ∈ rest).
    { destruct (Py.startswith hint input); [| by right].
      by apply elem_of_cons in Hin. }
    destruct Hcase as [-> | Hrest].
    + exists idx. by left.
    + destruct (IH rest eq_refl m Hrest) as (idx' & Hidx'). exists idx'. by right.
Qed.

(** The ways [on_text] can end. *)
Lemma on_text_cases (h h' : Hints.t) (text : str) (paste : bool) (cmds : list command) :
  Hints.on_text h text paste = Ok (h', cmds) ->
  (h' = h /\ cmds = [] /\ filter (fun c => c ∈ Hints.alphabet h) text = []) \/
  (exists typed h1,
     filter (fun c => c ∈ Hints.alphabet h) text = typed /\ typed <> [] /\
     h1 = Hints.set_current_input h (Hints.current_input h ++ typed) /\
     ((Hints.draw_screen (Hints.set_current_text h1 None) = Ok (h', cmds)) \/
      (exists m idx,
         Hints.index_map h !! idx = Some m /\
         ((Hints.multiple h = true /\
           Hints.draw_screen
             (Hints.set_current_text
                (Hints.reset
                   (Hints.set_ignore_mark_indices
                      (Hints.set_chosen h1 (Hints.chosen h ++ [m]))
                      ({[Mark.index m]} ∪ Hints.ignore_mark_indices h))) None)
           = Ok (h', cmds)) \/
          (Hints.multiple h = false /\
           h' = Hints.set_chosen h1 (Hints.chosen h ++ [m]) /\
           cmds = [quit_loop 0]))))).
Proof.
  unfold Hints.on_text. rewrite append_input_spec.
  destruct (filter (fun c => c ∈ Hints.alphabet h) text) as [| c typed] eqn:Hf.
  - intros [= <- <-]. by left.
  - intros Hrun. right.
    exists (c :: typed),
           (Hints.set_current_input h (Hints.current_input h ++ c :: typed)).
    split; [reflexivity |]. split; [discriminate |]. split; [reflexivity |].
    cbn [Hints.set_current_input Hints.alphabet Hints.index_map Hints.current_input]
      in Hrun.
    destruct (Hints.matching_marks _ _ _) as [ms | |] eqn:Hms;
      cbn [mbind result_bind] in Hrun; [| discriminate | discriminate].
    destruct ms as [| m [| m' ms]]; [by left | | by left].
    right.
    destruct (matching_marks_values _ _ _ _ Hms m) as (idx & Hidx); [by left |].
    apply elem_of_map_to_list in Hidx.
    exists m, idx. split; [exact Hidx |].
    cbn [Hints.set_chosen Hints.multiple Hints.chosen Hints.set_current_input
           Hints.ignore_mark_indices] in Hrun.
    destruct (Hints.multiple h).
    + left. split; [reflexivity | exact Hrun].
    + right. injection Hrun as <- <-. by repeat split.
Qed.

End HandlerSteps.

Section HandlerKeys.

Context `{Host}.

(** The ways [on_key] can end. *)
Lemma on_key_cases (h h' : Hints.t) (e : KeyEvent) (cmds : list command) :
  Hints.on_key h e = Ok (h', cmds) ->
  (e = backspace_key /\
   Hints.draw_screen
     (Hints.set_current_text
        (Hints.set_current_input h (Py.slice_to (Hints.current_input h) (-1))) None)
   = Ok (h', cmds)) \/
  (e = enter_key /\ Hints.current_input h <> [] /\
   ((exists idx m,
       decode_hint (Hints.current_input h) (Hints.alphabet h) = Ok idx /\
       Hints.index_map h !! idx = Some m /\
       ((Hints.multiple h = true /\
         Hints.draw_screen
           (Hints.reset
              (Hints.set_ignore_mark_indices
                 (Hints.set_chosen h (Hints.chosen h ++ [m]))
                 ({[idx]} ∪ Hints.ignore_mark_indices h)))
         = Ok (h', cmds)) \/
        (Hints.multiple h = false /\
         h' = Hints.set_ignore_mark_indices
                (Hints.set_chosen h (Hints.chosen h ++ [m]))
                ({[idx]} ∪ Hints.ignore_mark_indices h) /\
         cmds = [quit_loop 0]))) \/
    (decoded_mark h = None /\
     Hints.draw_screen
       (Hints.set_current_text (Hints.set_current_input h []) None)
     = Ok (h', cmds)))) \/
  (e = key_event ESCAPE /\ h' = h /\
   cmds = [quit_loop (if Hints.multiple h then 0 else 1)]) \/
  (e <> backspace_key /\ e <> key_event ESCAPE /\
   (e = enter_key -> Hints.current_input h = []) /\ h' = h /\ cmds = []).
Proof.
  intros Hrun. destruct e as [| | k].
  - left. split; [reflexivity | exact Hrun].
  - unfold Hints.on_key in Hrun.
    destruct (Hints.current_input h) as [| c ci] eqn:Hci.
    + simpl in Hrun. injection Hrun as <- <-.
      right. right. right. by repeat split.
    + right. left. split; [reflexivity |]. split; [discriminate |].
      change (truthy (c :: ci)) with true in Hrun. cbv iota in Hrun.
      unfold Hints.index_map_getitem, decoded_mark in *. rewrite Hci.
      destruct (decode_hint (c :: ci) (Hints.alphabet h)) as [idx | ex |] eqn:Hdec;
        cbn [mbind result_bind] in Hrun.
      * destruct (Hints.index_map h !! idx) as [m |] eqn:Hidx;
          cbn [mbind result_bind is_Exception] in Hrun.
        -- left. exists idx, m. split; [reflexivity |]. split; [exact Hidx |].
           cbn [Hints.multiple Hints.set_ignore_mark_indices Hints.set_chosen
                  Hints.chosen Hints.ignore_mark_indices] in Hrun.
           destruct (Hints.multiple h).
           ++ left. by split.
           ++ right. injection Hrun as <- <-. by repeat split.
        -- right. by split.
      * destruct (decode_loop_raises (alphabet_index_map (Hints.alphabet h))
                    (Py.len (Hints.alphabet h)) (c :: ci) 0) as [_ Hkey].
        rewrite (Hkey ex Hdec) in Hrun. cbn [is_Exception] in Hrun.
        right. by split.
      * discriminate.
  - unfold Hints.on_key in Hrun. simpl in Hrun. destruct k.
    + injection Hrun as <- <-. right. right. left. by repeat split.
    + injection Hrun as <- <-. right. right. right. by repeat split.
    + injection Hrun as <- <-. right. right. right. by repeat split.
    + injection Hrun as <- <-. right. right. right. by repeat split.
Qed.

End HandlerKeys.

(** [on_text] takes no notice of characters outside the alphabet: text
    made of such characters changes nothing and draws nothing. *)
Theorem on_text_ignores_foreign `{Host} (h : Hints.t) (text : str) (paste : bool) :
  Forall (fun c => c ∉ Hints.alphabet h) text ->
  Hints.on_text h text paste = Ok (h, []).
Proof.
  intros Hall. unfold Hints.on_text. rewrite append_input_spec.
  assert (Hf : filter (fun c => c ∈ Hints.alphabet h) text = []).
  { induction Hall as [| c text Hc _ IH]; [reflexivity |].
    rewrite filter_cons. by rewrite decide_False. }
  by rewrite Hf.
Qed.

Lemma on_text_ignores_foreign_witness :
  Forall (fun c => c ∉ Hints.alphabet (example_handler [] true)) (py "A-Z!") /\
  @Hints.on_text example_host (example_handler [] true) (py "A-Z!") false
  = Ok (example_handler [] true, []).
Proof.
  assert (Hall : Forall (fun c => c ∉ Hints.alphabet (example_handler [] true))
                   (py "A-Z!")).
  { apply (bool_decide_unpack _). vm_compute. exact I. }
  split; [exact Hall |].
  exact (@on_text_ignores_foreign example_host (example_handler [] true) (py "A-Z!")
           false Hall).
Defined.

(** Keys that do nothing: Enter while the input is empty, and any key
    event other than the backspace and enter objects whose key is not
    Escape. State and screen stay as they are. *)
Theorem on_key_idle `{Host} (h : Hints.t) (e : KeyEvent) :
  (e = enter_key /\ Hints.current_input h = []) \/
  (exists k, e = key_event k /\ k <> ESCAPE) ->
  Hints.on_key h e = Ok (h, []).
Proof.
  intros [[-> Hci] | (k & -> & Hk)]; unfold Hints.on_key.
  - by rewrite Hci.
  - simpl. by destruct k.
Qed.

Lemma on_key_idle_witness :
  ((enter_key = enter_key /\ Hints.current_input (example_handler [] true) = []) \/
   (exists k, enter_key = key_event k /\ k <> ESCAPE)) /\
  @Hints.on_key example_host (example_handler [] true) enter_key
  = Ok (example_handler [] true, []).
Proof.
  assert (Hc : (enter_key = enter_key /\
                Hints.current_input (example_handler [] true) = []) \/
               (exists k, enter_key = key_event k /\ k <> ESCAPE)).
  { left. split; reflexivity. }
  split; [exact Hc |].
  exact (@on_key_idle example_host (example_handler [] true) enter_key Hc).
Defined.

Lemma slice_to_minus_one {A} (s : list A) :
  Py.slice_to s (-1) = take (length s - 1) s.
Proof.
  unfold Py.slice_to, Py.clamp. simpl. f_equal. unfold Py.len. lia.
Qed.

(** Backspace removes the last character of the input, or leaves an empty
    input empty; it changes neither [chosen] nor [ignore_mark_indices],
    redraws the screen and does not end the loop. *)
Theorem on_key_backspace `{Host} (h : Hints.t) :
  well_formed h ->
  exists h' cmds,
    Hints.on_key h backspace_key = Ok (h', cmds) /\
    Hints.current_input h'
    = take (length (Hints.current_input h) - 1) (Hints.current_input h) /\
    Hints.chosen h' = Hints.chosen h /\
    Hints.ignore_mark_indices h' = Hints.ignore_mark_indices h /\
    redrawn h' cmds /\
    quit_code cmds = None.
Proof.
  intros Hwf. unfold Hints.on_key.
  match goal with
  | |- context [Hints.draw_screen ?x] =>
      destruct (draw_screen_redraws x) as (shown & Hd & Hr); [exact Hwf | reflexivity |]
  end.
  eexists _, _. split; [exact Hd |].
  split; [apply slice_to_minus_one |]. split; [reflexivity |].
  split; [reflexivity |]. split; [exact Hr | reflexivity].
Qed.

Lemma on_key_backspace_witness :
  well_formed (Hints.set_current_input (example_handler [] true) (py "1z")) /\
  exists h' cmds,
    @Hints.on_key example_host
      (Hints.set_current_input (example_handler [] true) (py "1z")) backspace_key
    = Ok (h', cmds) /\
    Hints.current_input h' = py "1" /\
    quit_code cmds = None.
Proof.
  assert (Hwf : well_formed (Hints.set_current_input (example_handler [] true) (py "1z"))).
  { apply (example_handler_well_formed [] true). vm_compute. discriminate. }
  split; [exact Hwf |].
  destruct (@on_key_backspace example_host _ Hwf)
    as (h' & cmds & Hrun & Hci & _ & _ & _ & Hq).
  exists h', cmds. split; [exact Hrun |]. split; [exact Hci | exact Hq].
Defined.

(** Typing a character that resolves nothing and then Backspace brings
    the input back to what it was; [chosen] and [ignore_mark_indices] are
    untouched. *)
Theorem on_text_then_backspace `{Host} (h : Hints.t) (c : ascii) (paste : bool) :
  well_formed h -> c ∈ Hints.alphabet h ->
  length (matching h (Hints.current_input h ++ [c])) <> 1%nat ->
  exists h1 cmds1 h2 cmds2,
    Hints.on_text h [c] paste = Ok (h1, cmds1) /\
    Hints.on_key h1 backspace_key = Ok (h2, cmds2) /\
    Hints.current_input h2 = Hints.current_input h /\
    Hints.chosen h2 = Hints.chosen h /\
    Hints.ignore_mark_indices h2 = Hints.ignore_mark_indices h.
Proof.
  intros Hwf Hc Hlen.
  assert (Hin : Py.contains (Hints.alphabet h) c = true)
    by (unfold Py.contains; by apply bool_decide_eq_true).
  assert (Hrun : exists shown,
            Hints.on_text h [c] paste
            = Ok (Hints.set_current_text
                    (Hints.set_current_input h (Hints.current_input h ++ [c]))
                    (Some shown),
                  [clear_screen; write shown])).
  { unfold Hints.on_text, Hints.append_input. cbn [foldl]. rewrite Hin.
    cbn [Hints.set_current_input Hints.alphabet Hints.index_map Hints.current_input].
    rewrite matching_marks_filter; [| apply Hwf | by apply index_map_items_nonneg].
    fold (matching h (Hints.current_input h ++ [c])). cbn [mbind result_bind].
    set (h1 := Hints.set_current_input h (Hints.current_input h ++ [c])).
    destruct (draw_screen_redraws (Hints.set_current_text h1 None))
      as (shown & Hd & _); [exact Hwf | reflexivity |].
    exists shown.
    destruct (matching h (Hints.current_input h ++ [c])) as [| m [| m' ms]];
      [exact Hd | done | exact Hd]. }
  destruct Hrun as (shown & Hrun).
  match type of Hrun with
  | _ = Ok (?x, _) =>
      destruct (@on_key_backspace _ x Hwf) as (h2 & cmds2 & Hb & Hci & Hch & Hig & _)
  end.
  eexists _, _, h2, cmds2. split; [exact Hrun |]. split; [exact Hb |].
  split; [| split; [exact Hch | exact Hig]].
  rewrite Hci. cbn [Hints.current_input Hints.set_current_text Hints.set_current_input].
  rewrite length_app. simpl.
  replace (length (Hints.current_input h) + 1 - 1)%nat
    with (length (Hints.current_input h)) by lia.
  by rewrite take_app_length.
Qed.

Lemma on_text_then_backspace_witness :
  well_formed (example_handler (py "ab") true) /\
  "b"%char ∈ Hints.alphabet (example_handler (py "ab") true) /\
  length (matching (example_handler (py "ab") true)
            (Hints.current_input (example_handler (py "ab") true) ++ ["b"%char]))
  <> 1%nat /\
  exists h1 cmds1 h2 cmds2,
    @Hints.on_text example_host (example_handler (py "ab") true) ["b"%char] false
    = Ok (h1, cmds1) /\
    @Hints.on_key example_host h1 backspace_key = Ok (h2, cmds2) /\
    Hints.current_input h2 = Hints.current_input (example_handler (py "ab") true).
Proof.
  assert (Hwf : well_formed (example_handler (py "ab") true)).
  { apply example_handler_well_formed. vm_compute. discriminate. }
  assert (Hc : "b"%char ∈ Hints.alphabet (example_handler (py "ab") true)).
  { apply (bool_decide_unpack _). vm_compute. exact I. }
  assert (Hl : length (matching (example_handler (py "ab") true)
                         (Hints.current_input (example_handler (py "ab") true)
                            ++ ["b"%char])) <> 1%nat).
  { vm_compute. discriminate. }
  split; [exact Hwf |]. split; [exact Hc |]. split; [exact Hl |].
  destruct (@on_text_then_backspace example_host _ "b"%char false Hwf Hc Hl)
    as (h1 & cmds1 & h2 & cmds2 & H1 & H2 & H3 & _).
  exists h1, cmds1, h2, cmds2. split; [exact H1 |]. split; [exact H2 | exact H3].
Defined.

Section HandlerInvariants.

Context `{Host}.

Lemma draw_screen_keeps (h h' : Hints.t) (cmds : list command) :
  Hints.draw_screen h = Ok (h', cmds) ->
  Hints.chosen h' = Hints.chosen h /\
  Hints.ignore_mark_indices h' = Hints.ignore_mark_indices h /\
  Hints.current_input h' = Hints.current_input h /\
  quit_code cmds = None.
Proof.
  intros Hd. apply draw_screen_facts in Hd as (shown & -> & -> & _). by repeat split.
Qed.

End HandlerInvariants.

(** In multiple mode typing never ends the loop, and a key ends it only
    when it is Escape, with code 0 and the handler left as it is. *)
Theorem multiple_quits_on_escape_only `{Host} (h : Hints.t) :
  Hints.multiple h = true ->
  (forall text paste h' cmds,
     Hints.on_text h text paste = Ok (h', cmds) -> quit_code cmds = None) /\
  (forall e h' cmds code,
     Hints.on_key h e = Ok (h', cmds) -> quit_code cmds = Some code ->
     e = key_event ESCAPE /\ code = 0 /\ h' = h).
Proof.
  intros Hmul. split.
  - intros text paste h' cmds Hrun.
    apply on_text_cases in Hrun
      as [(_ & -> & _) | (typed & h1 & _ & _ & _ & [Hd | (m & idx & _ & [[_ Hd] | [Hs _]])])].
    + reflexivity.
    + by apply draw_screen_keeps in Hd as (_ & _ & _ & Hq).
    + by apply draw_screen_keeps in Hd as (_ & _ & _ & Hq).
    + congruence.
  - intros e h' cmds code Hrun Hq.
    apply on_key_cases in Hrun
      as [[_ Hd] | [(_ & _ & [(idx & m & _ & _ & [[_ Hd] | [Hs _]]) | [_ Hd]])
                   | [(-> & -> & ->) | (_ & _ & _ & _ & ->)]]].
    + apply draw_screen_keeps in Hd as (_ & _ & _ & Hn). congruence.
    + apply draw_screen_keeps in Hd as (_ & _ & _ & Hn). congruence.
    + congruence.
    + apply draw_screen_keeps in Hd as (_ & _ & _ & Hn). congruence.
    + rewrite Hmul in Hq. simpl in Hq. injection Hq as <-. by repeat split.
    + discriminate.
Qed.

Lemma multiple_quits_on_escape_only_witness :
  Hints.multiple (example_handler [] true) = true /\
  forall text paste h' cmds,
    @Hints.on_text example_host (example_handler [] true) text paste = Ok (h', cmds) ->
    quit_code cmds = None.
Proof.
  assert (Hm : Hints.multiple (example_handler [] true) = true) by reflexivity.
  split; [exact Hm |].
  exact (proj1 (@multiple_quits_on_escape_only example_host _ Hm)).
Defined.

(** In single mode a mark is chosen exactly when the loop is told to quit
    with code 0: typing or a key either leaves [chosen] alone and does not
    quit with 0, or appends one mark and sends [quit_loop(0)] and nothing
    else. *)
Theorem single_choice_quits `{Host} (h : Hints.t) :
  Hints.multiple h = false ->
  (forall text paste h' cmds,
     Hints.on_text h text paste = Ok (h', cmds) ->
     (Hints.chosen h' = Hints.chosen h /\ quit_code cmds = None) \/
     (exists m, Hints.chosen h' = Hints.chosen h ++ [m] /\ cmds = [quit_loop 0])) /\
  (forall e h' cmds,
     Hints.on_key h e = Ok (h', cmds) ->
     (Hints.chosen h' = Hints.chosen h /\ quit_code cmds <> Some 0) \/
     (exists m, Hints.chosen h' = Hints.chosen h ++ [m] /\ cmds = [quit_loop 0])).
Proof.
  intros Hmul. split.
  - intros text paste h' cmds Hrun.
    apply on_text_cases in Hrun
      as [(-> & -> & _) | (typed & h1 & _ & _ & -> & [Hd | (m & idx & _ & [[Ht _] | (_ & -> & ->)])])].
    + by left.
    + left. apply draw_screen_keeps in Hd as (Hch & _ & _ & Hq). by split.
    + congruence.
    + right. by exists m.
  - intros e h' cmds Hrun.
    apply on_key_cases in Hrun
      as [[_ Hd] | [(_ & _ & [(idx & m & _ & _ & [[Ht _] | (_ & -> & ->)]) | [_ Hd]])
                   | [(-> & -> & ->) | (_ & _ & _ & -> & ->)]]].
    + left. apply draw_screen_keeps in Hd as (Hch & _ & _ & Hq).
      split; [exact Hch | congruence].
    + congruence.
    + right. by exists m.
    + left. apply draw_screen_keeps in Hd as (Hch & _ & _ & Hq).
      split; [exact Hch | congruence].
    + left. rewrite Hmul. split; [reflexivity | discriminate].
    + left. split; [reflexivity | discriminate].
Qed.

Lemma single_choice_quits_witness :
  Hints.multiple (example_handler [] false) = false /\
  forall text paste h' cmds,
    @Hints.on_text example_host (example_handler [] false) text paste = Ok (h', cmds) ->
    (Hints.chosen h' = Hints.chosen (example_handler [] false) /\
     quit_code cmds = None) \/
    (exists m, Hints.chosen h' = Hints.chosen (example_handler [] false) ++ [m] /\
               cmds = [quit_loop 0]).
Proof.
  assert (Hm : Hints.multiple (example_handler [] false) = false) by reflexivity.
  split; [exact Hm |].
  exact (proj1 (@single_choice_quits example_host _ Hm)).
Defined.

(** A text or key event never removes a selection: [chosen] gains at most
    one mark, which is a value of [index_map], and
    [ignore_mark_indices] only grows. *)
Theorem selections_grow `{Host} (h h' : Hints.t) (text : str) (paste : bool)
  (e : KeyEvent) (cmds : list command) :
  Hints.on_text h text paste = Ok (h', cmds) \/ Hints.on_key h e = Ok (h', cmds) ->
  exists l,
    Hints.chosen h' = Hints.chosen h ++ l /\
    (length l <= 1)%nat /\
    Forall (fun m => exists idx, Hints.index_map h !! idx = Some m) l /\
    Hints.ignore_mark_indices h ⊆ Hints.ignore_mark_indices h'.
Proof.
  assert (Hsame : forall h0 : Hints.t,
            Hints.chosen h' = Hints.chosen h0 ->
            Hints.chosen h0 = Hints.chosen h ->
            Hints.ignore_mark_indices h' = Hints.ignore_mark_indices h0 ->
            Hints.ignore_mark_indices h0 = Hints.ignore_mark_indices h ->
            exists l,
              Hints.chosen h' = Hints.chosen h ++ l /\ (length l <= 1)%nat /\
              Forall (fun m => exists idx, Hints.index_map h !! idx = Some m) l /\
              Hints.ignore_mark_indices h ⊆ Hints.ignore_mark_indices h').
  { intros h0 H1 H2 H3 H4. exists []. rewrite app_nil_r. split; [congruence |].
    split; [simpl; lia |]. split; [constructor |]. rewrite H3, H4. done. }
  assert (Hone : forall (h0 : Hints.t) m idx s,
            Hints.index_map h !! idx = Some m ->
            Hints.chosen h' = Hints.chosen h0 ->
            Hints.chosen h0 = Hints.chosen h ++ [m] ->
            Hints.ignore_mark_indices h' = Hints.ignore_mark_indices h0 ->
            Hints.ignore_mark_indices h0 = s ∪ Hints.ignore_mark_indices h ->
            exists l,
              Hints.chosen h' = Hints.chosen h ++ l /\ (length l <= 1)%nat /\
              Forall (fun m => exists idx, Hints.index_map h !! idx = Some m) l /\
              Hints.ignore_mark_indices h ⊆ Hints.ignore_mark_indices h').
  { intros h0 m idx s Hm H1 H2 H3 H4. exists [m]. split; [congruence |].
    split; [simpl; lia |]. split; [repeat constructor; by exists idx |].
    rewrite H3, H4. apply union_subseteq_r. }
  intros [Hrun | Hrun].
  - apply on_text_cases in Hrun
      as [(-> & _ & _) | (typed & h1 & _ & _ & -> & [Hd | (m & idx & Hm & [[_ Hd] | (_ & -> & _)])])].
    + by apply (Hsame h).
    + apply draw_screen_keeps in Hd as (Hch & Hig & _ & _).
      by apply (Hsame _ Hch eq_refl Hig eq_refl).
    + apply draw_screen_keeps in Hd as (Hch & Hig & _ & _).
      by apply (Hone _ m idx {[Mark.index m]} Hm Hch eq_refl Hig eq_refl).
    + apply (Hone _ m idx ∅ Hm eq_refl eq_refl eq_refl). simpl.
      symmetry. apply (left_id_L ∅ (∪)).
  - apply on_key_cases in Hrun
      as [[_ Hd] | [(_ & _ & [(idx & m & _ & Hm & [[_ Hd] | (_ & -> & _)]) | [_ Hd]])
                   | [(_ & -> & _) | (_ & _ & _ & -> & _)]]].
    + apply draw_screen_keeps in Hd as (Hch & Hig & _ & _).
      by apply (Hsame _ Hch eq_refl Hig eq_refl).
    + apply draw_screen_keeps in Hd as (Hch & Hig & _ & _).
      by apply (Hone _ m idx {[idx]} Hm Hch eq_refl Hig eq_refl).
    + by apply (Hone _ m idx {[idx]} Hm eq_refl eq_refl eq_refl eq_refl).
    + apply draw_screen_keeps in Hd as (Hch & Hig & _ & _).
      by apply (Hsame _ Hch eq_refl Hig eq_refl).
    + by apply (Hsame h).
    + by apply (Hsame h).
Qed.

Lemma selections_grow_witness :
  exists h' cmds,
    (@Hints.on_text example_host (example_handler [] true) (py "1") false
     = Ok (h', cmds) \/
     @Hints.on_key example_host (example_handler [] true) enter_key = Ok (h', cmds)) /\
    exists l,
      Hints.chosen h' = Hints.chosen (example_handler [] true) ++ l /\
      (length l <= 1)%nat.
Proof.
  eexists _, _.
  assert (Hrun : @Hints.on_text example_host (example_handler [] true) (py "1") false
                 = Ok (_, _)) by (vm_compute; reflexivity).
  split; [left; exact Hrun |].
  destruct (@selections_grow example_host _ _ (py "1") false enter_key _
              (or_introl Hrun)) as (l & Hl & Hlen & _).
  exists l. split; [exact Hl | exact Hlen].
Defined.

(** Once drawn, the screen text is kept: drawing again, as a resize does,
    sends the same text without rendering and changes nothing. *)
Theorem draw_screen_cached `{Host} (h h' : Hints.t) (cmds : list command) :
  Hints.draw_screen h = Ok (h', cmds) ->
  Hints.draw_screen h' = Ok (h', cmds) /\
  Hints.on_resize h' = Ok (h', cmds) /\
  exists shown, Hints.current_text h' = Some shown /\ cmds = [clear_screen; write shown].
Proof.
  intros Hd. apply draw_screen_facts in Hd as (shown & -> & -> & _).
  split; [reflexivity |]. split; [reflexivity |]. by exists shown.
Qed.

Lemma draw_screen_cached_witness :
  exists h' cmds,
    @Hints.draw_screen example_host (example_handler [] true) = Ok (h', cmds) /\
    @Hints.on_resize example_host h' = Ok (h', cmds).
Proof.
  eexists _, _.
  assert (Hd : @Hints.draw_screen example_host (example_handler [] true) = Ok (_, _))
    by (vm_compute; reflexivity).
  split; [exact Hd |].
  exact (proj1 (proj2 (@draw_screen_cached example_host _ _ _ Hd))).
Defined.

(** No text or key event changes what [__init__] set up: the text, the
    index map, the alphabet, the marks, the options, the mode and the
    suffix added to returned matches. *)
Theorem handlers_keep_setup `{Host} (h h' : Hints.t) (text : str) (paste : bool)
  (e : KeyEvent) (cmds : list command) :
  Hints.on_text h text paste = Ok (h', cmds) \/ Hints.on_key h e = Ok (h', cmds) ->
  same_setup h h'.
Proof.
  intros [Hrun | Hrun].
  - by apply (dispatch_same_setup h h' (text_event text paste) cmds).
  - by apply (dispatch_same_setup h h' (key e) cmds).
Qed.

Lemma handlers_keep_setup_witness :
  exists h' cmds,
    (@Hints.on_text example_host (example_handler [] true) (py "1") false
     = Ok (h', cmds) \/
     @Hints.on_key example_host (example_handler [] true) enter_key = Ok (h', cmds)) /\
    same_setup (example_handler [] true) h'.
Proof.
  eexists _, _.
  assert (Hrun : @Hints.on_text example_host (example_handler [] true) (py "1") false
                 = Ok (_, _)) by (vm_compute; reflexivity).
  split; [left; exact Hrun |].
  exact (@handlers_keep_setup example_host _ _ (py "1") false enter_key _
           (or_introl Hrun)).
Defined.

(** ** Overlay renderer *)

Section Render.

Context `{Host}.

Lemma render_marks_app (a b : list Mark) (text current_input : str)
  (ignore_mark_indices : gset Z) (alphabet : str) :
  render_marks (a ++ b) text current_input ignore_mark_indices alphabet
  = render_marks a text current_input ignore_mark_indices alphabet
      ≫= fun t => render_marks b t current_input ignore_mark_indices alphabet.
Proof.
  revert text. induction a as [| m a IH]; intros text; simpl; [reflexivity |].
  case_bool_decide; [apply IH |].
  destruct (highlight_mark m _ current_input alphabet); cbn [mbind result_bind];
    [apply IH | reflexivity | reflexivity].
Qed.

Lemma render_marks_ignored (marks : list Mark) (text current_input : str)
  (ignore_mark_indices : gset Z) (alphabet : str) :
  Forall (fun m => Mark.index m ∈ ignore_mark_indices) marks ->
  render_marks marks text current_input ignore_mark_indices alphabet = Ok text.
Proof.
  induction 1 as [| m marks Hm _ IH]; simpl; [reflexivity |].
  by rewrite bool_decide_eq_true_2.
Qed.

Lemma laid_out_bounds (text : str) (pos : Z) (marks : list Mark) :
  laid_out text pos marks -> pos <= Py.len text.
Proof.
  revert pos. induction marks as [| m marks IH]; intros pos; simpl; [done |].
  intros (H1 & H2 & H3). apply IH in H3. lia.
Qed.

Lemma take_slice {A} (t : list A) (a b : Z) :
  0 <= a <= b -> b <= Py.len t ->
  take (Z.to_nat a) t ++ Py.slice t a b = take (Z.to_nat b) t.
Proof.
  intros Ha Hb. rewrite slice_take_drop by done.
  rewrite <- (take_drop (Z.to_nat a) (take (Z.to_nat b) t)).
  rewrite take_take, skipn_firstn_comm.
  f_equal; f_equal; lia.
Qed.

Lemma slice_of_prefix {A} (t tail : list A) (a b e : Z) :
  0 <= a <= b -> b <= e -> e <= Py.len t ->
  Py.slice (take (Z.to_nat e) t ++ tail) a b = Py.slice t a b.
Proof.
  intros Ha Hb He.
  assert (Hlen : length (take (Z.to_nat e) t) = Z.to_nat e).
  { rewrite length_take. unfold Py.len in He. lia. }
  rewrite !slice_take_drop; try lia.
  2: { rewrite len_app. unfold Py.len at 1. rewrite Hlen.
       pose proof (len_nonneg tail). lia. }
  rewrite drop_app_le by lia. rewrite take_app_le.
  2: { rewrite length_drop. lia. }
  rewrite skipn_firstn_comm, take_take. f_equal. lia.
Qed.

Lemma slice_to_of_prefix {A} (t tail : list A) (a e : Z) :
  0 <= a <= e -> e <= Py.len t ->
  Py.slice_to (take (Z.to_nat e) t ++ tail) a = take (Z.to_nat a) t.
Proof.
  intros Ha He.
  assert (Hlen : length (take (Z.to_nat e) t) = Z.to_nat e).
  { rewrite length_take. unfold Py.len in He. lia. }
  unfold Py.slice_to. rewrite clamp_in_range.
  2: { rewrite len_app. unfold Py.len at 1. rewrite Hlen.
       pose proof (len_nonneg tail). lia. }
  rewrite take_app_le by lia. rewrite take_take. f_equal. lia.
Qed.

Lemma slice_from_of_prefix {A} (t tail : list A) (e : Z) :
  0 <= e -> e <= Py.len t ->
  Py.slice_from (take (Z.to_nat e) t ++ tail) e = tail.
Proof.
  intros He0 He.
  assert (Hlen : length (take (Z.to_nat e) t) = Z.to_nat e).
  { rewrite length_take. unfold Py.len in He. lia. }
  rewrite slice_from_drop by done.
  rewrite drop_app_ge by lia. rewrite Hlen, Nat.sub_diag. reflexivity.
Qed.

(** Splicing from the last mark to the first leaves the text before each
    mark as it was, so the outcome is the overlay written left to right. *)
Lemma render_marks_laid_out (marks : list Mark) (text : str) (pos : Z)
  (current_input : str) (ignore_mark_indices : gset Z) (alphabet : str) :
  0 <= pos -> laid_out text pos marks ->
  render_marks (rev marks) text current_input ignore_mark_indices alphabet
  = overlay_from marks text pos current_input ignore_mark_indices alphabet
      ≫= fun tail => Ok (take (Z.to_nat pos) text ++ tail).
Proof.
  revert pos. induction marks as [| m marks IH]; intros pos Hpos Hlaid.
  - simpl in *. rewrite slice_from_drop by done. by rewrite take_drop.
  - destruct Hlaid as (Hs & Hse & Hrest).
    pose proof (laid_out_bounds _ _ _ Hrest) as Hend.
    cbn [rev]. rewrite render_marks_app. rewrite (IH (Mark.end_ m)) by (done || lia).
    cbn [overlay_from].
    destruct (overlay_from marks text (Mark.end_ m) current_input ignore_mark_indices
                alphabet) as [rest | ex |]; cbn [mbind result_bind];
      [| reflexivity | reflexivity].
    cbn [render_marks]. case_bool_decide as Hig; cbn [mbind result_bind].
    + rewrite <- (take_slice text pos (Mark.end_ m)) by lia.
      by rewrite <- app_assoc.
    + rewrite slice_of_prefix by lia.
      destruct (highlight_mark m _ current_input alphabet) as [mtext | ex |];
        cbn [mbind result_bind]; [| reflexivity | reflexivity].
      rewrite slice_to_of_prefix, slice_from_of_prefix by lia.
      rewrite <- (take_slice text pos (Mark.start m)) by lia.
      by rewrite <- app_assoc.
Qed.

End Render.

(** Marks whose index is in [ignore_mark_indices] are left as plain text:
    when every mark is ignored, [render] only removes the filler, turns
    newlines into carriage return and newline, and strips trailing
    whitespace, whatever the input and the alphabet. *)
Theorem render_all_ignored `{Host} (text current_input : str) (all_marks : list Mark)
  (ignore_mark_indices : gset Z) (alphabet : str) :
  Forall (fun m => Mark.index m ∈ ignore_mark_indices) all_marks ->
  render text current_input all_marks ignore_mark_indices alphabet
  = Ok (Py.rstrip (Py.replace (Py.replace text NUL []) LF [CR; LF])).
Proof.
  intros Hall. unfold render.
  by rewrite render_marks_ignored by (by apply Forall_rev).
Qed.

Lemma render_all_ignored_witness :
  Forall (fun m => Mark.index m ∈ ({[1; 2]} : gset Z)) [foo; bar] /\
  @render example_host (py "foo x bar" ++ [NUL; NUL; LF] ++ py "y ") (py "1")
    [foo; bar] {[1; 2]} DEFAULT_HINT_ALPHABET
  = Ok (py "foo x bar" ++ [CR; LF] ++ py "y").
Proof.
  assert (Hall : Forall (fun m => Mark.index m ∈ ({[1; 2]} : gset Z)) [foo; bar]).
  { apply (bool_decide_unpack _). vm_compute. exact I. }
  split; [exact Hall |].
  rewrite (@render_all_ignored example_host _ (py "1") [foo; bar] {[1; 2]}
             DEFAULT_HINT_ALPHABET Hall).
  vm_compute. reflexivity.
Defined.

(** Reverse-order splicing is sound: for marks that lie one after the
    other in the text, replacing them from the last to the first gives the
    same text as writing the overlay from left to right, every highlight
    being computed from the original text of its mark. *)
Theorem render_in_order `{Host} (text current_input : str) (all_marks : list Mark)
  (ignore_mark_indices : gset Z) (alphabet : str) :
  laid_out text 0 all_marks ->
  render_marks (rev all_marks) text current_input ignore_mark_indices alphabet
  = overlay_from all_marks text 0 current_input ignore_mark_indices alphabet /\
  render text current_input all_marks ignore_mark_indices alphabet
  = overlay_from all_marks text 0 current_input ignore_mark_indices alphabet
      ≫= fun t => Ok (Py.rstrip (Py.replace (Py.replace t NUL []) LF [CR; LF])).
Proof.
  intros Hlaid.
  assert (Hloop : render_marks (rev all_marks) text current_input ignore_mark_indices
                    alphabet
                  = overlay_from all_marks text 0 current_input ignore_mark_indices
                      alphabet).
  { rewrite (render_marks_laid_out all_marks text 0) by (done || lia).
    by destruct (overlay_from _ _ _ _ _ _). }
  split; [exact Hloop |]. unfold render. by rewrite Hloop.
Qed.

Lemma render_in_order_witness :
  laid_out example_text 0 [foo; bar] /\
  @render_marks example_host (rev [foo; bar]) example_text [] ∅ DEFAULT_HINT_ALPHABET
  = @overlay_from example_host [foo; bar] example_text 0 [] ∅ DEFAULT_HINT_ALPHABET.
Proof.
  assert (Hl : laid_out example_text 0 [foo; bar]).
  { vm_compute. intuition discriminate. }
  split; [exact Hl |].
  exact (proj1 (@render_in_order example_host example_text [] [foo; bar] ∅
                  DEFAULT_HINT_ALPHABET Hl)).
Defined.

(** ** Match extractor and post-processors *)

Lemma getitem_raises {A} (s : list A) (i : Z) (ex : exn) :
  Py.getitem s i = Raise ex -> ex = IndexError.
Proof.
  unfold Py.getitem. destruct ((_ <? 0) || _); [congruence |].
  destruct (s !! _); congruence.
Qed.

Lemma trim_filler_raises (text : str) (s : Z) (fuel : nat) (e : Z) (ex : exn) :
  trim_filler fuel text s e = Raise ex -> ex = IndexError.
Proof.
  revert e. induction fuel as [| fuel IH]; intros e; simpl; [discriminate |].
  destruct (e >? s + 1); [| discriminate].
  destruct (Py.getitem text (e - 1)) as [c | ex' |] eqn:Hc; cbn [mbind result_bind].
  - destruct (Py.eqc c NUL); [apply IH | discriminate].
  - intros [= <-]. by apply getitem_raises in Hc.
  - discriminate.
Qed.

Lemma regex_finditer_step_finishes (hng : bool) (groups minimum_match_length : Z)
  (text : str) (m : re.Match) :
  regex_finditer_step hng groups minimum_match_length text m <> Diverge /\
  forall ex, regex_finditer_step hng groups minimum_match_length text m = Raise ex ->
             ex = IndexError.
Proof.
  unfold regex_finditer_step, re.span.
  destruct (_ <? 0); cbn [mbind result_bind]; [split; [discriminate | congruence] |].
  destruct (re.spans m !! _) as [[s e] |]; cbn [mbind result_bind];
    [| split; [discriminate | congruence]].
  pose proof (trim_filler_fuel text s (Z.to_nat (e - s) + 1) e ltac:(lia)) as Hnd.
  destruct (trim_filler _ text s e) as [e' | ex' |] eqn:Ht; cbn [mbind result_bind].
  - split; [discriminate | intros ex; discriminate].
  - split; [discriminate |]. intros ex [= <-]. by apply trim_filler_raises in Ht.
  - done.
Qed.

(** [regex_finditer] always finishes: for every pattern, minimum length
    and text it returns its spans or raises [IndexError], the latter only
    when the engine hands it a span it cannot index; its [while] loop
    cannot go on for ever. *)
Theorem regex_finditer_finishes (pat : re.Pattern) (minimum_match_length : Z)
  (text : str) :
  regex_finditer pat minimum_match_length text <> Diverge /\
  forall ex, regex_finditer pat minimum_match_length text = Raise ex ->
             ex = IndexError.
Proof.
  unfold regex_finditer.
  induction (re.finditer pat text) as [| m ms [IHd IHr]]; simpl.
  - split; [discriminate | intros ex; discriminate].
  - destruct (regex_finditer_step_finishes (bool_decide (re.groupindex pat <> []))
                (re.groups pat) minimum_match_length text m) as [Hd Hr].
    destruct (regex_finditer_step _ _ _ _ m) as [y | ex' |]; cbn [mbind result_bind].
    + destruct (regex_finditer_loop _ _ _ _ ms) as [ys | ex' |];
        cbn [mbind result_bind].
      * split; [discriminate | intros ex; discriminate].
      * split; [discriminate |]. intros ex [= <-]. by apply IHr.
      * done.
    + split; [discriminate |]. intros ex [= <-]. by apply Hr.
    + done.
Qed.

Lemma url_strip_punctuation_raises (text : str) (fuel : nat) (e : Z) (ex : exn) :
  url_strip_punctuation fuel text e = Raise ex -> ex = IndexError.
Proof.
  revert e. induction fuel as [| fuel IH]; intros e; simpl; [discriminate |].
  destruct (Py.getitem text (e - 1)) as [c | ex' |] eqn:Hc; cbn [mbind result_bind].
  - destruct (_ && (e >? 1)); [apply IH | discriminate].
  - intros [= <-]. by apply getitem_raises in Hc.
  - discriminate.
Qed.

(** The post-processors always finish, and the only exception they can
    raise is [IndexError], for offsets [text] cannot be indexed with:
    [closing_bracket_map] is never asked for a character it lacks. *)
Theorem post_processors_finish (text : str) (s e : Z) :
  Forall (fun f : postprocessor =>
            f text s e <> Diverge /\
            forall ex, f text s e = Raise ex -> ex = IndexError)
         [url; brackets; quotes].
Proof.
  repeat constructor.
  - unfold url.
    match goal with
    | |- context [url_strip_punctuation ?f text ?x] =>
        pose proof (url_strip_punctuation_fuel text f x ltac:(lia));
        destruct (url_strip_punctuation f text x) as [e2 | ex' |]; [| discriminate | done]
    end.
    cbn [mbind result_bind].
    destruct ((s >? 0) && (e2 <=? Py.len text)); cbn [mbind result_bind];
      [| discriminate].
    pose proof (getitem_not_diverge text (s - 1)).
    destruct (Py.getitem text (s - 1)) as [c | ex' |]; cbn [mbind result_bind];
      [| discriminate | done].
    destruct (Py.contains opening_brackets c) eqn:Hopen; [| discriminate].
    destruct (closing_bracket_map_opening c Hopen) as (q & ->). discriminate.
  - intros ex. unfold url.
    match goal with
    | |- context [url_strip_punctuation ?f text ?x] =>
        pose proof (url_strip_punctuation_raises text f x) as Hr;
        destruct (url_strip_punctuation f text x) as [e2 | ex' |];
          [| intros [= <-]; by apply Hr | discriminate]
    end.
    cbn [mbind result_bind].
    destruct ((s >? 0) && (e2 <=? Py.len text)); cbn [mbind result_bind];
      [| discriminate].
    destruct (Py.getitem text (s - 1)) as [c | ex' |] eqn:Hc; cbn [mbind result_bind];
      [| intros [= <-]; by apply getitem_raises in Hc | discriminate].
    destruct (Py.contains opening_brackets c) eqn:Hopen; [| discriminate].
    destruct (closing_bracket_map_opening c Hopen) as (q & ->). discriminate.
  - unfold brackets. destruct ((s <? e) && (e <=? Py.len text)); [| discriminate].
    pose proof (getitem_not_diverge text s).
    destruct (Py.getitem text s) as [c | ex' |]; cbn [mbind result_bind];
      [| discriminate | done].
    destruct (Py.contains (py "({[<") c) eqn:Hopen; [| discriminate].
    pose proof (getitem_not_diverge text (e - 1)).
    destruct (Py.getitem text (e - 1)) as [l | ex' |]; cbn [mbind result_bind];
      [| discriminate | done].
    destruct (closing_bracket_differs c Hopen) as (q & -> & _). discriminate.
  - intros ex. unfold brackets.
    destruct ((s <? e) && (e <=? Py.len text)); [| discriminate].
    destruct (Py.getitem text s) as [c | ex' |] eqn:Hc; cbn [mbind result_bind];
      [| intros [= <-]; by apply getitem_raises in Hc | discriminate].
    destruct (Py.contains (py "({[<") c) eqn:Hopen; [| discriminate].
    destruct (Py.getitem text (e - 1)) as [l | ex' |] eqn:Hl; cbn [mbind result_bind];
      [| intros [= <-]; by apply getitem_raises in Hl | discriminate].
    destruct (closing_bracket_differs c Hopen) as (q & -> & _). discriminate.
  - unfold quotes. destruct ((s <? e) && (e <=? Py.len text)); [| discriminate].
    pose proof (getitem_not_diverge text s).
    destruct (Py.getitem text s) as [c | ex' |]; cbn [mbind result_bind];
      [| discriminate | done].
    destruct (Py.contains [SQUOTE; DQUOTE] c); [| discriminate].
    pose proof (getitem_not_diverge text (e - 1)).
    destruct (Py.getitem text (e - 1)) as [l | ex' |]; cbn [mbind result_bind];
      [discriminate | discriminate | done].
  - intros ex. unfold quotes.
    destruct ((s <? e) && (e <=? Py.len text)); [| discriminate].
    destruct (Py.getitem text s) as [c | ex' |] eqn:Hc; cbn [mbind result_bind];
      [| intros [= <-]; by apply getitem_raises in Hc | discriminate].
    destruct (Py.contains [SQUOTE; DQUOTE] c); [| discriminate].
    destruct (Py.getitem text (e - 1)) as [l | ex' |] eqn:Hl; cbn [mbind result_bind];
      [discriminate | intros [= <-]; by apply getitem_raises in Hl | discriminate].
Qed.




(** The end is two characters before the closing parenthesis at 12,
    wherever the match ended. *)
Example url_cuts_restructured_text :
  url (py "(`ab://c.d`_) e") 1 5 = Ok (1, 10) /\
  url (py "(`ab://c.d`_) e") 1 12 = Ok (1, 10) /\
  url (py "(`ab://c.d`_) e") 1 14 = Ok (1, 10).
Proof. vm_compute. auto. Qed.

(** The span grows: the match [http://a.b] ends at 11, the span [url]
    returns ends at the closing parenthesis, at 13. *)
Example url_extends_span :
  url (py "(http://a.b c) d") 1 11 = Ok (1, 13).
Proof. vm_compute. reflexivity. Qed.

(** The punctuation loop of [url] removes every trailing [.], [,], [?]
    and [!]: what it cuts off is punctuation only, and it stops at a
    character that is not punctuation or when one character is left. *)
Theorem url_strips_trailing_punctuation (text : str) (e : Z) :
  1 <= e -> e <= Py.len text ->
  exists e',
    url_strip_punctuation (Z.to_nat e + 1) text e = Ok e' /\
    1 <= e' <= e /\
    (forall i, e' <= i < e ->
       exists c, Py.getitem text i = Ok c /\ Py.contains (py ".,?!") c = true) /\
    (e' = 1 \/
     exists c, Py.getitem text (e' - 1) = Ok c /\ Py.contains (py ".,?!") c = false).
Proof.
  intros He1 He.
  assert (Hgen : forall fuel e0, 1 <= e0 <= Py.len text -> (Z.to_nat e0 <= fuel)%nat ->
            exists e',
              url_strip_punctuation fuel text e0 = Ok e' /\ 1 <= e' <= e0 /\
              (forall i, e' <= i < e0 ->
                 exists c, Py.getitem text i = Ok c /\
                           Py.contains (py ".,?!") c = true) /\
              (e' = 1 \/
               exists c, Py.getitem text (e' - 1) = Ok c /\
                         Py.contains (py ".,?!") c = false)).
  { induction fuel as [| fuel IH]; intros e0 He0 Hfuel; [lia |]. simpl.
    destruct (getitem_in_range text (e0 - 1)) as (c0 & Hc0 & _); [lia |].
    rewrite Hc0. cbn [mbind result_bind].
    destruct (Py.contains _ c0) eqn:Hp; cbn [andb].
    - destruct (e0 >? 1) eqn:Egt.
      + destruct (IH (e0 - 1)) as (e' & Hrun & Hr & Hcut & Hstop); [lia | lia |].
        exists e'. split; [exact Hrun |]. split; [lia |]. split; [| exact Hstop].
        intros i Hi. destruct (decide (i = e0 - 1)) as [-> | Hne].
        * by exists c0.
        * apply Hcut. lia.
      + exists e0. split; [reflexivity |]. split; [lia |].
        split; [intros i Hi; lia | left; lia].
    - exists e0. split; [reflexivity |]. split; [lia |].
      split; [intros i Hi; lia |]. right. by exists c0. }
  apply Hgen; lia.
Qed.

Lemma url_strips_trailing_punctuation_witness :
  1 <= 9 /\ 9 <= Py.len (py "a.b/c?!..") /\
  exists e',
    url_strip_punctuation (Z.to_nat 9 + 1) (py "a.b/c?!..") 9 = Ok e' /\
    1 <= e' <= 9.
Proof.
  assert (H1 : 1 <= 9) by lia.
  assert (H2 : 9 <= Py.len (py "a.b/c?!..")) by (vm_compute; discriminate).
  split; [exact H1 |]. split; [exact H2 |].
  destruct (url_strips_trailing_punctuation (py "a.b/c?!..") 9 H1 H2)
    as (e' & Hrun & Hr & _).
  exists e'. split; [exact Hrun | exact Hr].
Defined.

Lemma elem_of_replace_nil (s : str) (c x : ascii) :
  x ∈ Py.replace s c [] <-> x ∈ s /\ x <> c.
Proof.
  unfold Py.replace. induction s as [| a s IH]; simpl.
  - split; [intros Hx; by apply elem_of_nil in Hx |].
    intros [Hx _]. by apply elem_of_nil in Hx.
  - unfold Py.eqc at 1. case_bool_decide as Hac; simpl.
    + subst a. rewrite IH, elem_of_cons. split; [intros [Hx Hne]; by auto |].
      intros [[-> | Hx] Hne]; [done | by split].
    + rewrite !elem_of_cons, IH. split.
      * intros [-> | [Hx Hne]]; [split; [by left | congruence] | split; [by right | done]].
      * intros [[-> | Hx] Hne]; [by left | right; by split].
Qed.

Lemma mark_loop_marks (post_processors : list postprocessor) (text : str)
  (found : list (Z * Z * list (str * option str))) :
  forall (idx : Z) (marks : list Mark),
    mark_loop post_processors text idx found = Ok marks ->
    length marks = length found /\
    map Mark.index marks = seqZ idx (Py.len marks) /\
    map Mark.groupdict marks = map snd found /\
    Forall (fun m =>
              (Mark.text m
               = Py.replace (Py.replace (Py.slice text (Mark.start m) (Mark.end_ m))
                               LF []) NUL []) /\
              (NUL ∉ Mark.text m) /\ (LF ∉ Mark.text m)) marks.
Proof.
  induction found as [| [[s e] gd] found IH]; intros idx marks Hm; simpl in Hm.
  - injection Hm as <-. by repeat split.
  - destruct (apply_post_processors post_processors text s e) as [[s' e'] | |];
      cbn [mbind result_bind] in Hm; [| discriminate | discriminate].
    destruct (mark_loop post_processors text (idx + 1) found) as [marks' | |] eqn:Hrest;
      cbn [mbind result_bind] in Hm; [| discriminate | discriminate].
    injection Hm as <-.
    destruct (IH (idx + 1) marks' Hrest) as (Hlen & Hidx & Hgd & Hclean).
    split; [simpl; lia |]. split; [| split].
    + rewrite len_cons, seqZ_cons by (pose proof (len_nonneg marks'); lia).
      simpl. f_equal. rewrite Hidx. f_equal; lia.
    + simpl. by rewrite Hgd.
    + constructor; [| exact Hclean]. simpl. split; [reflexivity |].
      split; intros Hin.
      * apply elem_of_replace_nil in Hin as [_ Hne]. done.
      * apply elem_of_replace_nil in Hin as [Hin _].
        apply elem_of_replace_nil in Hin as [_ Hne]. done.
Qed.

(** The marks [mark] yields are numbered 0, 1, 2, ... in the order of the
    spans [regex_finditer] yields, one mark per span with the groups of
    its match; the text of each mark is its span of the screen text
    without newlines and filler, so it holds neither. *)
Theorem mark_numbers_and_cleans `{Host} (pattern : str)
  (post_processors : list postprocessor) (text : str) (args : HintsCLIOptions.t)
  (marks : list Mark) :
  mark pattern post_processors text args = Ok marks ->
  exists pat found,
    re_compile pattern = Ok pat /\
    regex_finditer pat (HintsCLIOptions.minimum_match_length args) text = Ok found /\
    length marks = length found /\
    map Mark.index marks = seqZ 0 (Py.len marks) /\
    map Mark.groupdict marks = map snd found /\
    Forall (fun m =>
              (Mark.text m
               = Py.replace (Py.replace (Py.slice text (Mark.start m) (Mark.end_ m))
                               LF []) NUL []) /\
              (NUL ∉ Mark.text m) /\ (LF ∉ Mark.text m)) marks.
Proof.
  unfold mark. intros Hm.
  destruct (re_compile pattern) as [pat | |] eqn:Hpat; cbn [mbind result_bind] in Hm;
    [| discriminate | discriminate].
  destruct (regex_finditer pat _ text) as [found | |] eqn:Hfound;
    cbn [mbind result_bind] in Hm; [| discriminate | discriminate].
  exists pat, found. split; [reflexivity |]. split; [exact Hfound |].
  exact (mark_loop_marks post_processors text found 0 marks Hm).
Qed.

Lemma mark_numbers_and_cleans_witness :
  exists marks,
    @mark example_host (py "abc") [] (py "abc x abc") (example_args (py "abc") [] false)
    = Ok marks /\
    map Mark.index marks = seqZ 0 (Py.len marks).
Proof.
  eexists.
  assert (Hm : @mark example_host (py "abc") [] (py "abc x abc")
                 (example_args (py "abc") [] false) = Ok _)
    by (vm_compute; reflexivity).
  split; [exact Hm |].
  destruct (@mark_numbers_and_cleans example_host _ _ _ _ _ Hm)
    as (pat & found & _ & _ & _ & Hidx & _).
  exact Hidx.
Defined.

(** ** Patterns and input text *)

Lemma replace_app (a b : str) (c : ascii) (r : str) :
  Py.replace (a ++ b) c r = Py.replace a c r ++ Py.replace b c r.
Proof. unfold Py.replace. by rewrite map_app, concat_app. Qed.

Lemma escape_app (a b : str) : escape (a ++ b) = escape a ++ escape b.
Proof. unfold escape. by rewrite !replace_app. Qed.

(** [escape] works character by character, although it is written as
    three replacements in a row: a backslash, a hyphen and a closing
    square bracket each get one backslash in front, every other character
    is kept. The backslashes a later replacement inserts are not escaped
    again. *)
Theorem escape_per_character (chars : str) :
  escape chars
  = concat (map (fun a => if bool_decide (a ∈ py "\-]") then ["\"%char; a] else [a])
              chars).
Proof.
  induction chars as [| a chars IH]; [reflexivity |].
  change (a :: chars) with ([a] ++ chars).
  rewrite escape_app, IH, map_app, concat_app. f_equal.
  unfold escape, Py.replace. simpl.
  case_bool_decide as Hin.
  - apply elem_of_cons in Hin as [-> | Hin]; [reflexivity |].
    apply elem_of_cons in Hin as [-> | Hin]; [reflexivity |].
    apply elem_of_cons in Hin as [-> | Hin]; [reflexivity |].
    by apply elem_of_nil in Hin.
  - assert (H1 : a <> "\"%char) by (intros ->; apply Hin; vm_compute; set_solver).
    assert (H2 : a <> "-"%char) by (intros ->; apply Hin; set_solver).
    assert (H3 : a <> "]"%char) by (intros ->; apply Hin; set_solver).
    unfold Py.eqc. rewrite (bool_decide_eq_false_2 _ H1). simpl.
    rewrite (bool_decide_eq_false_2 _ H2). simpl.
    rewrite (bool_decide_eq_false_2 _ H3). reflexivity.
Qed.

Lemma replace_nil_filter (s : str) (c : ascii) :
  Py.replace s c [] = filter (fun a => a <> c) s.
Proof.
  unfold Py.replace. induction s as [| a s IH]; [reflexivity |].
  simpl. rewrite IH. unfold Py.eqc. case_bool_decide as Hac.
  - by rewrite filter_cons_False by (intros Hne; by apply Hne).
  - by rewrite filter_cons_True by done.
Qed.

Lemma split_nonempty (s : str) (sep : ascii) : Py.split s sep <> [].
Proof.
  destruct s as [| a s]; simpl; [discriminate |].
  destruct (Py.eqc a sep); [discriminate |].
  destruct (Py.split s sep); discriminate.
Qed.

(** The pieces of [s.split(sep)] hold the characters of [s] other than
    the separators, in order. *)
Lemma split_concat (s : str) (sep : ascii) :
  concat (Py.split s sep) = filter (fun a => a <> sep) s.
Proof.
  induction s as [| a s IH]; [reflexivity |].
  simpl. unfold Py.eqc. case_bool_decide as Hac.
  - subst a. rewrite filter_cons_False by (intros Hne; by apply Hne). exact IH.
  - rewrite filter_cons_True by done. rewrite <- IH.
    destruct (Py.split s sep) as [| w ws] eqn:Hs; [by apply split_nonempty in Hs |].
    reflexivity.
Qed.

Lemma split_no_sep (s : str) (sep : ascii) :
  Forall (fun w => sep ∉ w) (Py.split s sep).
Proof.
  induction s as [| a s IH]; simpl.
  - constructor; [by apply not_elem_of_nil | constructor].
  - unfold Py.eqc. case_bool_decide as Hac.
    + constructor; [by apply not_elem_of_nil | exact IH].
    + destruct (Py.split s sep) as [| w ws].
      * constructor; [| constructor]. apply not_elem_of_cons. split; [congruence |].
        by apply not_elem_of_nil.
      * inversion IH as [| ? ? Hw Hws]; subst. constructor; [| exact Hws].
        apply not_elem_of_cons. split; [congruence | exact Hw].
Qed.

Lemma split_elem_of (s : str) (sep : ascii) (w : str) (x : ascii) :
  w ∈ Py.split s sep -> x ∈ w -> x ∈ s.
Proof.
  intros Hw Hx.
  assert (Hc : x ∈ concat (Py.split s sep)).
  { apply list_elem_of_In, in_concat. exists w.
    split; by apply list_elem_of_In. }
  rewrite split_concat in Hc. by apply list_elem_of_filter in Hc as [_ Hc].
Qed.

Lemma join_elem_of (sep : str) (l : list str) (x : ascii) :
  x ∈ Py.join sep l -> x ∈ sep \/ exists w, w ∈ l /\ x ∈ w.
Proof.
  induction l as [| w l IH]; simpl; [intros Hx; by apply elem_of_nil in Hx |].
  destruct l as [| w' l'].
  - intros Hx. right. exists w. split; [by apply elem_of_cons; left | done].
  - intros Hx. apply elem_of_app in Hx as [Hx | Hx].
    + right. exists w. split; [by apply elem_of_cons; left | done].
    + apply elem_of_app in Hx as [Hx | Hx]; [by left |].
      destruct (IH Hx) as [Hs | (w0 & Hw0 & Hx0)]; [by left |].
      right. exists w0. split; [by apply elem_of_cons; right | done].
Qed.

(** Splitting a joined list at the separator gives the list back, when no
    element holds the separator. *)
Lemma split_join (sep : ascii) (l : list str) :
  l <> [] -> Forall (fun w => sep ∉ w) l -> Py.split (Py.join [sep] l) sep = l.
Proof.
  assert (Hone : forall (w : str) (rest : str),
            sep ∉ w ->
            Py.split (w ++ rest) sep
            = match Py.split rest sep with
              | [] => [w]
              | r :: rs => (w ++ r) :: rs
              end).
  { induction w as [| a w IHw]; intros rest Hw; simpl.
    - destruct (Py.split rest sep) eqn:Hs; [by apply split_nonempty in Hs | done].
    - apply not_elem_of_cons in Hw as [Hne Hw].
      unfold Py.eqc. rewrite bool_decide_eq_false_2 by done.
      rewrite (IHw rest Hw).
      destruct (Py.split rest sep) eqn:Hs; [by apply split_nonempty in Hs | done]. }
  induction l as [| w l IH]; intros Hne Hall; [done |].
  inversion Hall as [| ? ? Hw Hl]; subst.
  destruct l as [| w' l'].
  - simpl. rewrite <- (app_nil_r w) at 1. rewrite (Hone w [] Hw). simpl.
    by rewrite app_nil_r.
  - change (Py.join [sep] (w :: w' :: l')) with (w ++ [sep] ++ Py.join [sep] (w' :: l')).
    rewrite (Hone w _ Hw).
    change ([sep] ++ Py.join [sep] (w' :: l')) with (sep :: Py.join [sep] (w' :: l')).
    cbn [Py.split]. unfold Py.eqc at 1. rewrite bool_decide_eq_true_2 by done.
    rewrite IH by done. by rewrite app_nil_r.
Qed.

Lemma join_filter (P : ascii -> Prop) `{forall a, Decision (P a)} (sep : ascii)
  (l : list str) :
  ~ P sep -> filter P (Py.join [sep] l) = concat (map (filter P) l).
Proof.
  intros Hsep. induction l as [| w l IH]; [reflexivity |].
  destruct l as [| w' l'].
  - simpl. by rewrite app_nil_r.
  - change (Py.join [sep] (w :: w' :: l')) with (w ++ sep :: Py.join [sep] (w' :: l')).
    rewrite filter_app, filter_cons_False by done. rewrite IH. reflexivity.
Qed.

Lemma rstrip_char_nil (s : str) (c : ascii) :
  Py.rstrip_char s c = [] -> Forall (fun a => a = c) s.
Proof.
  induction s as [| a s IH]; simpl; [constructor |].
  destruct (Py.rstrip_char s c) as [| b t]; [| discriminate].
  unfold Py.eqc. case_bool_decide as Hac; [| discriminate].
  intros _. constructor; [exact Hac | by apply IH].
Qed.

Lemma len_times (c : ascii) (n : Z) : Py.len (Py.times c n) = Z.max 0 n.
Proof. unfold Py.len, Py.times. rewrite length_replicate. lia. Qed.

Lemma elem_of_times (c x : ascii) (n : Z) : x ∈ Py.times c n -> x = c.
Proof. unfold Py.times. intros Hx. by apply elem_of_replicate in Hx as [-> _]. Qed.

(** What [convert_text] puts on each row. *)
Lemma convert_lines_rows (full_lines : list str) (cols : Z) :
  Forall (fun l => LF ∉ l) full_lines ->
  Forall (fun row => (cols <= Py.len row) /\ (CR ∉ row) /\ (LF ∉ row))
    (convert_lines full_lines cols).
Proof.
  induction full_lines as [| full_line rest IH]; intros Hall; simpl; [constructor |].
  inversion Hall as [| ? ? Hfl Hrest]; subst.
  apply Forall_app. split; [| by apply IH].
  destruct (truthy full_line); [| constructor].
  destruct (negb (truthy (Py.rstrip_char full_line CR))).
  - apply Forall_forall. intros row Hrow.
    apply elem_of_replicate in Hrow as [-> _].
    split; [rewrite len_times; lia |].
    split; intros Hin; apply elem_of_times in Hin; discriminate.
  - apply Forall_forall. intros row Hrow.
    apply list_elem_of_fmap in Hrow as (line & -> & Hline).
    apply list_elem_of_filter in Hline as [_ Hline].
    unfold Py.ljust. split; [rewrite len_app, len_times; lia |].
    split; intros Hin; apply elem_of_app in Hin as [Hin | Hin].
    + pose proof (split_no_sep full_line CR) as Hns.
      rewrite Forall_forall in Hns. by apply (Hns line Hline).
    + apply elem_of_times in Hin. discriminate.
    + apply Hfl. by apply (split_elem_of full_line CR line LF).
    + apply elem_of_times in Hin. discriminate.
Qed.

(** Every row of the converted text is at least [cols] characters long
    and holds no carriage return: the rows are the lines the terminal
    shows, padded with filler. *)
Theorem convert_text_rows (text : str) (cols : Z) :
  convert_text text cols <> [] ->
  Forall (fun row => (cols <= Py.len row) /\ (CR ∉ row))
    (Py.split (convert_text text cols) LF).
Proof.
  intros Hne. unfold convert_text in *.
  pose proof (convert_lines_rows (Py.split text LF) cols (split_no_sep text LF)) as Hrows.
  rewrite split_join.
  - eapply Forall_impl; [exact Hrows |]. intros row (Hlen & Hcr & _). by split.
  - intros Hnil. rewrite Hnil in Hne. by apply Hne.
  - eapply Forall_impl; [exact Hrows |]. intros row (_ & _ & Hlf). exact Hlf.
Qed.

Lemma convert_text_rows_witness :
  convert_text (py "ab" ++ [CR; LF; CR; CR; LF] ++ py "cdefg") 3 <> [] /\
  Forall (fun row => (3 <= Py.len row) /\ (CR ∉ row))
    (Py.split (convert_text (py "ab" ++ [CR; LF; CR; CR; LF] ++ py "cdefg") 3) LF).
Proof.
  assert (Hne : convert_text (py "ab" ++ [CR; LF; CR; CR; LF] ++ py "cdefg") 3 <> [])
    by (vm_compute; discriminate).
  split; [exact Hne |].
  exact (convert_text_rows _ 3 Hne).
Defined.

(** The characters a screen shows. *)
Example convert_text_example :
  convert_text (py "ab" ++ [CR; LF; CR; CR; LF] ++ py "cdefg") 3
  = py "ab" ++ [NUL; LF; NUL; NUL; NUL; LF; NUL; NUL; NUL; LF] ++ py "cdefg".
Proof. vm_compute. reflexivity. Qed.

Lemma filter_concat (P : ascii -> Prop) `{forall a, Decision (P a)} (l : list str) :
  filter P (concat l) = concat (map (filter P) l).
Proof.
  induction l as [| w l IH]; [reflexivity |].
  simpl. by rewrite filter_app, IH.
Qed.

Lemma filter_none (P : ascii -> Prop) `{forall a, Decision (P a)} (s : str) :
  Forall (fun a => ~ P a) s -> filter P s = [].
Proof.
  induction 1 as [| a s Ha Hs IH]; [reflexivity |].
  by rewrite filter_cons_False.
Qed.

Lemma filter_agree (P Q : ascii -> Prop) `{forall a, Decision (P a)}
  `{forall a, Decision (Q a)} (s : str) :
  Forall (fun a => P a <-> Q a) s -> filter P s = filter Q s.
Proof.
  induction 1 as [| a s Ha Hs IH]; [reflexivity |].
  destruct (decide (P a)) as [Hp | Hp].
  - rewrite !filter_cons_True by tauto. by rewrite IH.
  - rewrite !filter_cons_False by tauto. exact IH.
Qed.

(** The characters of the rows [convert_text] makes of the lines
    [full_lines], filler and carriage returns left out, are those of the
    lines. *)
Lemma convert_lines_visible (P : ascii -> Prop) `{forall a, Decision (P a)}
  (full_lines : list str) (cols : Z) :
  ~ P NUL -> ~ P CR ->
  concat (map (filter P) (convert_lines full_lines cols))
  = concat (map (filter P) full_lines).
Proof.
  intros Hnul Hcr.
  assert (Hfill : forall n, filter P (Py.times NUL n) = []).
  { intros n. apply filter_none, Forall_forall. intros a Ha.
    apply elem_of_times in Ha. by subst a. }
  induction full_lines as [| full_line rest IH]; [reflexivity |].
  simpl. rewrite map_app, concat_app, IH. f_equal.
  unfold truthy, Py.eqs. case_bool_decide as Hnil; simpl; [by subst |].
  case_bool_decide as Hblank; simpl.
  - rewrite (filter_none P full_line).
    + induction (length full_line) as [| n IHn]; [reflexivity |].
      simpl. by rewrite Hfill.
    + eapply Forall_impl; [exact (rstrip_char_nil _ _ Hblank) |].
      intros a ->. exact Hcr.
  - transitivity (concat (map (filter P) (Py.split full_line CR))).
    + induction (Py.split full_line CR) as [| line lines IHl]; [reflexivity |].
      rewrite filter_cons. case_bool_decide as Hline; simpl.
      * destruct (decide (negb (bool_decide (line = [])) = true)) as [Hy | _].
        { exfalso. rewrite bool_decide_eq_true_2 in Hy by done. discriminate. }
        subst line. exact IHl.
      * destruct (decide (negb (bool_decide (line = [])) = true)) as [_ | Hn].
        2:{ exfalso. apply Hn. by rewrite bool_decide_eq_false_2. }
        simpl. f_equal; [| exact IHl].
        unfold Py.ljust. by rewrite filter_app, Hfill, app_nil_r.
    + rewrite <- filter_concat, split_concat, list_filter_filter.
      apply list_filter_iff. intros a. split; [tauto |].
      intros Hp. split; [exact Hp | by intros ->].
Qed.

Lemma convert_text_no_CR (text : str) (cols : Z) : CR ∉ convert_text text cols.
Proof.
  unfold convert_text. intros Hin.
  apply join_elem_of in Hin as [Hin | (row & Hrow & Hin)].
  - apply list_elem_of_singleton in Hin. discriminate.
  - pose proof (convert_lines_rows (Py.split text LF) cols (split_no_sep text LF)) as Hrows.
    rewrite Forall_forall in Hrows. by destruct (Hrows row Hrow) as (_ & Hcr & _).
Qed.

(** [convert_text] only lays the text out: it adds filler and newlines
    and drops carriage returns. Without filler, carriage returns and
    newlines the converted text is the text. *)
Theorem convert_text_keeps_characters (text : str) (cols : Z) :
  Py.replace (Py.replace (convert_text text cols) NUL []) LF []
  = Py.replace (Py.replace (Py.replace text NUL []) CR []) LF [].
Proof.
  rewrite !replace_nil_filter, !list_filter_filter.
  set (F := fun a : ascii => a <> LF /\ a <> CR /\ a <> NUL).
  transitivity (filter F (convert_text text cols)).
  - apply filter_agree, Forall_forall. intros a Ha. unfold F.
    pose proof (convert_text_no_CR text cols) as Hcr.
    split; [| tauto]. intros [H1 H2]. repeat split; [done | | done].
    intros ->. by apply Hcr.
  - unfold convert_text.
    rewrite (join_filter F) by (unfold F; tauto).
    rewrite (convert_lines_visible F) by (unfold F; tauto).
    rewrite <- filter_concat, split_concat, list_filter_filter.
    apply list_filter_iff. intros a. unfold F. tauto.
Qed.

(** ** The marks [run] hands to the handler *)

Lemma marks_index_map_fresh (l : list Mark) (d : gmap Z Mark) (k : Z) :
  k ∉ map Mark.index l ->
  foldl (fun d m => <[Mark.index m := m]> d) d l !! k = d !! k.
Proof.
  revert d. induction l as [| a l IH]; intros d Hk; [reflexivity |].
  simpl in *. apply not_elem_of_cons in Hk as [Hne Hk].
  rewrite IH by exact Hk. by rewrite lookup_insert_ne.
Qed.

(** When the indices of the marks are distinct, [index_map] finds every
    mark under its index. *)
Lemma marks_index_map_distinct (all_marks : list Mark) (m : Mark) :
  NoDup (map Mark.index all_marks) -> m ∈ all_marks ->
  marks_index_map all_marks !! Mark.index m = Some m.
Proof.
  unfold marks_index_map. generalize (∅ : gmap Z Mark).
  induction all_marks as [| a l IH]; intros d Hnd Hin; [by apply elem_of_nil in Hin |].
  simpl in *. apply NoDup_cons in Hnd as [Ha Hnd].
  apply elem_of_cons in Hin as [-> | Hin].
  - rewrite marks_index_map_fresh by exact Ha. by rewrite lookup_insert_eq.
  - by apply IH.
Qed.

Lemma last_seqZ_index (all_marks : list Mark) (last_mark : Mark) :
  map Mark.index all_marks = seqZ 0 (Py.len all_marks) ->
  last all_marks = Some last_mark ->
  Mark.index last_mark = Py.len all_marks - 1.
Proof.
  intros Hidx Hlast.
  assert (Hl : last (map Mark.index all_marks) = Some (Mark.index last_mark)).
  { change (last (Mark.index <$> all_marks) = Some (Mark.index last_mark)).
    by rewrite fmap_last, Hlast. }
  rewrite Hidx, last_lookup, length_seqZ in Hl.
  apply lookup_seqZ in Hl as [-> _].
  unfold Py.len in *. destruct all_marks; [discriminate |]. simpl length in *. lia.
Qed.

(** The indices [run] gives to marks numbered 0, 1, 2, ... *)
Lemma assign_indices_indices (args : HintsCLIOptions.t) (all_marks : list Mark)
  (last_mark : Mark) :
  map Mark.index all_marks = seqZ 0 (Py.len all_marks) ->
  last all_marks = Some last_mark ->
  map Mark.index (assign_indices args (Mark.index last_mark) all_marks)
  = (if HintsCLIOptions.ascending args
     then seqZ (Z.max 0 (HintsCLIOptions.hints_offset args)) (Py.len all_marks)
     else reverse (seqZ (Z.max 0 (HintsCLIOptions.hints_offset args))
                     (Py.len all_marks))).
Proof.
  intros Hidx Hlast.
  set (offset := Z.max 0 (HintsCLIOptions.hints_offset args)).
  pose proof (last_seqZ_index _ _ Hidx Hlast) as Hlargest.
  pose proof (len_nonneg all_marks) as Hn.
  set (n := Py.len all_marks) in *.
  assert (Hmap : map Mark.index (assign_indices args (Mark.index last_mark) all_marks)
                 = map (fun i => if HintsCLIOptions.ascending args
                                 then i + offset else n - 1 - i + offset)
                     (seqZ 0 n)).
  { rewrite <- Hidx. unfold assign_indices. rewrite !map_map.
    apply map_ext. intros m. fold offset. rewrite Hlargest.
    by destruct (HintsCLIOptions.ascending args). }
  rewrite Hmap. apply list_eq. intros i.
  change (map ?f ?l) with (f <$> l). rewrite list_lookup_fmap.
  destruct (decide (Z.of_nat i < n)) as [Hlt | Hge].
  - rewrite lookup_seqZ_lt by lia. simpl.
    destruct (HintsCLIOptions.ascending args).
    + rewrite lookup_seqZ_lt by lia. f_equal. lia.
    + rewrite reverse_lookup by (rewrite length_seqZ; lia).
      rewrite length_seqZ, lookup_seqZ_lt by lia. f_equal. lia.
  - rewrite lookup_seqZ_ge by lia. simpl.
    destruct (HintsCLIOptions.ascending args).
    + by rewrite lookup_seqZ_ge by lia.
    + apply eq_sym, lookup_ge_None_2. rewrite length_reverse, length_seqZ. lia.
Qed.

Lemma assign_indices_distinct (args : HintsCLIOptions.t) (all_marks : list Mark)
  (last_mark : Mark) :
  map Mark.index all_marks = seqZ 0 (Py.len all_marks) ->
  last all_marks = Some last_mark ->
  NoDup (map Mark.index (assign_indices args (Mark.index last_mark) all_marks)) /\
  Forall (fun m => 0 <= Mark.index m)
    (assign_indices args (Mark.index last_mark) all_marks).
Proof.
  intros Hidx Hlast.
  pose proof (assign_indices_indices args _ _ Hidx Hlast) as Hshape.
  split.
  - rewrite Hshape. destruct (HintsCLIOptions.ascending args);
      [| rewrite reverse_Permutation]; apply NoDup_seqZ.
  - apply Forall_forall. intros m Hm.
    assert (Hin : Mark.index m
                  ∈ map Mark.index (assign_indices args (Mark.index last_mark) all_marks)).
    { change (map ?f ?l) with (f <$> l). by apply list_elem_of_fmap_2. }
    rewrite Hshape in Hin.
    assert (Hin' : Mark.index m
                   ∈ seqZ (Z.max 0 (HintsCLIOptions.hints_offset args)) (Py.len all_marks)).
    { destruct (HintsCLIOptions.ascending args); [done | by apply elem_of_reverse]. }
    apply elem_of_seqZ in Hin'. lia.
Qed.

(** The renumbering of [run], for marks numbered 0, 1, 2, ... as [mark]
    numbers them: with [--ascending] the indices count up from the
    offset, otherwise they count down to it, so the first mark gets the
    largest index; a negative [--hints-offset] counts as 0. The indices
    are not negative, and [index_map] finds every mark under its own
    index. *)
Theorem assign_indices_renumbers (args : HintsCLIOptions.t) (all_marks : list Mark)
  (last_mark : Mark) :
  map Mark.index all_marks = seqZ 0 (Py.len all_marks) ->
  last all_marks = Some last_mark ->
  map Mark.index (assign_indices args (Mark.index last_mark) all_marks)
  = (if HintsCLIOptions.ascending args
     then seqZ (Z.max 0 (HintsCLIOptions.hints_offset args)) (Py.len all_marks)
     else reverse (seqZ (Z.max 0 (HintsCLIOptions.hints_offset args))
                     (Py.len all_marks))) /\
  Forall (fun m => 0 <= Mark.index m)
    (assign_indices args (Mark.index last_mark) all_marks) /\
  forall m,
    m ∈ assign_indices args (Mark.index last_mark) all_marks ->
    marks_index_map (assign_indices args (Mark.index last_mark) all_marks)
      !! Mark.index m = Some m.
Proof.
  intros Hidx Hlast.
  destruct (assign_indices_distinct args _ _ Hidx Hlast) as [Hnd Hnonneg].
  split; [by apply assign_indices_indices |]. split; [exact Hnonneg |].
  intros m Hm. by apply marks_index_map_distinct.
Qed.

Lemma assign_indices_renumbers_witness :
  map Mark.index [Mark.mk 0 0 3 (py "foo") []; Mark.mk 1 4 7 (py "bar") []]
  = seqZ 0 (Py.len [Mark.mk 0 0 3 (py "foo") []; Mark.mk 1 4 7 (py "bar") []]) /\
  last [Mark.mk 0 0 3 (py "foo") []; Mark.mk 1 4 7 (py "bar") []]
  = Some (Mark.mk 1 4 7 (py "bar") []) /\
  map Mark.index
    (assign_indices (example_args (py "ba") [] false) 1
       [Mark.mk 0 0 3 (py "foo") []; Mark.mk 1 4 7 (py "bar") []])
  = reverse (seqZ 1 2).
Proof.
  assert (H1 : map Mark.index [Mark.mk 0 0 3 (py "foo") []; Mark.mk 1 4 7 (py "bar") []]
               = seqZ 0 (Py.len [Mark.mk 0 0 3 (py "foo") []; Mark.mk 1 4 7 (py "bar") []]))
    by reflexivity.
  assert (H2 : last [Mark.mk 0 0 3 (py "foo") []; Mark.mk 1 4 7 (py "bar") []]
               = Some (Mark.mk 1 4 7 (py "bar") [])) by reflexivity.
  split; [exact H1 |]. split; [exact H2 |].
  exact (proj1 (assign_indices_renumbers (example_args (py "ba") [] false) _ _ H1 H2)).
Defined.

(** The handler [run] builds from the marks of [mark] can compute every
    hint, when the alphabet has two symbols or more: no index is
    negative. Its [index_map] and its marks agree: a mark is found under
    an index exactly when it is one of [all_marks] and has that index, so
    every mark on the screen can be chosen. *)
Theorem run_handler_well_formed `{Host} (pattern : str)
  (post_processors : list postprocessor) (text : str) (args : HintsCLIOptions.t)
  (marks : list Mark) (last_mark : Mark) :
  mark pattern post_processors text args = Ok marks ->
  last marks = Some last_mark ->
  2 <= Py.len (or_ (HintsCLIOptions.alphabet args) DEFAULT_HINT_ALPHABET) ->
  well_formed
    (Hints.init text (assign_indices args (Mark.index last_mark) marks)
       (marks_index_map (assign_indices args (Mark.index last_mark) marks)) args) /\
  forall idx m,
    Hints.index_map
      (Hints.init text (assign_indices args (Mark.index last_mark) marks)
         (marks_index_map (assign_indices args (Mark.index last_mark) marks)) args)
      !! idx = Some m
    <-> (m ∈ Hints.all_marks
           (Hints.init text (assign_indices args (Mark.index last_mark) marks)
              (marks_index_map (assign_indices args (Mark.index last_mark) marks))
              args)
         /\ Mark.index m = idx).
Proof.
  intros Hmark Hlast Halpha.
  assert (Hidx : map Mark.index marks = seqZ 0 (Py.len marks)).
  { unfold mark in Hmark.
    destruct (re_compile pattern) as [pat | |]; cbn [mbind result_bind] in Hmark;
      [| discriminate | discriminate].
    destruct (regex_finditer pat _ text) as [found | |];
      cbn [mbind result_bind] in Hmark; [| discriminate | discriminate].
    by destruct (mark_loop_marks post_processors text found 0 marks Hmark)
      as (_ & Hidx & _). }
  destruct (assign_indices_distinct args _ _ Hidx Hlast) as [Hnd Hnonneg].
  split; [by apply init_well_formed |].
  intros idx m. simpl. split.
  - apply marks_index_map_lookup.
  - intros [Hm <-]. by apply marks_index_map_distinct.
Qed.

Lemma run_handler_well_formed_witness :
  @mark example_host (py "abc") [] (py "abc x abc") (example_args (py "abc") [] false)
  = Ok [Mark.mk 0 0 3 (py "abc") []; Mark.mk 1 6 9 (py "abc") []] /\
  last [Mark.mk 0 0 3 (py "abc") []; Mark.mk 1 6 9 (py "abc") []]
  = Some (Mark.mk 1 6 9 (py "abc") []) /\
  2 <= Py.len (or_ [] DEFAULT_HINT_ALPHABET) /\
  well_formed
    (@Hints.init example_host (py "abc x abc")
       (assign_indices (example_args (py "abc") [] false) 1
          [Mark.mk 0 0 3 (py "abc") []; Mark.mk 1 6 9 (py "abc") []])
       (marks_index_map
          (assign_indices (example_args (py "abc") [] false) 1
             [Mark.mk 0 0 3 (py "abc") []; Mark.mk 1 6 9 (py "abc") []]))
       (example_args (py "abc") [] false)).
Proof.
  assert (H1 : @mark example_host (py "abc") [] (py "abc x abc")
                 (example_args (py "abc") [] false)
               = Ok [Mark.mk 0 0 3 (py "abc") []; Mark.mk 1 6 9 (py "abc") []])
    by (vm_compute; reflexivity).
  assert (H2 : last [Mark.mk 0 0 3 (py "abc") []; Mark.mk 1 6 9 (py "abc") []]
               = Some (Mark.mk 1 6 9 (py "abc") [])) by reflexivity.
  assert (H3 : 2 <= Py.len (or_ [] DEFAULT_HINT_ALPHABET)) by (vm_compute; discriminate).
  split; [exact H1 |]. split; [exact H2 |]. split; [exact H3 |].
  exact (proj1 (@run_handler_well_formed example_host _ _ _ _ _ _ H1 H2 H3)).
Defined.

(** When the marks cannot be computed because [mark] raises an exception
    (a pattern the engine rejects, or an [IndexError] of the extractor or
    of a post-processor), [run] prints the traceback, waits for Enter
    and exits with status 1. The loop is not entered: nothing is sent to
    the terminal, whatever events are waiting. *)
Theorem run_reports_failure `{Host} (args : HintsCLIOptions.t) (text : str)
  (extra_cli_args : list str) (cols : Z) (pattern : str)
  (post_processors : list postprocessor) (ex : exn) (line : str)
  (replies : list reply) (events : list event) :
  window_cols = Ok cols ->
  functions_for args = Ok (pattern, post_processors) ->
  Py.eqs (HintsCLIOptions.type args) (py "linenum") = false ->
  truthy (HintsCLIOptions.customize_processing args) = false ->
  mark pattern post_processors (convert_text text cols) args = Raise ex ->
  is_Exception ex = true ->
  run args text extra_cli_args (Line line :: replies) events
  = (Raise (SystemExit 1), [traceback; asked (py "Press Enter to quit.")]) /\
  exit_status (fst (run args text extra_cli_args (Line line :: replies) events))
  = Some 1.
Proof.
  intros Hcols Hfun Htype Hcustom Hmark Hex.
  assert (Hfind : find_marks args text extra_cli_args = Raise ex).
  { unfold find_marks, parse_input. rewrite Hcols. cbn [mbind result_bind].
    rewrite Hfun. cbn [mbind result_bind]. rewrite Htype, Hcustom, Hmark.
    reflexivity. }
  assert (Hrun : run args text extra_cli_args (Line line :: replies) events
                 = (Raise (SystemExit 1), [traceback; asked (py "Press Enter to quit.")])).
  { unfold run. rewrite Hfind. unfold run_except. rewrite Hex. reflexivity. }
  split; [exact Hrun |]. by rewrite Hrun.
Qed.

Lemma run_reports_failure_witness :
  @window_cols rejecting_host = Ok 20 /\
  @functions_for rejecting_host (example_args (py "abc") [] false) = Ok (py "abc", []) /\
  Py.eqs (HintsCLIOptions.type (example_args (py "abc") [] false)) (py "linenum") = false /\
  truthy (HintsCLIOptions.customize_processing (example_args (py "abc") [] false)) = false /\
  @mark rejecting_host (py "abc") [] (convert_text (py "abc") 20)
    (example_args (py "abc") [] false) = Raise re_error /\
  is_Exception re_error = true /\
  @run rejecting_host (example_args (py "abc") [] false) (py "abc") []
    (Line [] :: []) [text_event (py "1") false]
  = (Raise (SystemExit 1), [traceback; asked (py "Press Enter to quit.")]).
Proof.
  assert (H1 : @window_cols rejecting_host = Ok 20) by reflexivity.
  assert (H2 : @functions_for rejecting_host (example_args (py "abc") [] false)
               = Ok (py "abc", [])) by (vm_compute; reflexivity).
  assert (H3 : Py.eqs (HintsCLIOptions.type (example_args (py "abc") [] false))
                 (py "linenum") = false) by (vm_compute; reflexivity).
  assert (H4 : truthy (HintsCLIOptions.customize_processing
                         (example_args (py "abc") [] false)) = false)
    by (vm_compute; reflexivity).
  assert (H5 : @mark rejecting_host (py "abc") [] (convert_text (py "abc") 20)
                 (example_args (py "abc") [] false) = Raise re_error)
    by (vm_compute; reflexivity).
  assert (H6 : is_Exception re_error = true) by reflexivity.
  split; [exact H1 |]. split; [exact H2 |]. split; [exact H3 |]. split; [exact H4 |].
  split; [exact H5 |]. split; [exact H6 |].
  exact (proj1 (@run_reports_failure rejecting_host _ (py "abc") [] 20 _ _ re_error []
                  [] [text_event (py "1") false] H1 H2 H3 H4 H5 H6)).
Defined.

(** ** Handling the result *)

Lemma getitem_raises_IndexError {A} (s : list A) (i : Z) (ex : exn) :
  Py.getitem s i = Raise ex -> ex = IndexError.
Proof.
  unfold Py.getitem. destruct (_ || _); [by intros [= <-] |].
  destruct (s !! _); [discriminate | by intros [= <-]].
Qed.

Lemma getitem_elem_of {A} (s : list A) (i : Z) (x : A) :
  Py.getitem s i = Ok x -> x ∈ s.
Proof.
  unfold Py.getitem. destruct (_ || _); [discriminate |].
  destruct (s !! _) eqn:Hl; [| discriminate].
  intros [= <-]. by apply list_elem_of_lookup_2 in Hl.
Qed.

Lemma getitem_last {A} (s : list A) :
  Py.getitem s (-1) = match last s with Some x => Ok x | None => Raise IndexError end.
Proof.
  unfold Py.getitem. rewrite last_lookup. unfold Py.len.
  destruct s as [| a s]; [reflexivity |].
  change (-1 <? 0) with true. cbv iota.
  replace (-1 + Z.of_nat (length (a :: s))) with (Z.of_nat (length s))
    by (simpl length; lia).
  replace (_ || _) with false.
  2:{ apply eq_sym, orb_false_iff. split; [apply Z.ltb_ge | apply Z.leb_gt];
        simpl length; lia. }
  rewrite Nat2Z.id. simpl length. simpl pred.
  destruct ((a :: s) !! length s) eqn:Hl; [reflexivity |].
  apply lookup_ge_None in Hl. simpl in Hl. lia.
Qed.

(** With a numeric joiner [joined_text] gives one match: the one at that
    position, counted from the end when the number is negative, and the
    last match when there is none at that position. *)
Lemma joined_text_numeric `{Boss} (is_int : Z) (joiner text_type : str)
  (matches : list str) :
  matches <> [] ->
  exists m,
    joined_text (Some is_int) joiner text_type matches = Ok m /\
    m ∈ matches /\
    (Py.getitem matches is_int = Ok m \/
     (Py.getitem matches is_int = Raise IndexError /\ last matches = Some m)).
Proof.
  intros Hne. unfold joined_text.
  destruct (Py.getitem matches is_int) as [m | ex |] eqn:Hget.
  - exists m. split; [reflexivity |]. split; [by eapply getitem_elem_of | by left].
  - pose proof (getitem_raises_IndexError _ _ _ Hget) as ->.
    rewrite getitem_last.
    destruct (last matches) as [m |] eqn:Hlast.
    + exists m. split; [reflexivity |]. split; [| by right].
      rewrite last_lookup in Hlast. by apply list_elem_of_lookup_2 in Hlast.
    + apply last_None in Hlast. done.
  - by apply getitem_not_diverge in Hget.
Qed.

Lemma joined_text_outcome `{Boss} (is_int : option Z) (joiner text_type : str)
  (matches : list str) :
  (exists text, joined_text is_int joiner text_type matches = Ok text) \/
  (joined_text is_int joiner text_type matches = Raise IndexError /\
   is_int <> None /\ matches = []).
Proof.
  destruct is_int as [i |].
  - destruct matches as [| m matches].
    + right. split; [| done].
      unfold joined_text. destruct (Py.getitem [] i) as [? | ex |] eqn:Hget.
      * apply getitem_elem_of in Hget. by apply elem_of_nil in Hget.
      * pose proof (getitem_raises_IndexError _ _ _ Hget) as ->. reflexivity.
      * by apply getitem_not_diverge in Hget.
    + left. destruct (joined_text_numeric i joiner text_type (m :: matches))
        as (m' & Hj & _); [discriminate |]. by exists m'.
  - left. unfold joined_text. destruct (Py.eqs joiner (py "json")); by eexists.
Qed.

Lemma programs_loop_ok `{Boss} (text : str)
  (selected : list (str * list (str * option str))) (programs : list str) :
  fst (programs_loop (Ok text) selected programs) = Ok tt.
Proof.
  induction programs as [| program rest IH]; [reflexivity |].
  simpl. destruct (programs_loop (Ok text) selected rest) as [r actions].
  simpl in IH. subst r.
  destruct (Py.eqs program _); [by destruct window |].
  by destruct (Py.eqs program _).
Qed.

Lemma programs_loop_raise `{Boss} (ex : exn)
  (selected : list (str * list (str * option str))) (programs : list str) :
  fst (programs_loop (Raise ex) selected programs) = Ok tt \/
  (fst (programs_loop (Raise ex) selected programs) = Raise ex /\
   exists program, program ∈ programs /\
     ((program = py "-" /\ window <> None) \/ program = py "@")).
Proof.
  induction programs as [| program rest IH]; [by left |].
  simpl. destruct (programs_loop (Raise ex) selected rest) as [r actions].
  simpl in IH.
  assert (Hrest : r = Ok tt \/
            (r = Raise ex /\ exists p, p ∈ program :: rest /\
               ((p = py "-" /\ window <> None) \/ p = py "@"))).
  { destruct IH as [-> | (-> & p & Hp & Hcase)]; [by left |].
    right. split; [reflexivity |]. exists p. split; [by apply elem_of_cons; right | done]. }
  unfold Py.eqs. destruct (decide (program = py "-")) as [-> | Hdash].
  - rewrite bool_decide_eq_true_2 by reflexivity.
    destruct window as [w |] eqn:Hw; [| exact Hrest].
    right. split; [reflexivity |]. exists (py "-").
    split; [by apply elem_of_cons; left |]. left. split; [reflexivity | discriminate].
  - rewrite (bool_decide_eq_false_2 _ Hdash).
    destruct (decide (program = py "@")) as [-> | Hat].
    + rewrite bool_decide_eq_true_2 by reflexivity.
      right. split; [reflexivity |]. exists (py "@").
      split; [by apply elem_of_cons; left | by right].
    + rewrite (bool_decide_eq_false_2 _ Hat). exact Hrest.
Qed.

(** Past the custom processor's turn, [handle_result] always finishes,
    and it fails in one case only: the joiner is a number, no match is
    non-empty, and the text is to be pasted into an existing window or
    copied to the clipboard. The exception is then [IndexError]. *)
Theorem handle_result_fails_without_matches `{Boss} (data : selection) :
  fst (handle_result_default data) = Ok tt \/
  (fst (handle_result_default data) = Raise IndexError /\
   int (sel_multiple_joiner data) <> None /\
   selected_matches data = [] /\
   exists program, program ∈ sel_programs data /\
     ((program = py "-" /\ window <> None) \/ program = py "@")).
Proof.
  unfold handle_result_default.
  set (programs := match sel_programs data with [] => [py "default"] | p => p end).
  destruct (joined_text_outcome (int (sel_multiple_joiner data))
              (sel_multiple_joiner data) (sel_type data)
              (map fst (selected_matches data)))
    as [[text ->] | (-> & Hint & Hnil)].
  - left. apply programs_loop_ok.
  - destruct (programs_loop_raise IndexError (selected_matches data) programs)
      as [Hok | (Hr & p & Hp & Hcase)]; [by left |].
    right. split; [exact Hr |]. split; [exact Hint |].
    split; [by destruct (selected_matches data) |].
    exists p. split; [| exact Hcase].
    unfold programs in Hp. destruct (sel_programs data) as [| p0 ps]; [| exact Hp].
    apply list_elem_of_singleton in Hp. subst p.
    destruct Hcase as [[Hd _] | Hd]; discriminate.
Qed.

Example handle_result_index_error :
  @handle_result_default example_boss (example_selection (py "0") [py "default"; py "@"] [[]])
  = (Raise IndexError, []).
Proof. vm_compute. reflexivity. Qed.

Example handle_result_example :
  @handle_result_default example_boss
    (example_selection (py "1") [py "@"; py "vim"; py "-"] [py "foo"; []; py "bar"])
  = (Ok tt,
     [set_clipboard_string (py "bar");
      open_url (inl (py "foo")) (Some (py "vim")) (Some (py "/home"));
      open_url (inl (py "bar")) (Some (py "vim")) (Some (py "/home"));
      window_paste (py "bar")]).
Proof. vm_compute. reflexivity. Qed.
